(** * relik: the window manager (relik/inference/data/window/manager.py)

    A shallow embedding of [WindowManager]: window construction
    ([create_windows]) and window merging ([merge_windows] and the
    per-field merge helpers), with the Python operations the code relies on
    (slices, negative indices, [str]/[int] on integers, insertion-ordered
    dictionaries, [sorted] over a set, in-place list extension) written out. *)

From stdpp Require Import base strings list pretty.
From Stdlib Require Import ZArith Ascii Sorted Lia.

Local Open Scope Z_scope.

(** ** Python primitives *)

Module Py.

(** The exceptions the modelled code can raise. *)
Inductive PyError : Type :=
  | IndexError | TypeError | ValueError | AssertionError | AttributeError.

(** A computation that either returns or raises. *)
Inductive result (A : Type) : Type :=
  | Ok (a : A)
  | Raise (e : PyError).
Arguments Ok {A} a.
Arguments Raise {A} e.

Definition bind {A B} (m : result A) (k : A → result B) : result B :=
  match m with
  | Ok a => k a
  | Raise e => Raise e
  end.

Definition is_ok {A} (m : result A) : bool :=
  match m with Ok _ => true | Raise _ => false end.

(** [o] when it is not [None], the exception [e] otherwise. *)
Definition require {A} (e : PyError) (o : option A) : result A :=
  match o with
  | Some a => Ok a
  | None => Raise e
  end.

(** [assert b]. *)
Definition py_assert (b : bool) : result unit :=
  if b then Ok tt else Raise AssertionError.

(** A [for] loop whose body can raise, threading an accumulator. *)
Fixpoint foldM {A B} (f : B → A → result B) (l : list A) (b : B) : result B :=
  match l with
  | [] => Ok b
  | a :: l' => bind (f b a) (foldM f l')
  end.

(** [[f(x) for x in l]] where [f] can raise. *)
Fixpoint mapM {A B} (f : A → result B) (l : list A) : result (list B) :=
  match l with
  | [] => Ok []
  | a :: l' => bind (f a) (λ b, bind (mapM f l') (λ bs, Ok (b :: bs)))
  end.

(** *** Sequences: length, slices, indices *)

Definition len {A} (l : list A) : Z := Z.of_nat (length l).

(** A slice bound, clamped to [0..n] as Python does. *)
Definition clamp (n i : Z) : Z :=
  if i <? 0 then Z.max 0 (i + n) else Z.min i n.

(** [l[lo:hi]]; [None] is an omitted bound. *)
Definition slice {A} (l : list A) (lo hi : option Z) : list A :=
  let n := len l in
  let a := from_option (clamp n) 0 lo in
  let b := from_option (clamp n) n hi in
  take (Z.to_nat (b - a)) (drop (Z.to_nat a) l).

(** [l[i]]: negative indices count from the end, out of range raises. *)
Definition index {A} (l : list A) (i : Z) : result A :=
  let j := if i <? 0 then i + len l else i in
  if j <? 0 then Raise IndexError
  else require IndexError (l !! Z.to_nat j).

(** [range(a, b)]. *)
Definition range (a b : Z) : list Z :=
  (λ i : nat, a + Z.of_nat i) <$> seq 0 (Z.to_nat (b - a)).

(** [enumerate(l, start)] and [enumerate(l)]. *)
Fixpoint enumerate_from {A} (start : Z) (l : list A) : list (Z * A) :=
  match l with
  | [] => []
  | a :: l' => (start, a) :: enumerate_from (start + 1) l'
  end.

Definition enumerate {A} (l : list A) : list (Z * A) := enumerate_from 0 l.

(** [s[lo:hi]] on a string (characters are the bytes of the Rocq string). *)
Definition str_slice (s : string) (lo hi : Z) : string :=
  String.string_of_list_ascii (slice (String.list_ascii_of_string s) (Some lo) (Some hi)).

(** [len(s)] on a string, in the same characters. *)
Definition str_len (s : string) : Z := Z.of_nat (String.length s).

(** [sep.join(l)]. *)
Fixpoint join (sep : string) (l : list string) : string :=
  match l with
  | [] => ""
  | [s] => s
  | s :: l' => s +:+ sep +:+ join sep l'
  end.

(** *** [str] and [int] on integers *)

(** [str(z)]: the decimal numeral, with a leading minus sign below zero. *)
Definition str (z : Z) : string := pretty z.

(** White space as [int] strips it (the ASCII part of it). *)
Definition is_space (c : ascii) : bool :=
  let n := N_of_ascii c in
  (((9 <=? n) && (n <=? 13)) || ((28 <=? n) && (n <=? 32)))%N.

Definition digit_val (c : ascii) : option Z :=
  let n := Z.of_N (N_of_ascii c) in
  if (48 <=? n) && (n <=? 57) then Some (n - 48) else None.

(** The digits of a numeral, single underscores allowed between digits;
    [prev] tells whether the previous character was a digit. *)
Fixpoint digits (acc : Z) (prev : bool) (s : list ascii) : option Z :=
  match s with
  | [] => if prev then Some acc else None
  | c :: s' =>
      match digit_val c with
      | Some d => digits (acc * 10 + d) true s'
      | None =>
          if Ascii.eqb c "_" && prev then digits acc false s' else None
      end
  end.

Fixpoint lstrip (s : list ascii) : list ascii :=
  match s with
  | [] => []
  | c :: s' => if is_space c then lstrip s' else s
  end.

Definition strip (s : list ascii) : list ascii :=
  reverse (lstrip (reverse (lstrip s))).

(** [int(s)] in base ten on ASCII text: surrounding white space, an optional
    sign, decimal digits.  [None] stands for [ValueError]. *)
Definition parse_int (s : string) : option Z :=
  match strip (String.list_ascii_of_string s) with
  | [] => None
  | c :: r =>
      if Ascii.eqb c "+" then digits 0 false r
      else if Ascii.eqb c "-" then Z.opp <$> digits 0 false r
      else digits 0 false (c :: r)
  end.

Definition int (s : string) : result Z := require ValueError (parse_int s).

(** *** Dictionaries

    A [dict] keeps its items in insertion order and its keys distinct;
    assigning to a key that is present replaces the value in place. *)

Definition dict (K V : Type) : Type := list (K * V).

Section Dict.
Context {K V : Type} `{EqDecision K}.

(** [d.get(k)]. *)
Fixpoint dict_get (k : K) (d : dict K V) : option V :=
  match d with
  | [] => None
  | (k', v) :: d' => if decide (k = k') then Some v else dict_get k d'
  end.

(** [d[k] = v]. *)
Fixpoint dict_set (k : K) (v : V) (d : dict K V) : dict K V :=
  match d with
  | [] => [(k, v)]
  | (k', v') :: d' =>
      if decide (k = k') then (k', v) :: d' else (k', v') :: dict_set k v d'
  end.

(** [k in d]. *)
Definition dict_mem (k : K) (d : dict K V) : bool :=
  match dict_get k d with Some _ => true | None => false end.

(** [d.update(items)], also the dict comprehension when [d] is empty. *)
Definition dict_update (d : dict K V) (items : list (K * V)) : dict K V :=
  fold_left (λ acc kv, dict_set kv.1 kv.2 acc) items d.

(** The value of the last item carrying key [k], if any. *)
Definition last_value (k : K) (items : list (K * V)) : option V :=
  fold_left (λ acc kv, if decide (k = kv.1) then Some kv.2 else acc) items None.

(** Keys are pairwise distinct, as in every Python dictionary. *)
Definition dict_wf (d : dict K V) : Prop := NoDup (d.*1).
End Dict.

(** *** Ordering, [sorted] over a set, [list.index] *)

(** The three-way comparison behind [<] and [==] on values that are sorted:
    integers, strings, and tuples of them (compared lexicographically). *)
Class PyOrd (A : Type) := py_cmp : A → A → comparison.
Global Hint Mode PyOrd ! : typeclass_instances.

(** The comparison is a strict total order whose [Eq] is equality. *)
Class PyOrdLaws (A : Type) `{PyOrd A} : Prop := {
  py_cmp_eq (x y : A) : py_cmp x y = Eq ↔ x = y;
  py_cmp_antisym (x y : A) : py_cmp y x = CompOpp (py_cmp x y);
  py_cmp_trans (x y z : A) : py_cmp x y = Lt → py_cmp y z = Lt → py_cmp x z = Lt
}.

Definition py_lt {A} `{PyOrd A} (x y : A) : Prop := py_cmp x y = Lt.

Global Instance Z_ord : PyOrd Z := Z.compare.
Global Instance string_ord : PyOrd string := String.compare.
Global Instance prod_ord {A B} `{PyOrd A, PyOrd B} : PyOrd (A * B) :=
  λ p q, match py_cmp p.1 q.1 with
         | Eq => py_cmp p.2 q.2
         | c => c
         end.

Section Sorted.
Context {A : Type} `{PyOrd A}.

(** Insert into a strictly increasing list, once. *)
Fixpoint set_insert (x : A) (l : list A) : list A :=
  match l with
  | [] => [x]
  | y :: l' =>
      match py_cmp x y with
      | Lt => x :: l
      | Eq => l
      | Gt => y :: set_insert x l'
      end
  end.

(** [sorted(set(l))]: the elements of [l], each once, in increasing order. *)
Definition sorted_set (l : list A) : list A := foldr set_insert [] l.

(** [sorted(set(l1).union(set(l2)))]. *)
Definition sorted_union (l1 l2 : list A) : list A := sorted_set (l1 ++ l2).

(** Insertion in front of the first element whose key is not smaller. *)
Fixpoint key_insert {B} (key : B → A) (x : B) (l : list B) : list B :=
  match l with
  | [] => [x]
  | y :: l' =>
      match py_cmp (key x) (key y) with
      | Gt => y :: key_insert key x l'
      | _ => x :: l
      end
  end.

(** [sorted(l, key=key)]: Python's sort is stable, elements with equal keys
    keep their order (each element is inserted in front of those that
    followed it in [l]). *)
Definition sorted_by {B} (key : B → A) (l : list B) : list B :=
  foldr (key_insert key) [] l.
End Sorted.

(** [l.index(x)]: the first position of [x]; [None] stands for [ValueError]. *)
Fixpoint find_index {A} `{EqDecision A} (x : A) (l : list A) : option nat :=
  match l with
  | [] => None
  | y :: l' => if decide (x = y) then Some 0%nat else S <$> find_index x l'
  end.

Definition list_index {A} `{EqDecision A} (l : list A) (x : A) : result Z :=
  require ValueError (Z.of_nat <$> find_index x l).

(** [list(set(l))]: each element once.  Python leaves the order in which a
    set is listed unspecified; nothing proved below depends on the order
    chosen here. *)
Definition list_of_set {A} `{EqDecision A} (l : list A) : list A :=
  remove_dups l.

(** [a or b] on optional integers: [None] and [0] are falsy. *)
Definition py_or (a b : option Z) : option Z :=
  match a with
  | Some z => if z =? 0 then b else Some z
  | None => b
  end.

Global Instance result_ret : MRet result := @Ok.
Global Instance result_bind : MBind result := λ A B k m, bind m k.
Global Instance result_fmap : FMap result := λ A B f m, bind m (λ a, Ok (f a)).

End Py.

Import Py.

(** ** The data model *)

(** A token record of the tokenizer: its [text], the character offset [idx]
    of its first character in the document, its index [i] in the document. *)
Record Token : Type := mkToken {
  tok_text : string;
  tok_idx : Z;
  tok_i : Z
}.

(** A document as [create_windows] receives it: a string, or a list (of
    words, or of documents). *)
#[local] Unset Elimination Schemes.
Inductive PyDoc : Type :=
  | DStr (s : string)
  | DList (l : list PyDoc).
#[local] Set Elimination Schemes.

Definition isinstance_str (d : PyDoc) : bool :=
  match d with DStr _ => true | DList _ => false end.

(** The value stored as [doc_topic]: the caller's string (or the empty
    string), or the first token of a document, stored as the token itself. *)
Inductive Topic : Type :=
  | TopicStr (s : string)
  | TopicToken (t : Token).

(** An atom of a span annotation [[start, end, label, ...]]. *)
Inductive Atom : Type :=
  | AInt (z : Z)
  | AStr (s : string).

Global Instance Token_eq_dec : EqDecision Token.
Proof. solve_decision. Defined.
Global Instance Topic_eq_dec : EqDecision Topic.
Proof. solve_decision. Defined.
Global Instance Atom_eq_dec : EqDecision Atom.
Proof. solve_decision. Defined.

(** A reference to a list object of the store (see [Store] below). *)
Definition loc : Type := nat.

Section Sample.
Context {Span Score Probs : Type}.

(** A predicted triple [(head_index, relation, tail_index, score)]. *)
Definition Triple : Type := Z * string * Z * Score.

(** Modelled from the spec: [RelikReaderSample], the class of
    [relik.reader.data.relik_reader_sample] that the module imports, a
    loosely structured sample whose absent attributes read as [None]; here a
    record in which every attribute is optional.  The four candidate lists
    are references into the store, since the merge extends them in place;
    the other attributes are never written after construction and are
    values. *)
Record RelikReaderSample : Type := mkSample {
  doc_id : option Z;
  window_id : option Z;
  text : option string;
  tokens : option (list string);
  words : option (list string);
  doc_topic : option Topic;
  offset : option Z;
  spans : option (list (Z * Z));
  token2char_start : option (dict string Z);
  token2char_end : option (dict string Z);
  char2token_start : option (dict string Z);
  char2token_end : option (dict string Z);
  token2word_start : option (dict string Z);
  token2word_end : option (dict string Z);
  window_labels : option (list (list Atom));
  candidates : option loc;
  windows_candidates : option loc;
  span_candidates : option loc;
  triplet_candidates : option loc;
  predicted_spans : option (list Span);
  probs_window_labels_chars : option (dict Span Probs);
  predicted_spans_probs : option (dict Span Probs);
  predicted_triples : option (list Triple);
  predicted_triples_probs : option (dict Triple Probs)
}.

End Sample.
Arguments RelikReaderSample : clear implicits.
Arguments Triple : clear implicits.

(** The splitter's two settings; the outer [None] is an attribute that the
    splitter does not have ([hasattr] is false). *)
Record Splitter : Type := mkSplitter {
  splitter_window_size : option (option Z);
  splitter_window_stride : option (option Z)
}.

(** ** Window construction *)

Section CreateWindows.
Context {Span Score Probs : Type}.

(** The external collaborators: the tokenizer (documents to token records)
    and the splitter (a document's tokens to groups of tokens). *)
Variable tokenizer : list PyDoc → bool → list (list Token).
Variable split : Splitter → list Token → option Z → list (list Token).

Abbreviation Sample := (RelikReaderSample Span Score Probs).

(** The filter of the [spans] comprehension, for one mention [m]:
    [window_text_end > m[0] >= window_text_start and
     window_text_end >= m[1] >= window_text_start]. *)
Definition mention_in_window (window_text_start window_text_end : Z)
    (m : list Z) : result bool :=
  m0 ← index m 0;
  if (m0 <? window_text_end) && (window_text_start <=? m0) then
    m1 ← index m 1;
    Ok ((m1 <=? window_text_end) && (window_text_start <=? m1))
  else Ok false.

(** [[[m[0], m[1]] for m in document_mentions if ...]]. *)
Fixpoint window_spans (window_text_start window_text_end : Z)
    (document_mentions : list (list Z)) : result (list (Z * Z)) :=
  match document_mentions with
  | [] => Ok []
  | m :: ms =>
      keep ← mention_in_window window_text_start window_text_end m;
      if keep : bool then
        m0 ← index m 0;
        m1 ← index m 1;
        rest ← window_spans window_text_start window_text_end ms;
        Ok ((m0, m1) :: rest)
      else window_spans window_text_start window_text_end ms
  end.

(** The sample built for one raw window (the body of the inner loop up to
    the call of the [RelikReaderSample] constructor). *)
Definition window_sample (doc_id : Z) (document : PyDoc) (doc_topic : Topic)
    (document_mentions : list (list Z)) (window_id : Z) (window : list Token)
    : result Sample :=
  w_first ← index window 0;
  w_last ← index window (-1);
  let window_text_start := tok_idx w_first in
  let window_text_end := tok_idx w_last + str_len (tok_text w_last) in
  let text :=
    match document with
    | DStr d => str_slice d window_text_start window_text_end
    | DList _ => join " " (tok_text <$> window)
    end in
  spans ← window_spans window_text_start window_text_end document_mentions;
  Ok {| doc_id := Some doc_id;
        window_id := Some window_id;
        text := Some text;
        tokens := Some (tok_text <$> window);
        words := Some (tok_text <$> window);
        doc_topic := Some doc_topic;
        offset := Some window_text_start;
        spans := Some spans;
        token2char_start :=
          Some (dict_update [] ((λ iw, (str iw.1, tok_idx iw.2)) <$> enumerate window));
        token2char_end :=
          Some (dict_update []
                  ((λ iw, (str iw.1, tok_idx iw.2 + str_len (tok_text iw.2)))
                     <$> enumerate window));
        char2token_start :=
          Some (dict_update []
                  ((λ iw, (str (tok_idx iw.2), tok_i iw.2)) <$> enumerate window));
        char2token_end :=
          Some (dict_update []
                  ((λ iw, (str (tok_idx iw.2 + str_len (tok_text iw.2)), tok_i iw.2))
                     <$> enumerate window));
        token2word_start := None;
        token2word_end := None;
        window_labels := None;
        candidates := None;
        windows_candidates := None;
        span_candidates := None;
        triplet_candidates := None;
        predicted_spans := None;
        probs_window_labels_chars := None;
        predicted_spans_probs := None;
        predicted_triples := None;
        predicted_triples_probs := None |}.

(** [len(sample.spans) == 0]. *)
Definition no_spans (sample : Sample) : bool :=
  match spans sample with
  | Some l => len l =? 0
  | None => false
  end.

(** One round of the inner loop: build the sample, then route it to
    [windowed_blank_documents] or to [document_windows]. *)
Definition window_step (mentions_given : bool) (doc_id : Z) (document : PyDoc)
    (doc_topic : Topic) (document_mentions : list (list Z))
    (acc : list Sample * list Sample) (iw : Z * list Token)
    : result (list Sample * list Sample) :=
  let '(document_windows, windowed_blank_documents) := acc in
  sample ← window_sample doc_id document doc_topic document_mentions iw.1 iw.2;
  if mentions_given && no_spans sample then
    Ok (document_windows, windowed_blank_documents ++ [sample])
  else
    Ok (document_windows ++ [sample], windowed_blank_documents).

(** The loop state across documents: [doc_topic], [windowed_documents],
    [windowed_blank_documents]. *)
Definition DocState : Type := option Topic * list Sample * list Sample.

(** One round of the outer loop. *)
Definition document_step (self : Splitter) (max_length : option Z)
    (mentions_given : bool) (st : DocState)
    (item : Z * (PyDoc * list Token * list (list Z))) : result DocState :=
  let '(doc_topic, windowed_documents, windowed_blank_documents) := st in
  let '(doc_id, (document, document_tokens, document_mentions)) := item in
  let doc_topic :=
    match doc_topic with
    | None =>
        match document_tokens with
        | t :: _ => TopicToken t
        | [] => TopicStr ""
        end
    | Some topic => topic
    end in
  let splitted_document := split self document_tokens max_length in
  '(document_windows, windowed_blank_documents) ←
    foldM (window_step mentions_given doc_id document doc_topic document_mentions)
          (enumerate splitted_document) ([], windowed_blank_documents);
  Ok (Some doc_topic, windowed_documents ++ document_windows,
      windowed_blank_documents).

(** [if isinstance(documents, str) or is_split_into_words:
       documents = [documents]]; what is then iterated is a list (a string
    is always wrapped, so the last case is never reached). *)
Definition normalize (documents : PyDoc) (is_split_into_words : bool)
    : list PyDoc :=
  if isinstance_str documents || is_split_into_words then [documents]
  else match documents with
       | DList l => l
       | DStr _ => []
       end.

(** The write of the two splitter settings. *)
Definition set_splitter_params (self : Splitter) (window_size stride : option Z)
    : Splitter :=
  {| splitter_window_size :=
       match splitter_window_size self with
       | Some current => Some (py_or window_size current)
       | None => None
       end;
     splitter_window_stride :=
       match splitter_window_stride self with
       | Some current => Some (py_or stride current)
       | None => None
       end |}.

(** [create_windows]: the result (or the exception) and the splitter as the
    call leaves it. *)
Definition create_windows (self : Splitter) (documents : PyDoc)
    (window_size stride max_length : option Z) (doc_topic : option string)
    (is_split_into_words : bool) (mentions : option (list (list (list Z))))
    : result (list Sample * list Sample) * Splitter :=
  let documents := normalize documents is_split_into_words in
  let documents_tokens := tokenizer documents is_split_into_words in
  let self := set_splitter_params self window_size stride in
  let run :=
    doc_iter ←
      match mentions with
      | Some mentions =>
          _ ← py_assert (bool_decide (len documents = len mentions));
          Ok (zip (zip documents documents_tokens) mentions)
      | None =>
          Ok ((λ dt, (dt, [])) <$> zip documents documents_tokens)
      end;
    '(_, windowed_documents, windowed_blank_documents) ←
      foldM (document_step self max_length (bool_decide (is_Some mentions)))
            (enumerate doc_iter) (TopicStr <$> doc_topic, [], []);
    Ok (windowed_documents, windowed_blank_documents) in
  (run, self).

End CreateWindows.

(** ** Window merging: the per-field helpers *)

Section MergeFields.
Context {Span Score Probs : Type}.
Context `{EqDecision Span, PyOrd Span, EqDecision Score, PyOrd Score}.

Abbreviation Sample := (RelikReaderSample Span Score Probs).

(** The overlap search shared by [_merge_tokens] and [_merge_words]:
    [for k in reversed(range(1, len(w1))):
       if w1[-k:] == w2[:k]: intersection = k; break],
    with [intersection = 0] before the loop. *)
Definition find_intersection (w1 w2 : list string) : Z :=
  default 0
    (List.find
       (λ k, bool_decide (slice w1 (Some (- k)) None = slice w2 None (Some k)))
       (reverse (range 1 (len w1)))).

(** The loop body of [merge_char_mapping] and [merge_word_mapping]. *)
Definition remap_step (intersection w2_starting_offset : Z)
    (final_t2c : dict string Z) (tc : string * Z) : result (dict string Z) :=
  t ← int tc.1;
  if t <? intersection then Ok final_t2c
  else Ok (dict_set (str (t + w2_starting_offset)) tc.2 final_t2c).

(** The closure [merge_char_mapping] of [_merge_tokens]; a mapping that is
    [None] cannot be iterated. *)
Definition merge_char_mapping (tokens_intersection w2_starting_offset : Z)
    (t2c1 t2c2 : option (dict string Z)) : result (dict string Z) :=
  t2c1 ← require TypeError t2c1;
  let final_t2c := dict_update [] t2c1 in
  t2c2 ← require AttributeError t2c2;
  foldM (remap_step tokens_intersection w2_starting_offset) t2c2 final_t2c.

Definition _merge_tokens (window1 window2 : Sample)
    : result (list string * dict string Z * dict string Z) :=
  tokens1 ← require TypeError (tokens window1);
  tokens2 ← require TypeError (tokens window2);
  let w1_tokens := slice tokens1 (Some 1) (Some (-1)) in
  let w2_tokens := slice tokens2 (Some 1) (Some (-1)) in
  let tokens_intersection := find_intersection w1_tokens w2_tokens in
  cls ← index tokens1 0;
  sep ← index tokens1 (-1);
  let final_tokens :=
    [cls] ++ w1_tokens ++ slice w2_tokens (Some tokens_intersection) None
          ++ [sep] in
  let w2_starting_offset := len w1_tokens - tokens_intersection in
  m_start ← merge_char_mapping tokens_intersection w2_starting_offset
              (token2char_start window1) (token2char_start window2);
  m_end ← merge_char_mapping tokens_intersection w2_starting_offset
            (token2char_end window1) (token2char_end window2);
  Ok (final_tokens, m_start, m_end).

(** The closure [merge_word_mapping] of [_merge_words]; a mapping that is
    [None] counts as empty. *)
Definition merge_word_mapping (words_intersection w2_starting_offset : Z)
    (t2c1 t2c2 : option (dict string Z)) : result (dict string Z) :=
  let t2c1 := default [] t2c1 in
  let t2c2 := default [] t2c2 in
  let final_t2c := dict_update [] t2c1 in
  foldM (remap_step words_intersection w2_starting_offset) t2c2 final_t2c.

Definition _merge_words (window1 window2 : Sample)
    : result (list string * dict string Z * dict string Z) :=
  w1_words ← require TypeError (words window1);
  w2_words ← require TypeError (words window2);
  let words_intersection := find_intersection w1_words w2_words in
  let final_words := w1_words ++ slice w2_words (Some words_intersection) None in
  let w2_starting_offset := len w1_words - words_intersection in
  m_start ← merge_word_mapping words_intersection w2_starting_offset
              (token2word_start window1) (token2word_start window2);
  m_end ← merge_word_mapping words_intersection w2_starting_offset
            (token2word_end window1) (token2word_end window2);
  Ok (final_words, m_start, m_end).

(** The first occurrence of each annotation, in order ([uniq_store]). *)
Fixpoint uniq_annotations (seen : list (list Atom)) (l : list (list Atom))
    : list (list Atom) :=
  match l with
  | [] => []
  | x :: l' =>
      if bool_decide (x ∈ seen) then uniq_annotations seen l'
      else x :: uniq_annotations (x :: seen) l'
  end.

(** [sorted(store, key=lambda x: x[0])]: every key is computed first; keys
    are compared only among integers or only among strings. *)
Definition sort_annotations (l : list (list Atom)) : result (list (list Atom)) :=
  keyed ← mapM (λ x, k ← index x 0; Ok (k, x)) l;
  let ints := omap (λ kx, match kx.1 with AInt z => Some (z, kx.2) | AStr _ => None end) keyed in
  let strs := omap (λ kx, match kx.1 with AStr s => Some (s, kx.2) | AInt _ => None end) keyed in
  if bool_decide (length ints = length keyed) then Ok ((sorted_by fst ints).*2)
  else if bool_decide (length strs = length keyed) then Ok ((sorted_by fst strs).*2)
  else Raise TypeError.

Definition _merge_span_annotation (span_annotation1 span_annotation2 : option (list (list Atom)))
    : result (list (list Atom)) :=
  a1 ← require TypeError span_annotation1;
  a2 ← require TypeError span_annotation2;
  sort_annotations (uniq_annotations [] (a1 ++ a2)).

(** One round of the loop filling [merged_span_probabilities]. *)
Definition prob_step (merged : dict Span Probs) (kv : Span * Probs)
    : dict Span Probs :=
  if dict_mem kv.1 merged then merged else dict_set kv.1 kv.2 merged.

(** A triple of a window, its two span indices translated to positions in
    the merged span list. *)
Definition translate_triple (merged_span_predictions window_spans : list Span)
    (t : Triple Score) : result (Triple Score) :=
  let '(t0, t1, t2, t3) := t in
  head_span ← index window_spans t0;
  head ← list_index merged_span_predictions head_span;
  tail_span ← index window_spans t2;
  tail ← list_index merged_span_predictions tail_span;
  Ok (head, t1, tail, t3).

Definition _merge_predictions (window1 window2 : Sample)
    : result (list Span * dict Span Probs * list (Triple Score)
              * dict (Triple Score) Probs) :=
  match predicted_spans window1, predicted_spans window2 with
  | Some spans1, Some spans2 =>
      let merged_span_predictions := sorted_union spans1 spans2 in
      let merged_span_probabilities :=
        fold_left prob_step
          (default [] (probs_window_labels_chars window1)
             ++ default [] (probs_window_labels_chars window2)) [] in
      match predicted_triples window1, predicted_triples window2 with
      | Some triples1, Some triples2 =>
          window1_triplets ←
            mapM (translate_triple merged_span_predictions spans1) triples1;
          window2_triplets ←
            mapM (translate_triple merged_span_predictions spans2) triples2;
          Ok (merged_span_predictions, merged_span_probabilities,
              sorted_union window1_triplets window2_triplets, [])
      | _, _ =>
          Ok (merged_span_predictions, merged_span_probabilities, [], [])
      end
  | _, _ => Ok ([], [], [], [])
  end.

End MergeFields.

(** ** Window merging: the store, candidates, pairs, documents *)

Section MergeWindows.
Context {Span Score Probs Cand : Type}.
Context `{EqDecision Span, PyOrd Span, EqDecision Score, PyOrd Score}.
Context `{EqDecision Cand}.

Abbreviation Sample := (RelikReaderSample Span Score Probs).

(** The list objects that samples refer to, by position. *)
Definition Store : Type := list (list Cand).

(** A computation that reads and writes the store and can raise; the store
    it leaves is returned in both cases. *)
Definition M (A : Type) : Type := Store → result A * Store.

Definition ret {A} (a : A) : M A := λ st, (Ok a, st).

Definition bindM {A B} (m : M A) (k : A → M B) : M B :=
  λ st, match m st with
        | (Ok a, st') => k a st'
        | (Raise e, st') => (Raise e, st')
        end.

#[global] Instance M_ret : MRet M := @ret.
#[global] Instance M_bind : MBind M := λ A B k m, bindM m k.

(** A computation that does not touch the store. *)
Definition lift {A} (r : result A) : M A := λ st, (r, st).

(** A new list object. *)
Definition alloc (l : list Cand) : M loc :=
  λ st, (Ok (length st), st ++ [l]).

(** The contents of a list object. *)
Definition read (r : loc) : M (list Cand) :=
  λ st, (require TypeError (st !! r), st).

(** [r += items]: the list object [r] is extended in place. *)
Definition extend (r : loc) (items : list Cand) : M unit :=
  λ st, match st !! r with
        | Some l => (Ok tt, <[r := l ++ items]> st)
        | None => (Raise TypeError, st)
        end.

(** [if w1.f is not None: x = w1.f] then [if w2.f is not None: x += w2.f],
    where [x] was bound to a new empty list: the name is rebound to the
    first window's own list object, which [+=] then extends. *)
Definition merge_candidate_field (x : loc) (f1 f2 : option loc) : M loc :=
  let x := default x f1 in
  match f2 with
  | Some r2 =>
      items ← read r2;
      _ ← extend x items;
      ret x
  | None => ret x
  end.

(** [x = list(set(x))]. *)
Definition make_unique (x : loc) : M loc :=
  items ← read x;
  alloc (list_of_set items).

Definition _merge_candidates (window1 window2 : Sample)
    : M (loc * loc * loc * loc) :=
  cands ← alloc [];
  windows_cands ← alloc [];
  cands ← merge_candidate_field cands (candidates window1) (candidates window2);
  windows_cands ← merge_candidate_field windows_cands
                     (windows_candidates window1) (windows_candidates window2);
  span_cands ← alloc [];
  span_cands ← merge_candidate_field span_cands
                 (span_candidates window1) (span_candidates window2);
  triplet_cands ← alloc [];
  triplet_cands ← merge_candidate_field triplet_cands
                    (triplet_candidates window1) (triplet_candidates window2);
  cands ← make_unique cands;
  windows_cands ← make_unique windows_cands;
  span_cands ← make_unique span_cands;
  triplet_cands ← make_unique triplet_cands;
  ret (cands, windows_cands, span_cands, triplet_cands).

(** The two assertions that open [_merge_window_pair]. *)
Definition check_pair (window1 window2 : Sample) : result unit :=
  _ ← match doc_id window1 with
      | Some d1 => py_assert (bool_decide (Some d1 = doc_id window2))
      | None => Ok tt
      end;
  match offset window1 with
  | Some o1 =>
      match offset window2 with
      | Some o2 => py_assert (o1 <? o2)
      | None => Raise TypeError
      end
  | None => Ok tt
  end.

Definition _merge_window_pair (window1 window2 : Sample) : M Sample :=
  _ ← lift (check_pair window1 window2);
  '(m_tokens, m_token2char_start, m_token2char_end) ←
    lift (_merge_tokens window1 window2);
  '(m_words, m_token2word_start, m_token2word_end) ←
    lift (_merge_words window1 window2);
  '(m_candidates, m_windows_candidates, m_span_candidates, m_triplet_candidates) ←
    _merge_candidates window1 window2;
  m_window_labels ←
    lift (match window_labels window1 with
          | Some _ =>
              Some <$> _merge_span_annotation (window_labels window1)
                                              (window_labels window2)
          | None => Ok None
          end);
  '(m_spans, m_spans_probs, m_triples, m_triples_probs) ←
    lift (_merge_predictions window1 window2);
  ret {| doc_id := doc_id window1;
         window_id := None;
         text := None;
         tokens := Some m_tokens;
         words := Some m_words;
         doc_topic := None;
         offset := offset window2;
         spans := None;
         token2char_start := Some m_token2char_start;
         token2char_end := Some m_token2char_end;
         char2token_start := None;
         char2token_end := None;
         token2word_start := Some m_token2word_start;
         token2word_end := Some m_token2word_end;
         window_labels := m_window_labels;
         candidates := Some m_candidates;
         windows_candidates := Some m_windows_candidates;
         span_candidates := Some m_span_candidates;
         triplet_candidates := Some m_triplet_candidates;
         predicted_spans := Some m_spans;
         probs_window_labels_chars := None;
         predicted_spans_probs := Some m_spans_probs;
         predicted_triples := Some m_triples;
         predicted_triples_probs := Some m_triples_probs |}.

(** The loop of [_merge_doc_windows]. *)
Fixpoint merge_fold (window_accumulator : Sample) (rest : list Sample)
    : M Sample :=
  match rest with
  | [] => ret window_accumulator
  | next_window :: rest' =>
      window_accumulator ← _merge_window_pair window_accumulator next_window;
      merge_fold window_accumulator rest'
  end.

(** [sorted(windows, key=lambda x: x.offset)]: an offset that is [None]
    cannot be compared with an integer. *)
Definition sort_by_offset (windows : list Sample) : result (list Sample) :=
  keyed ← mapM (λ w, o ← require TypeError (offset w); Ok (o, w)) windows;
  Ok ((sorted_by fst keyed).*2).

Definition _merge_doc_windows (windows : list Sample) : M Sample :=
  match windows with
  | [w] => ret w
  | _ =>
      windows ←
        lift (match windows with
              | w0 :: _ =>
                  if bool_decide (is_Some (offset w0)) then sort_by_offset windows
                  else Ok windows
              | [] => Ok windows
              end);
      match windows with
      | w0 :: rest => merge_fold w0 rest
      | [] => lift (Raise IndexError)
      end
  end.

(** [windows_by_doc_id[window.doc_id].append(window)] for every window. *)
Definition group_by_doc_id (windows : list Sample)
    : dict (option Z) (list Sample) :=
  fold_left
    (λ by_doc w,
       dict_set (doc_id w) (default [] (dict_get (doc_id w) by_doc) ++ [w]) by_doc)
    windows [].

(** The dict comprehension of [merge_windows], one document after another. *)
Fixpoint merge_groups (groups : list (option Z * list Sample))
    : M (list Sample) :=
  match groups with
  | [] => ret []
  | (_, doc_windows) :: groups' =>
      merged ← _merge_doc_windows doc_windows;
      others ← merge_groups groups';
      ret (merged :: others)
  end.

Definition merge_windows (windows : list Sample) : M (list Sample) :=
  merge_groups (group_by_doc_id windows).

End MergeWindows.

(** * The vocabulary of the statements *)

(** ** Overlaps and re-keyed maps *)

(** The last [k] elements of [w1] are the first [k] elements of [w2]. *)
Definition overlap (k : nat) (w1 w2 : list string) : Prop :=
  drop (length w1 - k) w1 = take k w2.

(** A token-to-character map pair that [merge_char_mapping] accepts: both
    maps are present and every key of the second reads as an integer. *)
Definition mapping_ok (t2c1 t2c2 : option (dict string Z)) : Prop :=
  is_Some t2c1
  ∧ ∃ d2, t2c2 = Some d2 ∧ Forall (λ tc, is_Some (parse_int tc.1)) d2.

(** The entries of the second map that the merge keeps, under their new
    keys: an entry whose index is below [intersection] is left out, any
    other is moved up by [offset]. *)
Definition rekeyed (intersection offset : Z) (t2c2 : dict string Z)
    : list (string * Z) :=
  omap (λ tc, match parse_int tc.1 with
              | Some t =>
                  if t <? intersection then None
                  else Some (str (t + offset), tc.2)
              | None => None
              end) t2c2.

(** How a merged map relates to the maps [a_map] and [b_map] of the two
    windows, for an overlap [k] and a shift [off]. *)
Record remapped (k off : Z) (a_map b_map merged : dict string Z) : Prop := {
  (** an entry of [b] at index [z >= k] is found under [z + off], whatever
      [a] holds there (among entries of [b] moved to one key, the last wins) *)
  remapped_moved (i : nat) (t : string) (c z : Z) :
    b_map !! i = Some (t, c) → parse_int t = Some z → k ≤ z →
    (∀ (j : nat) t' c' z', b_map !! j = Some (t', c') → (i < j)%nat →
                           parse_int t' = Some z' → k ≤ z' → z' ≠ z) →
    dict_get (str (z + off)) merged = Some c;
  (** every entry of the merged map is an entry of [b] at an index [z >= k],
      moved to [z + off], or an entry of [a]: the entries of [b] below [k]
      are dropped *)
  remapped_origin (key : string) (v : Z) :
    dict_get key merged = Some v →
    (∃ t z, (t, v) ∈ b_map ∧ parse_int t = Some z ∧ k ≤ z ∧ key = str (z + off))
    ∨ (key, v) ∈ a_map;
  (** a key to which no entry of [b] is moved holds what [a] holds *)
  remapped_kept (key : string) :
    dict_wf a_map →
    (∀ t c z, (t, c) ∈ b_map → parse_int t = Some z → k ≤ z →
              key ≠ str (z + off)) →
    dict_get key merged = dict_get key a_map
}.

(** The priority as C3 states it: what the first window maps is found
    unchanged in the merged map. *)
Definition first_window_wins (a_map merged : dict string Z) : Prop :=
  ∀ key v, dict_get key a_map = Some v → dict_get key merged = Some v.

(** ** Raw windows and the samples built from them *)

(** The end offset of a token. *)
Definition tok_end (t : Token) : Z := tok_idx t + str_len (tok_text t).

(** A document of the outer loop: its number, then the document, its tokens
    and its mentions. *)
Abbreviation DocItem := (Z * (PyDoc * list Token * list (list Z)))%type.

(** A raw window with what the loop knows when it reaches it: the document
    number, the document, its mentions, the window number, the tokens. *)
Definition Raw : Type := Z * PyDoc * list (list Z) * Z * list Token.

Section WindowsVocabulary.
Context {Span Score Probs : Type}.
Variable tokenizer : list PyDoc → bool → list (list Token).
Variable split : Splitter → list Token → option Z → list (list Token).

Abbreviation Sample := (RelikReaderSample Span Score Probs).

(** The raw windows in the order the two loops visit them. *)
Definition raw_windows (self : Splitter) (max_length : option Z)
    (items : list DocItem) : list Raw :=
  flat_map
    (λ item : DocItem,
       (λ iw : Z * list Token, (item.1, item.2.1.1, item.2.2, iw.1, iw.2))
         <$> enumerate (split self item.2.1.2 max_length))
    items.

(** The documents with their tokens and mentions, as the loop pairs them. *)
Definition doc_iter (documents : list PyDoc) (documents_tokens : list (list Token))
    (mentions : option (list (list (list Z)))) : list DocItem :=
  enumerate
    match mentions with
    | Some mentions => zip (zip documents documents_tokens) mentions
    | None => (λ dt, (dt, [])) <$> zip documents documents_tokens
    end.

(** The topic every sample of the call receives: the loop variable
    [doc_topic] is assigned in the first round and never [None] again. *)
Definition call_topic (doc_topic : option Topic) (items : list DocItem) : Topic :=
  match doc_topic with
  | Some topic => topic
  | None =>
      match items with
      | (_, (_, t :: _, _)) :: _ => TopicToken t
      | _ => TopicStr ""
      end
  end.

(** [s] is the sample built for the raw window [raw]. *)
Definition built (topic : Topic) (s : Sample) (raw : Raw) : Prop :=
  window_sample raw.1.1.1.1 raw.1.1.1.2 topic raw.1.1.2 raw.1.2 raw.2 = Ok s.

(** The routing test of the inner loop. *)
Definition is_blank (mentions_given : bool) (s : Sample) : bool :=
  mentions_given && no_spans s.

(** The items of a call: its documents, normalized, with their tokens and
    mentions. *)
Definition call_items (documents : PyDoc) (is_split_into_words : bool)
    (mentions : option (list (list (list Z)))) : list DocItem :=
  let docs := normalize documents is_split_into_words in
  doc_iter docs (tokenizer docs is_split_into_words) mentions.

(** The raw windows of a call, split with the settings the call writes. *)
Definition call_raws (self : Splitter) (documents : PyDoc)
    (window_size stride max_length : option Z) (is_split_into_words : bool)
    (mentions : option (list (list (list Z)))) : list Raw :=
  raw_windows (set_splitter_params self window_size stride) max_length
              (call_items documents is_split_into_words mentions).

End WindowsVocabulary.

(** ** Translated triples *)

Section PredictionsVocabulary.
Context {Span Score : Type}.

(** [t'] is the triple [t] of a window whose spans are [window_spans], its
    two span indices replaced by the positions of the same spans in
    [merged]. *)
Definition translates (merged window_spans : list Span)
    (t t' : Triple Score) : Prop :=
  t'.1.1.2 = t.1.1.2 ∧ t'.2 = t.2
  ∧ ∃ head_span tail_span : Span,
      index window_spans t.1.1.1 = Ok head_span
      ∧ index window_spans t.1.2 = Ok tail_span
      ∧ 0 ≤ t'.1.1.1 ∧ merged !! Z.to_nat t'.1.1.1 = Some head_span
      ∧ 0 ≤ t'.1.2 ∧ merged !! Z.to_nat t'.1.2 = Some tail_span.

(** The two span indices of every triple of a window are indices into the
    window's own span list. *)
Definition triples_in_range (window_spans : list Span)
    (triples : option (list (Triple Score))) : Prop :=
  ∀ l, triples = Some l →
       Forall (λ t, is_ok (index window_spans t.1.1.1) = true
                    ∧ is_ok (index window_spans t.1.2) = true) l.

End PredictionsVocabulary.

(** ** References into the store and frames *)

Section StoreVocabulary.
Context {Span Score Probs Cand : Type}.

Abbreviation Sample := (RelikReaderSample Span Score Probs).

(** The list objects a sample refers to. *)
Definition refs (w : Sample) : list loc :=
  omap id [candidates w; windows_candidates w; span_candidates w;
           triplet_candidates w].

(** [m], run in a store that holds at least the first [n] objects, leaves
    each of these unchanged unless it is in [R], never shrinks the store, and
    returns a value satisfying [Q]. *)
Definition frames {A} (R : list loc) (n : nat) (m : @M Cand A) (Q : A → Prop) : Prop :=
  ∀ (st st' : @Store Cand) (res : result A),
    (n ≤ length st)%nat → m st = (res, st') →
    (length st ≤ length st')%nat
    ∧ (∀ r : loc, (r < n)%nat → r ∉ R → st' !! r = st !! r)
    ∧ ∀ a, res = Ok a → Q a.

(** The references of a sample are all new with respect to the first [n]
    objects of the store. *)
Definition fresh (n : nat) (w : Sample) : Prop := ∀ r, r ∈ refs w → (n ≤ r)%nat.

End StoreVocabulary.

(** ** Annotations, sorting, grouping *)

(** The integer an annotation starts with, if it starts with one. *)
Definition start_of (x : list Atom) : option Z :=
  match x with AInt z :: _ => Some z | _ => None end.

(** Both annotations start with an integer, and the first one's is not the
    larger. *)
Definition starts_before (x y : list Atom) : Prop :=
  ∃ sx sy : Z, start_of x = Some sx ∧ start_of y = Some sy ∧ sx ≤ sy.

(** [x] does not sort after [y] under [key]. *)
Definition key_le {A B} `{PyOrd A} (key : B → A) (x y : B) : Prop :=
  py_cmp (key x) (key y) ≠ Gt.

(** The elements of [l], each once, in the order of their first
    occurrences. *)
Fixpoint first_occurrences {A} `{EqDecision A} (l : list A) : list A :=
  match l with
  | [] => []
  | x :: l' => x :: filter (λ y, y ≠ x) (first_occurrences l')
  end.

(** The order of construction on raw windows: by document, then by
    window. *)
Definition raw_before (r r' : Raw) : Prop :=
  r.1.1.1.1 < r'.1.1.1.1 ∨ (r.1.1.1.1 = r'.1.1.1.1 ∧ r.1.2 < r'.1.2).

Section OrderVocabulary.
Context {Span Score Probs : Type}.
Abbreviation Sample := (RelikReaderSample Span Score Probs).

(** [s] was built before [s']: for an earlier document, or for an earlier
    window of the same document. *)
Definition window_before (s s' : Sample) : Prop :=
  ∃ d w d' w' : Z,
    doc_id s = Some d ∧ window_id s = Some w
    ∧ doc_id s' = Some d' ∧ window_id s' = Some w'
    ∧ (d < d' ∨ (d = d' ∧ w < w')).

(** Both windows have an offset and the first one's is the smaller. *)
Definition offset_lt (a b : Sample) : Prop :=
  ∃ oa ob : Z, offset a = Some oa ∧ offset b = Some ob ∧ oa < ob.

End OrderVocabulary.

(** ** Candidate lists in the store *)

Section CandidatesVocabulary.
Context {Span Score Probs Cand : Type}.
Abbreviation Sample := (RelikReaderSample Span Score Probs).
Abbreviation Store := (@Store Cand).

(** The elements of a candidate list, none when the attribute is [None]. *)
Definition contents (st : Store) (f : option loc) : list Cand :=
  match f with
  | Some r => default [] (st !! r)
  | None => []
  end.

(** The store after [x = w1.f or x; x += w2.f], when nothing raises. *)
Definition extended (x : loc) (f1 f2 : option loc) (s : Store) : Store :=
  match f2 with
  | Some _ =>
      <[default x f1 := contents s (Some (default x f1)) ++ contents s f2]> s
  | None => s
  end.

(** The list [c] that a merge in the store [st], leaving the store [st'],
    returns for a field holding [f1] in the first window and [f2] in the
    second: a new object, with the elements of both lists, each once; the
    first window's list has been extended, the second's is as it was. *)
Definition merged_list (st st' : Store) (f1 f2 : option loc) (c : loc) : Prop :=
  (length st ≤ c)%nat
  ∧ (∃ l, st' !! c = Some l ∧ NoDup l
          ∧ ∀ x, x ∈ l ↔ x ∈ contents st f1 ∨ x ∈ contents st f2)
  ∧ (∀ r1, f1 = Some r1 → st' !! r1 = Some (contents st f1 ++ contents st f2))
  ∧ (∀ r2, f2 = Some r2 → st' !! r2 = st !! r2).

End CandidatesVocabulary.

(** ** From [create_windows] to [merge_windows] *)

Section PipelineVocabulary.
Context {Span Score Probs Cand : Type}.
Abbreviation Sample := (RelikReaderSample Span Score Probs).
Abbreviation Store := (@Store Cand).

(** [s] is a sample that [create_windows] builds for some raw window. *)
Definition created (s : Sample) : Prop :=
  ∃ (topic : Topic) (raw : Raw), built topic s raw.

(** What the pairwise merge needs of its first window, besides the two
    assertions, when the second is a sample of [create_windows]: tokens
    that are not empty, the two token maps, words, candidate lists that
    exist in the store, and no labels. *)
Definition mergeable (st : Store) (w : Sample) : Prop :=
  (∃ toks, tokens w = Some toks ∧ toks ≠ [])
  ∧ is_Some (token2char_start w) ∧ is_Some (token2char_end w)
  ∧ is_Some (words w)
  ∧ (∀ r, r ∈ refs w → (r < length st)%nat)
  ∧ window_labels w = None.

End PipelineVocabulary.

(** ** Concrete inputs

    Small samples, tokenizers and splitters on which the statements below
    are evaluated.  Spans are [(start, end, label)] tuples, scores and
    probabilities are integers, candidates are strings. *)

Module Ex.

Definition Span : Type := Z * Z * string.
Abbreviation Sample := (RelikReaderSample Span Z Z).

(** A sample carrying tokens, words, the two token-to-character maps and
    possibly a list of candidates. *)
Definition window_with (cands : option loc) (id : Z) (off : Z)
    (toks : list string) (t2c_start t2c_end : dict string Z) : Sample :=
  {| doc_id := Some id; window_id := None; text := None;
     tokens := Some toks; words := Some toks; doc_topic := None;
     offset := Some off; spans := None;
     token2char_start := Some t2c_start; token2char_end := Some t2c_end;
     char2token_start := None; char2token_end := None;
     token2word_start := None; token2word_end := None;
     window_labels := None; candidates := cands; windows_candidates := None;
     span_candidates := None; triplet_candidates := None;
     predicted_spans := None; probs_window_labels_chars := None;
     predicted_spans_probs := None; predicted_triples := None;
     predicted_triples_probs := None |}.

Definition window : Z → Z → list string → dict string Z → dict string Z → Sample :=
  window_with None.

(** "the cat sat" and "cat sat down", two windows of "the cat sat down". *)
Definition the_cat_sat : Sample :=
  window 0 0 ["CLS"; "the"; "cat"; "sat"; "SEP"]
    [("0", 0); ("1", 0); ("2", 4); ("3", 8); ("4", 11)]
    [("0", 0); ("1", 3); ("2", 7); ("3", 11); ("4", 11)].

Definition cat_sat_down : Sample :=
  window 0 4 ["CLS"; "cat"; "sat"; "down"; "SEP"]
    [("0", 4); ("1", 4); ("2", 8); ("3", 12); ("4", 16)]
    [("0", 4); ("1", 7); ("2", 11); ("3", 16); ("4", 16)].

(** The same two windows, each with a list of candidates in the store: the
    first refers to object 0, the second to object 1. *)
Definition store : list (list string) := [["Cat"]; ["Mat"]].

Definition the_cat_sat_candidates : Sample :=
  window_with (Some 0%nat) 0 0 ["CLS"; "the"; "cat"; "sat"; "SEP"]
    [("0", 0); ("1", 0); ("2", 4); ("3", 8); ("4", 11)]
    [("0", 0); ("1", 3); ("2", 7); ("3", 11); ("4", 11)].

Definition cat_sat_down_candidates : Sample :=
  window_with (Some 1%nat) 0 4 ["CLS"; "cat"; "sat"; "down"; "SEP"]
    [("0", 4); ("1", 4); ("2", 8); ("3", 12); ("4", 16)]
    [("0", 4); ("1", 7); ("2", 11); ("3", 16); ("4", 16)].

(** The tokens of "A b" and of "C d". *)
Definition tokens_A_b : list Token := [mkToken "A" 0 0; mkToken "b" 2 1].
Definition tokens_C_d : list Token := [mkToken "C" 0 0; mkToken "d" 2 1].

(** A tokenizer that knows these two documents. *)
Definition tokenizer (documents : list PyDoc) (is_split_into_words : bool)
    : list (list Token) :=
  (λ d, match d with
        | DStr "A b" => tokens_A_b
        | DStr "C d" => tokens_C_d
        | _ => []
        end) <$> documents.

(** A splitter with windows of one token. *)
Definition one_token_windows (self : Splitter) (document_tokens : list Token)
    (max_length : option Z) : list (list Token) :=
  (λ t, [t]) <$> document_tokens.

(** A splitter that has both settings, at 10 and 5. *)
Definition splitter : Splitter := mkSplitter (Some (Some 10)) (Some (Some 5)).

(** [create_windows(["A b", "C d"], mentions=mentions, doc_topic=doc_topic)]
    with that tokenizer and that splitter. *)
Definition windows_of_A_b_C_d (doc_topic : option string)
    (mentions : option (list (list (list Z))))
    : result (list Sample * list Sample) * Splitter :=
  create_windows tokenizer one_token_windows splitter
    (DList [DStr "A b"; DStr "C d"]) None None None doc_topic false mentions.

(** The samples a call returned, both lists together. *)
Definition returned (r : result (list Sample * list Sample) * Splitter)
    : list Sample :=
  match r.1 with
  | Ok (windowed, blank) => windowed ++ blank
  | Raise _ => []
  end.

(** Two windows with predictions: the second refers to its spans by
    position, in an order that is not the sorted one. *)
Definition predictions (id off : Z) (pred_spans : list Span)
    (probs : dict Span Z) (triples : list (Triple Z)) : Sample :=
  {| doc_id := Some id; window_id := None; text := None;
     tokens := None; words := None; doc_topic := None;
     offset := Some off; spans := None;
     token2char_start := None; token2char_end := None;
     char2token_start := None; char2token_end := None;
     token2word_start := None; token2word_end := None;
     window_labels := None; candidates := None; windows_candidates := None;
     span_candidates := None; triplet_candidates := None;
     predicted_spans := Some pred_spans;
     probs_window_labels_chars := Some probs;
     predicted_spans_probs := None; predicted_triples := Some triples;
     predicted_triples_probs := None |}.

Definition predicted_a : Sample :=
  predictions 0 0 [(0, 3, "PER")] [((0, 3, "PER"), 9)] [].

Definition predicted_b : Sample :=
  predictions 0 4 [(5, 8, "LOC"); (3, 3, "ORG"); (0, 3, "PER")]
    [((0, 3, "PER"), 1); ((5, 8, "LOC"), 7)]
    [(0, "rel", 1, 10)].

(** Two windows whose words are their content, "the cat sat" and "cat sat
    down". *)
Definition words_the_cat_sat : Sample := window 0 0 ["the"; "cat"; "sat"] [] [].
Definition words_cat_sat_down : Sample := window 0 4 ["cat"; "sat"; "down"] [] [].

(** The label annotations of two windows; [[0, 3, PER]] is in both. *)
Definition labels_a : list (list Atom) :=
  [[AInt 4; AInt 7; AStr "LOC"]; [AInt 0; AInt 3; AStr "PER"]].
Definition labels_b : list (list Atom) :=
  [[AInt 0; AInt 3; AStr "PER"]; [AInt 2; AInt 5; AStr "ORG"]].

(** A window of another document. *)
Definition a_dog : Sample :=
  window 1 0 ["CLS"; "a"; "dog"; "SEP"]
    [("0", 0); ("1", 0); ("2", 2); ("3", 5)]
    [("0", 0); ("1", 1); ("2", 5); ("3", 5)].

(** A splitter that returns one group, which is empty. *)
Definition empty_window (self : Splitter) (document_tokens : list Token)
    (max_length : option Z) : list (list Token) :=
  [[]].

(** [create_windows("A b")] with the tokenizer and the splitter of one-token
    windows. *)
Definition windows_of_A_b : result (list Sample * list Sample) * Splitter :=
  create_windows tokenizer one_token_windows splitter (DStr "A b")
    None None None None false None.

(** The window [w] with predicted spans. *)
Definition predicting (w : Sample) (pred_spans : list Span) : Sample :=
  {| doc_id := doc_id w; window_id := window_id w; text := text w;
     tokens := tokens w; words := words w; doc_topic := doc_topic w;
     offset := offset w; spans := spans w;
     token2char_start := token2char_start w;
     token2char_end := token2char_end w;
     char2token_start := char2token_start w;
     char2token_end := char2token_end w;
     token2word_start := token2word_start w;
     token2word_end := token2word_end w;
     window_labels := window_labels w; candidates := candidates w;
     windows_candidates := windows_candidates w;
     span_candidates := span_candidates w;
     triplet_candidates := triplet_candidates w;
     predicted_spans := Some pred_spans;
     probs_window_labels_chars := None; predicted_spans_probs := None;
     predicted_triples := None; predicted_triples_probs := None |}.

(** "sat down now", the third window of "the cat sat down now". *)
Definition sat_down_now : Sample :=
  window 0 8 ["CLS"; "sat"; "down"; "now"; "SEP"]
    [("0", 8); ("1", 8); ("2", 12); ("3", 17); ("4", 20)]
    [("0", 8); ("1", 11); ("2", 16); ("3", 20); ("4", 20)].

(** The window [w] as the reader leaves it: with predicted spans and their
    probabilities in [probs_window_labels_chars]. *)
Definition scored (w : Sample) (pred_spans : list Span) (probs : dict Span Z)
    : Sample :=
  {| doc_id := doc_id w; window_id := window_id w; text := text w;
     tokens := tokens w; words := words w; doc_topic := doc_topic w;
     offset := offset w; spans := spans w;
     token2char_start := token2char_start w;
     token2char_end := token2char_end w;
     char2token_start := char2token_start w;
     char2token_end := char2token_end w;
     token2word_start := token2word_start w;
     token2word_end := token2word_end w;
     window_labels := window_labels w; candidates := candidates w;
     windows_candidates := windows_candidates w;
     span_candidates := span_candidates w;
     triplet_candidates := triplet_candidates w;
     predicted_spans := Some pred_spans;
     probs_window_labels_chars := Some probs; predicted_spans_probs := None;
     predicted_triples := None; predicted_triples_probs := None |}.

(** The three windows of "the cat sat down now", one predicted span each:
    "the" with probability 9, "cat" with 7, "down" with 5. *)
Definition scored_the_cat_sat : Sample :=
  scored the_cat_sat [(0, 3, "PER")] [((0, 3, "PER"), 9)].
Definition scored_cat_sat_down : Sample :=
  scored cat_sat_down [(4, 7, "LOC")] [((4, 7, "LOC"), 7)].
Definition scored_sat_down_now : Sample :=
  scored sat_down_now [(12, 16, "ORG")] [((12, 16, "ORG"), 5)].

End Ex.

(** The round trip as C2 states it: back to the position in the window. *)
Definition round_trip_to_position (s : Ex.Sample) : Prop :=
  ∀ (k : nat) (toks : list string) (t2c c2t : dict string Z) (c : Z),
    tokens s = Some toks → (k < length toks)%nat →
    token2char_start s = Some t2c → char2token_start s = Some c2t →
    dict_get (str (Z.of_nat k)) t2c = Some c →
    dict_get (str c) c2t = Some (Z.of_nat k).

(** * Properties *)

(** ** Slices *)

Section SliceFacts.
Context {A : Type}.
Implicit Types l : list A.

Lemma slice_inner l :
  slice l (Some 1) (Some (-1)) = take (length l - 2) (drop 1 l).
Proof.
  unfold slice, len, clamp; simpl.
  destruct l as [|x [|y l]]; [done | done |].
  cbn [length]. f_equal; [lia | f_equal; lia].
Qed.

Lemma slice_last l (k : nat) :
  (1 ≤ k)%nat → slice l (Some (- Z.of_nat k)) None = drop (length l - k) l.
Proof.
  intros Hk. unfold slice, len, clamp; simpl.
  destruct (Z.ltb_spec (- Z.of_nat k) 0); [|lia].
  replace (Z.to_nat (Z.max 0 (- Z.of_nat k + Z.of_nat (length l))))
    with (length l - k)%nat by lia.
  apply take_ge. rewrite length_drop. lia.
Qed.

Lemma slice_first l (k : nat) :
  slice l None (Some (Z.of_nat k)) = take k l.
Proof.
  unfold slice, len, clamp; simpl.
  destruct (Z.ltb_spec (Z.of_nat k) 0); [lia|].
  rewrite Z.sub_0_r. change (Z.to_nat 0) with 0%nat. rewrite drop_0.
  destruct (decide (k ≤ length l)%nat).
  - by replace (Z.to_nat (Z.min _ _)) with k by lia.
  - replace (Z.to_nat (Z.min _ _)) with (length l) by lia.
    rewrite !take_ge; [done | lia | lia].
Qed.

Lemma slice_from l (k : nat) :
  slice l (Some (Z.of_nat k)) None = drop k l.
Proof.
  unfold slice, len, clamp; simpl.
  destruct (Z.ltb_spec (Z.of_nat k) 0); [lia|].
  destruct (decide (k ≤ length l)%nat).
  - replace (Z.to_nat (Z.min _ _)) with k by lia.
    apply take_ge. rewrite length_drop. lia.
  - replace (Z.to_nat (Z.min _ _)) with (length l) by lia.
    rewrite !drop_ge; [|lia|lia]. by rewrite take_nil.
Qed.

Lemma index_first l x : index (x :: l) 0 = Ok x.
Proof. done. Qed.

Lemma index_last l : index l (-1) = require IndexError (last l).
Proof.
  unfold index, len. simpl.
  destruct l as [|x l]; [done|].
  destruct (Z.ltb_spec (-1 + Z.of_nat (length (x :: l))) 0); [simpl in *; lia|].
  rewrite last_lookup. do 2 f_equal. simpl. lia.
Qed.

Lemma index_is_ok l i :
  is_ok (index l i) = true ↔ - len l ≤ i < len l.
Proof.
  unfold index, len.
  set (j := if i <? 0 then i + Z.of_nat (length l) else i).
  assert (Hj : j = if i <? 0 then i + Z.of_nat (length l) else i) by done.
  clearbody j.
  destruct (Z.ltb_spec j 0) as [Hneg|Hpos].
  - simpl. split; [done|]. destruct (Z.ltb_spec i 0); lia.
  - destruct (l !! Z.to_nat j) eqn:E; simpl.
    + apply lookup_lt_Some in E. split; [|done].
      destruct (Z.ltb_spec i 0); lia.
    + apply lookup_ge_None in E. split; [done|].
      destruct (Z.ltb_spec i 0); lia.
Qed.

Lemma range_descending_lookup (n : nat) (j : nat) :
  (j < n - 1)%nat →
  reverse (range 1 (Z.of_nat n)) !! j = Some (Z.of_nat (n - 1 - j)).
Proof.
  intros Hj. unfold range.
  rewrite reverse_lookup; rewrite length_fmap, length_seq; [|lia].
  rewrite list_lookup_fmap, lookup_seq_lt by lia.
  simpl. f_equal. lia.
Qed.

Lemma range_descending_length (n : nat) :
  length (reverse (range 1 (Z.of_nat n))) = (n - 1)%nat.
Proof. unfold range. rewrite length_reverse, length_fmap, length_seq. lia. Qed.
End SliceFacts.

(** ** The overlap search *)

Lemma find_first {A} (f : A → bool) (l : list A) (x : A) :
  List.find f l = Some x →
  ∃ i : nat, l !! i = Some x ∧ f x = true
             ∧ ∀ (j : nat) y, l !! j = Some y → (j < i)%nat → f y = false.
Proof.
  induction l as [|a l IH]; simpl; [done|].
  destruct (f a) eqn:Hfa.
  - intros [= ->]. exists 0%nat. repeat split; [done|]. intros; lia.
  - intros Hfind. destruct (IH Hfind) as (i & Hi & Hx & Hbefore).
    exists (S i). repeat split; [done..|].
    intros [|j] y Hy Hlt; simpl in Hy.
    + by injection Hy as <-.
    + apply (Hbefore j); [done | lia].
Qed.

Lemma find_nowhere {A} (f : A → bool) (l : list A) :
  List.find f l = None → ∀ (j : nat) y, l !! j = Some y → f y = false.
Proof.
  induction l as [|a l IH]; simpl; [done|].
  destruct (f a) eqn:Hfa; [done|].
  intros Hfind [|j] y Hy; simpl in Hy.
  - by injection Hy as <-.
  - by apply (IH Hfind j).
Qed.

Lemma overlap_slices (k : nat) (w1 w2 : list string) :
  (1 ≤ k)%nat →
  slice w1 (Some (- Z.of_nat k)) None = slice w2 None (Some (Z.of_nat k))
  ↔ overlap k w1 w2.
Proof. intros Hk. unfold overlap. by rewrite slice_last, slice_first. Qed.

(** An overlap of [k] elements needs [k] elements on both sides. *)
Lemma overlap_lengths (k : nat) (w1 w2 : list string) :
  (k ≤ length w1)%nat → overlap k w1 w2 → (k ≤ length w2)%nat.
Proof.
  unfold overlap. intros Hk Heq.
  apply (f_equal length) in Heq. rewrite length_drop, length_take in Heq. lia.
Qed.

(** The search returns the largest [k] in [1 .. len(w1) - 1] at which the
    two sequences overlap, and [0] when there is none. *)
Lemma find_intersection_spec (w1 w2 : list string) :
  ∃ k : nat,
    find_intersection w1 w2 = Z.of_nat k
    ∧ (k = 0%nat ∨ ((1 ≤ k ≤ length w1 - 1)%nat ∧ overlap k w1 w2))
    ∧ ∀ j : nat, (k < j ≤ length w1 - 1)%nat → ¬ overlap j w1 w2.
Proof.
  unfold find_intersection, len.
  set (f := λ k : Z, bool_decide (_ = _)).
  destruct (List.find f _) as [z|] eqn:Hfind; simpl.
  - apply find_first in Hfind as (i & Hi & Hz & Hbefore).
    assert (i < length w1 - 1)%nat as Hlt.
    { apply lookup_lt_Some in Hi. by rewrite range_descending_length in Hi. }
    rewrite range_descending_lookup in Hi by done. injection Hi as <-.
    exists (length w1 - 1 - i)%nat. split; [done|]. split.
    + right. split; [lia|]. apply overlap_slices; [lia|].
      unfold f in Hz. by apply bool_decide_eq_true in Hz.
    + intros j Hj Hover.
      specialize (Hbefore (length w1 - 1 - j)%nat (Z.of_nat j)).
      rewrite range_descending_lookup in Hbefore by lia.
      assert (f (Z.of_nat j) = false) as Hf.
      { apply Hbefore; [f_equal; lia | lia]. }
      unfold f in Hf. apply bool_decide_eq_false in Hf.
      apply Hf, overlap_slices; [lia | done].
  - exists 0%nat. split; [done|]. split; [by left|].
    intros j Hj Hover.
    pose proof (find_nowhere _ _ Hfind (length w1 - 1 - j)%nat (Z.of_nat j)) as Hf.
    rewrite range_descending_lookup in Hf by lia.
    assert (f (Z.of_nat j) = false) as Hfj by (apply Hf; f_equal; lia).
    unfold f in Hfj. apply bool_decide_eq_false in Hfj.
    apply Hfj, overlap_slices; [lia | done].
Qed.

(** ** Inversion of the error monad *)

Lemma bind_Ok {A B} (m : result A) (k : A → result B) (b : B) :
  m ≫= k = Ok b → ∃ a, m = Ok a ∧ k a = Ok b.
Proof. destruct m as [a|e]; [eauto | done]. Qed.

Lemma require_Ok {A} (e : PyError) (o : option A) (a : A) :
  require e o = Ok a ↔ o = Some a.
Proof. destruct o; simpl; split; congruence. Qed.

Lemma foldM_app {A B} (f : B → A → result B) (l1 l2 : list A) (b : B) :
  foldM f (l1 ++ l2) b = foldM f l1 b ≫= foldM f l2.
Proof.
  revert b. induction l1 as [|a l1 IH]; intros b; simpl; [done|].
  unfold mbind, result_bind. destruct (f b a); simpl; [apply IH | done].
Qed.

(** Split a successful sequence of binds into its steps. *)
Ltac inv_ok H :=
  repeat match type of H with
         | _ ≫= _ = Ok _ =>
             let a := fresh "r" in
             let Ha := fresh "Hr" in
             apply bind_Ok in H as (a & Ha & H)
         | require _ _ = Ok _ => apply require_Ok in H
         | Ok _ = Ok _ => injection H as H
         end.

(** ** C1: the merged token list *)

Section MergeTokens.
Context {Span Score Probs : Type}.
Abbreviation Sample := (RelikReaderSample Span Score Probs).

Lemma remap_fold_is_ok (ti off : Z) (d2 final : dict string Z) :
  Forall (λ tc, is_Some (parse_int tc.1)) d2 →
  is_ok (foldM (remap_step ti off) d2 final) = true.
Proof.
  intros Hkeys. revert final.
  induction Hkeys as [|[t c] d2 [z Hz] _ IH]; intros final; simpl; [done|].
  unfold remap_step at 1, int. simpl in *. rewrite Hz. simpl.
  destruct (z <? ti); simpl; apply IH.
Qed.

Lemma merge_char_mapping_is_ok (ti off : Z) t2c1 t2c2 :
  mapping_ok t2c1 t2c2 → is_ok (merge_char_mapping ti off t2c1 t2c2) = true.
Proof.
  intros [[d1 ->] (d2 & -> & Hkeys)]. unfold merge_char_mapping. simpl.
  by apply remap_fold_is_ok.
Qed.

(** C1. On success, [_merge_tokens] returns
    [[a.tokens[0]] + a.tokens[1:-1] + b.tokens[1:-1][k:] + [a.tokens[-1]]],
    where [k] is the largest value in [1 .. len(a.tokens[1:-1]) - 1] at
    which the last [k] content tokens of [a] equal the first [k] content
    tokens of [b], and [0] when there is no such value; it succeeds whenever
    [a.tokens] is not empty and the character maps can be merged; and the
    windows "the cat sat" and "cat sat down" merge into "the cat sat down"
    between the markers of the first. *)
Theorem merge_tokens_formula (window1 window2 : Sample)
    (tokens1 tokens2 : list string) :
  tokens window1 = Some tokens1 →
  tokens window2 = Some tokens2 →
  let a := slice tokens1 (Some 1) (Some (-1)) in
  let b := slice tokens2 (Some 1) (Some (-1)) in
  (∀ final m_start m_end,
     _merge_tokens window1 window2 = Ok (final, m_start, m_end) →
     ∃ (k : nat) (cls sep : string),
       index tokens1 0 = Ok cls ∧ index tokens1 (-1) = Ok sep
       ∧ final = [cls] ++ a ++ slice b (Some (Z.of_nat k)) None ++ [sep]
       ∧ (k = 0%nat ∨ ((1 ≤ k ≤ length a - 1)%nat ∧ overlap k a b))
       ∧ ∀ j : nat, (k < j ≤ length a - 1)%nat → ¬ overlap j a b)
  ∧ (tokens1 ≠ [] →
     mapping_ok (token2char_start window1) (token2char_start window2) →
     mapping_ok (token2char_end window1) (token2char_end window2) →
     is_ok (_merge_tokens window1 window2) = true)
  ∧ (∀ cls sep cls' sep' final m_start m_end,
       tokens1 = [cls; "the"; "cat"; "sat"; sep] →
       tokens2 = [cls'; "cat"; "sat"; "down"; sep'] →
       _merge_tokens window1 window2 = Ok (final, m_start, m_end) →
       final = [cls; "the"; "cat"; "sat"; "down"; sep]).
Proof.
  intros Ht1 Ht2 a b. split; [|split].
  - intros final m_start m_end Hmerge.
    unfold _merge_tokens in Hmerge. rewrite Ht1, Ht2 in Hmerge. simpl in Hmerge.
    inv_ok Hmerge. subst.
    destruct (find_intersection_spec a b) as (k & Hk & Hover & Hmax).
    exists k, r, r0. fold a b. rewrite Hk. by repeat split.
  - intros Hne Hstart Hend.
    unfold _merge_tokens. rewrite Ht1, Ht2. simpl.
    destruct tokens1 as [|cls rest]; [done|]. rewrite index_first. simpl.
    rewrite index_last.
    destruct (last (cls :: rest)) as [sep|] eqn:Hlast.
    2:{ by apply last_None in Hlast. }
    simpl.
    pose proof (merge_char_mapping_is_ok
                  (find_intersection (slice (cls :: rest) (Some 1) (Some (-1)))
                                     (slice tokens2 (Some 1) (Some (-1))))
                  (len (slice (cls :: rest) (Some 1) (Some (-1)))
                   - find_intersection (slice (cls :: rest) (Some 1) (Some (-1)))
                                       (slice tokens2 (Some 1) (Some (-1))))
                  _ _ Hstart) as Hs.
    destruct (merge_char_mapping _ _ (token2char_start _) _); [|done]. simpl.
    pose proof (merge_char_mapping_is_ok
                  (find_intersection (slice (cls :: rest) (Some 1) (Some (-1)))
                                     (slice tokens2 (Some 1) (Some (-1))))
                  (len (slice (cls :: rest) (Some 1) (Some (-1)))
                   - find_intersection (slice (cls :: rest) (Some 1) (Some (-1)))
                                       (slice tokens2 (Some 1) (Some (-1))))
                  _ _ Hend) as He.
    by destruct (merge_char_mapping _ _ (token2char_end _) _).
  - intros cls sep cls' sep' final m_start m_end -> -> Hmerge.
    unfold _merge_tokens in Hmerge. rewrite Ht1, Ht2 in Hmerge. simpl in Hmerge.
    inv_ok Hmerge. by subst.
Qed.

End MergeTokens.

(** The theorem at the two windows of "the cat sat down". *)
Lemma merge_tokens_formula_witness :
  ∃ m_start m_end,
    _merge_tokens Ex.the_cat_sat Ex.cat_sat_down
    = Ok (["CLS"; "the"; "cat"; "sat"; "down"; "SEP"], m_start, m_end).
Proof.
  destruct (merge_tokens_formula Ex.the_cat_sat Ex.cat_sat_down _ _
              eq_refl eq_refl) as (_ & Hok & Hex).
  destruct (_merge_tokens Ex.the_cat_sat Ex.cat_sat_down)
    as [[[final m_start] m_end]|e] eqn:Hmerge.
  - exists m_start, m_end.
    by rewrite (Hex "CLS" "SEP" "CLS" "SEP" final m_start m_end eq_refl eq_refl eq_refl).
  - exfalso. vm_compute in Hmerge. discriminate Hmerge.
Defined.

(** ** Dictionaries *)

Section DictFacts.
Context {K V : Type} `{EqDecision K}.
Implicit Types (d : dict K V) (k : K) (v : V).

Lemma dict_get_set k k' v d :
  dict_get k (dict_set k' v d) = if decide (k = k') then Some v else dict_get k d.
Proof.
  induction d as [|[k0 v0] d IH]; simpl.
  - by destruct (decide (k = k')).
  - destruct (decide (k' = k0)) as [->|Hne]; simpl.
    + by destruct (decide (k = k0)).
    + destruct (decide (k = k0)) as [->|Hne']; simpl.
      * by rewrite decide_False by done.
      * done.
Qed.

Lemma dict_update_snoc d (items : list (K * V)) (kv : K * V) :
  dict_update d (items ++ [kv]) = dict_set kv.1 kv.2 (dict_update d items).
Proof. unfold dict_update. by rewrite fold_left_app. Qed.

Lemma last_value_snoc k (items : list (K * V)) (kv : K * V) :
  last_value k (items ++ [kv])
  = if decide (k = kv.1) then Some kv.2 else last_value k items.
Proof. unfold last_value. by rewrite fold_left_app. Qed.

(** After [d.update(items)], a key holds the value of its last item, and
    what [d] held when it has no item. *)
Lemma dict_get_update k d (items : list (K * V)) :
  dict_get k (dict_update d items)
  = match last_value k items with
    | Some v => Some v
    | None => dict_get k d
    end.
Proof.
  induction items as [|kv items IH] using rev_ind; [done|].
  rewrite dict_update_snoc, last_value_snoc, dict_get_set.
  by destruct (decide (k = kv.1)).
Qed.

Lemma last_value_None k (items : list (K * V)) :
  last_value k items = None ↔ ∀ kv, kv ∈ items → kv.1 ≠ k.
Proof.
  induction items as [|kv items IH] using rev_ind.
  - split; [|done]. intros _ kv Hin. by apply elem_of_nil in Hin.
  - rewrite last_value_snoc. destruct (decide (k = kv.1)) as [->|Hne].
    + split; [done|]. intros Hall. exfalso. apply (Hall kv); [|done].
      apply elem_of_app. right. by apply list_elem_of_singleton.
    + rewrite IH. split.
      * intros Hall kv' [Hin|Hin%list_elem_of_singleton]%elem_of_app;
          [by apply Hall | by subst].
      * intros Hall kv' Hin. apply Hall, elem_of_app. by left.
Qed.

(** The value of the last item with key [k] is that of the item at position
    [i] when no later item carries [k]. *)
Lemma last_value_at k (items : list (K * V)) (i : nat) v :
  items !! i = Some (k, v) →
  (∀ (j : nat) kv, items !! j = Some kv → (i < j)%nat → kv.1 ≠ k) →
  last_value k items = Some v.
Proof.
  revert i. induction items as [|kv items IH] using rev_ind; intros i Hi Hlater.
  - done.
  - rewrite last_value_snoc.
    destruct (decide (i = length items)) as [->|Hne].
    + rewrite lookup_app_r, Nat.sub_diag in Hi by done.
      injection Hi as ->. simpl. by rewrite decide_True.
    + assert (i < length items)%nat as Hlt.
      { apply lookup_lt_Some in Hi. rewrite length_app in Hi. simpl in Hi. lia. }
      rewrite lookup_app_l in Hi by done.
      rewrite decide_False.
      * apply (IH i Hi). intros j kv' Hj Hij. apply (Hlater j); [|done].
        by rewrite lookup_app_l by (by eapply lookup_lt_Some).
      * intros ->. apply (Hlater (length items) kv); [|lia|done].
        by rewrite lookup_app_r, Nat.sub_diag.
Qed.
End DictFacts.

(** ** [int] undoes [str] *)

Lemma digit_val_pretty (d : N) :
  (d < 10)%N → digit_val (pretty_N_char d) = Some (Z.of_N d).
Proof.
  intros Hd.
  assert (d = 0 ∨ d = 1 ∨ d = 2 ∨ d = 3 ∨ d = 4 ∨ d = 5 ∨ d = 6 ∨ d = 7
          ∨ d = 8 ∨ d = 9)%N as Hcases by lia.
  repeat (destruct Hcases as [->|Hcases]; [done|]). by subst.
Qed.

Lemma is_space_pretty (d : N) : is_space (pretty_N_char d) = false.
Proof.
  destruct (decide (d < 10)%N) as [Hd|Hd].
  - assert (d = 0 ∨ d = 1 ∨ d = 2 ∨ d = 3 ∨ d = 4 ∨ d = 5 ∨ d = 6 ∨ d = 7
            ∨ d = 8 ∨ d = 9)%N as Hcases by lia.
    repeat (destruct Hcases as [->|Hcases]; [done|]). by subst.
  - destruct d as [|p]; [lia|].
    do 4 (destruct p as [p|p|]; try done).
Qed.

Abbreviation chars := String.list_ascii_of_string.

(** Reading the numeral that [pretty_N_go] puts in front of [s]. *)
Lemma digits_pretty_N_go (x : N) :
  (0 < x)%N →
  ∃ p : Z, ∀ (s : string) (acc : Z) (prev : bool),
    digits acc prev (chars (pretty_N_go x s))
    = digits (acc * p + Z.of_N x) true (chars s).
Proof.
  induction (N.lt_wf_0 x) as [x _ IH]. intros Hx.
  pose proof (N.div_mod' x 10) as Hdm.
  pose proof (N.mod_lt x 10 ltac:(done)) as Hr.
  destruct (decide (x `div` 10 = 0)%N) as [Hq|Hq].
  - exists 10. intros s acc prev.
    rewrite pretty_N_go_step, Hq, pretty_N_go_0 by done. simpl.
    rewrite digit_val_pretty by done. f_equal. lia.
  - destruct (IH (x `div` 10)%N) as [p Hp]; [apply N.div_lt; lia | lia |].
    exists (p * 10). intros s acc prev.
    rewrite pretty_N_go_step, Hp by done. simpl.
    rewrite digit_val_pretty by done. f_equal. lia.
Qed.

Lemma no_space_pretty_N_go (x : N) (s : string) :
  Forall (λ c, is_space c = false) (chars s) →
  Forall (λ c, is_space c = false) (chars (pretty_N_go x s)).
Proof.
  revert s. induction (N.lt_wf_0 x) as [x _ IH]. intros s Hs.
  destruct (decide (0 < x)%N) as [Hx|Hx].
  - rewrite pretty_N_go_step by done. apply IH; [apply N.div_lt; lia|].
    simpl. constructor; [apply is_space_pretty | done].
  - replace x with 0%N by lia. by rewrite pretty_N_go_0.
Qed.

Lemma digits_pretty_N (x : N) :
  digits 0 false (chars (pretty x)) = Some (Z.of_N x).
Proof.
  unfold pretty, pretty_N. destruct (decide (x = 0)%N) as [->|Hx]; [done|].
  destruct (digits_pretty_N_go x) as [p Hp]; [lia|].
  rewrite Hp. simpl. f_equal; lia.
Qed.

Lemma no_space_pretty_N (x : N) :
  Forall (λ c, is_space c = false) (chars (pretty x)).
Proof.
  unfold pretty, pretty_N. destruct (decide (x = 0)%N) as [->|Hx].
  - by repeat constructor.
  - apply no_space_pretty_N_go. constructor.
Qed.

Lemma lstrip_id (l : list ascii) :
  Forall (λ c, is_space c = false) l → lstrip l = l.
Proof. intros [|c l' Hc _]; simpl; [done | by rewrite Hc]. Qed.

Lemma strip_id (l : list ascii) :
  Forall (λ c, is_space c = false) l → strip l = l.
Proof.
  intros Hl. unfold strip. rewrite (lstrip_id l Hl).
  rewrite lstrip_id by by apply Forall_reverse.
  apply reverse_involutive.
Qed.

(** A numeral without sign starts with a digit. *)
Lemma digits_head (l : list ascii) (z : Z) :
  digits 0 false l = Some z →
  ∃ c r, l = c :: r ∧ Ascii.eqb c "+" = false ∧ Ascii.eqb c "-" = false.
Proof.
  destruct l as [|c r]; simpl; [done|]. intros Hd. exists c, r.
  split; [done|].
  destruct (Ascii.eqb_spec c "+") as [->|_]; [done|].
  by destruct (Ascii.eqb_spec c "-") as [->|_].
Qed.

Theorem parse_int_str (z : Z) : parse_int (str z) = Some z.
Proof.
  unfold parse_int, str.
  destruct z as [|p|p].
  - done.
  - change (pretty (Z.pos p)) with (pretty (N.pos p)).
    rewrite strip_id by apply no_space_pretty_N.
    pose proof (digits_pretty_N (N.pos p)) as Hd.
    destruct (digits_head _ _ Hd) as (c & r & Hcr & Hplus & Hminus).
    rewrite Hcr in *. by rewrite Hplus, Hminus, Hd.
  - change (chars (pretty (Z.neg p)))
      with ("-"%char :: chars (pretty (N.pos p))).
    rewrite strip_id.
    + simpl. by rewrite digits_pretty_N.
    + constructor; [done | apply no_space_pretty_N].
Qed.

Corollary int_str (z : Z) : int (str z) = Ok z.
Proof. unfold int. by rewrite parse_int_str. Qed.

Lemma str_inj (x y : Z) : str x = str y → x = y.
Proof.
  intros Heq. apply (f_equal parse_int) in Heq.
  rewrite !parse_int_str in Heq. by injection Heq.
Qed.

(** ** The windows that [create_windows] returns *)

(** A loop whose body never raises does not raise. *)
Lemma foldM_is_ok {A B} (f : B → A → result B) (l : list A) (b : B) :
  (∀ b' a, a ∈ l → is_ok (f b' a) = true) → is_ok (foldM f l b) = true.
Proof.
  revert b. induction l as [|a l IH]; intros b Hf; simpl; [done|].
  pose proof (Hf b a ltac:(by left)) as Ha.
  destruct (f b a) as [b'|]; [|done]. simpl.
  apply IH. intros b'' a' Hin. apply Hf. by right.
Qed.

Lemma enumerate_from_elem_of {A} (n : Z) (l : list A) (ia : Z * A) :
  ia ∈ enumerate_from n l → ia.2 ∈ l.
Proof.
  revert n. induction l as [|a l IH]; intros n; simpl.
  - by intros ?%elem_of_nil.
  - intros [->|Hin]%elem_of_cons; [by left | right; by eapply IH].
Qed.

Lemma index_is_ok_nat {A} (l : list A) (i : nat) :
  (i < length l)%nat → is_ok (index l (Z.of_nat i)) = true.
Proof. intros Hi. apply index_is_ok. unfold len. lia. Qed.

(** The [spans] comprehension succeeds on mentions of two integers or more. *)
Lemma window_spans_is_ok (window_text_start window_text_end : Z)
    (document_mentions : list (list Z)) :
  Forall (λ m, (2 ≤ length m)%nat) document_mentions →
  is_ok (window_spans window_text_start window_text_end document_mentions) = true.
Proof.
  induction 1 as [|m ms Hm _ IH]; simpl; [done|].
  destruct m as [|m0 [|m1 m]]; [simpl in Hm; lia..|].
  unfold mention_in_window. simpl.
  destruct ((m0 <? window_text_end) && (window_text_start <=? m0)); simpl; [|done].
  destruct ((m1 <=? window_text_end) && (window_text_start <=? m1)); simpl; [|done].
  by destruct (window_spans _ _ ms).
Qed.

Section CreateWindowsFacts.
Context {Span Score Probs : Type}.
Variable tokenizer : list PyDoc → bool → list (list Token).
Variable split : Splitter → list Token → option Z → list (list Token).

Abbreviation Sample := (RelikReaderSample Span Score Probs).
Lemma window_loop_inv (mg : bool) (doc_id : Z) (document : PyDoc) (topic : Topic)
    (ments : list (list Z)) (groups : list (list Token)) (n : Z)
    (dw bl dw' bl' : list Sample) :
  foldM (window_step mg doc_id document topic ments)
        (enumerate_from n groups) (dw, bl) = Ok (dw', bl') →
  ∃ new : list Sample,
    Forall2 (λ s iw, window_sample doc_id document topic ments iw.1 iw.2 = Ok s)
            new (enumerate_from n groups)
    ∧ dw' = dw ++ filter (λ s, is_blank mg s = false) new
    ∧ bl' = bl ++ filter (λ s, is_blank mg s = true) new.
Proof.
  revert n dw bl. induction groups as [|g groups IH]; intros n dw bl; simpl.
  - intros [= <- <-]. exists []. by rewrite !app_nil_r.
  - intros Hfold. apply bind_Ok in Hfold as ([dw1 bl1] & Hstep & Hfold).
    unfold window_step in Hstep. simpl in Hstep.
    apply bind_Ok in Hstep as (s & Hs & Hroute).
    destruct (IH _ _ _ Hfold) as (new & Hnew & -> & ->).
    exists (s :: new). split; [by constructor|].
    rewrite !filter_cons. fold (is_blank mg s) in Hroute.
    destruct (is_blank mg s); injection Hroute as <- <-.
    + rewrite decide_False, decide_True by done. by rewrite <- app_assoc.
    + rewrite decide_True, decide_False by done. by rewrite <- app_assoc.
Qed.

Lemma call_topic_Some (topic : Topic) (items : list DocItem) :
  call_topic (Some topic) items = topic.
Proof. done. Qed.

Lemma document_loop_inv (self : Splitter) (max_length : option Z) (mg : bool)
    (docs : list (PyDoc * list Token * list (list Z))) (n : Z)
    (topic0 topic' : option Topic) (wd bl wd' bl' : list Sample) :
  foldM (document_step split self max_length mg)
        (enumerate_from n docs) (topic0, wd, bl) = Ok (topic', wd', bl') →
  ∃ new : list Sample,
    Forall2 (built (call_topic topic0 (enumerate_from n docs)))
            new (raw_windows split self max_length (enumerate_from n docs))
    ∧ wd' = wd ++ filter (λ s, is_blank mg s = false) new
    ∧ bl' = bl ++ filter (λ s, is_blank mg s = true) new.
Proof.
  revert n topic0 wd bl.
  induction docs as [|[[document toks] ments] docs IH]; intros n topic0 wd bl; simpl.
  - intros [= <- <- <-]. exists []. by rewrite !app_nil_r.
  - intros Hfold. apply bind_Ok in Hfold as ([[topic1 wd1] bl1] & Hstep & Hfold).
    unfold document_step in Hstep.
    apply bind_Ok in Hstep as ([dw blk] & Hinner & Hstep).
    injection Hstep as <- <- <-.
    apply window_loop_inv in Hinner as (new1 & Hnew1 & -> & ->).
    destruct (IH _ _ _ _ Hfold) as (new2 & Hnew2 & -> & ->).
    rewrite call_topic_Some in Hnew2.
    exists (new1 ++ new2). split; [|split].
    + apply Forall2_app; [|].
      * apply Forall2_fmap_r. eapply Forall2_impl; [apply Hnew1|].
        intros s iw Hs. unfold built. simpl.
        by destruct topic0 as [t|]; [|destruct toks].
      * by destruct topic0 as [t|]; [|destruct toks].
    + by rewrite filter_app, app_nil_l, app_assoc.
    + by rewrite filter_app, app_assoc.
Qed.

(** What a successful call returns: one sample per raw window, all with the
    topic of the call, the blank ones in the second list and the others in
    the first, both in the order of construction. *)
Lemma create_windows_inv (self self' : Splitter) (documents : PyDoc)
    (window_size stride max_length : option Z) (doc_topic : option string)
    (is_split_into_words : bool) (mentions : option (list (list (list Z))))
    (windowed blank : list Sample) :
  create_windows tokenizer split self documents window_size stride max_length
                 doc_topic is_split_into_words mentions
  = (Ok (windowed, blank), self') →
  let docs := normalize documents is_split_into_words in
  let items := doc_iter docs (tokenizer docs is_split_into_words) mentions in
  let mg := bool_decide (is_Some mentions) in
  self' = set_splitter_params self window_size stride
  ∧ ∃ all : list Sample,
      Forall2 (built (call_topic (TopicStr <$> doc_topic) items))
              all (raw_windows split self' max_length items)
      ∧ windowed = filter (λ s, is_blank mg s = false) all
      ∧ blank = filter (λ s, is_blank mg s = true) all.
Proof.
  unfold create_windows. intros [= Hrun <-]. split; [done|].
  apply bind_Ok in Hrun as (iter & Hiter & Hrun).
  apply bind_Ok in Hrun as ([[topic' wd] bl] & Hfold & Hrun).
  injection Hrun as <- <-.
  assert (enumerate iter
          = doc_iter (normalize documents is_split_into_words)
              (tokenizer (normalize documents is_split_into_words)
                         is_split_into_words) mentions) as Hitems.
  { unfold doc_iter. destruct mentions as [ms|].
    - apply bind_Ok in Hiter as (_ & _ & Hiter). by injection Hiter as <-.
    - by injection Hiter as <-. }
  rewrite <- Hitems. unfold enumerate in *.
  apply document_loop_inv in Hfold as (all & Hall & -> & ->).
  by exists all.
Qed.

(** When [create_windows] succeeds: the mention list, if any, has one entry
    per document, no raw window is empty, and every mention holds two
    integers or more. *)
Lemma create_windows_is_ok (self : Splitter) (documents : PyDoc)
    (window_size stride max_length : option Z) (doc_topic : option string)
    (is_split_into_words : bool) (mentions : option (list (list (list Z)))) :
  let docs := normalize documents is_split_into_words in
  let self' := set_splitter_params self window_size stride in
  (∀ ms, mentions = Some ms → len docs = len ms) →
  Forall (λ item : DocItem,
            Forall (λ g, g ≠ []) (split self' item.2.1.2 max_length)
            ∧ Forall (λ m, (2 ≤ length m)%nat) item.2.2)
         (call_items tokenizer documents is_split_into_words mentions) →
  is_ok (create_windows (Span := Span) (Score := Score) (Probs := Probs)
           tokenizer split self documents window_size stride max_length
           doc_topic is_split_into_words mentions).1 = true.
Proof.
  intros docs self' Hlen Hitems. unfold create_windows. simpl.
  fold docs self'.
  set (iter := match mentions with
               | Some ms => zip (zip docs (tokenizer docs is_split_into_words)) ms
               | None => (λ dt, (dt, [])) <$> zip docs (tokenizer docs is_split_into_words)
               end).
  assert (call_items tokenizer documents is_split_into_words mentions
          = enumerate iter) as Hcall by done.
  rewrite Hcall in Hitems.
  assert (is_ok (foldM (document_step (Span := Span) (Score := Score)
                          (Probs := Probs) split self' max_length
                          (bool_decide (is_Some mentions)))
                       (enumerate iter) (TopicStr <$> doc_topic, [], [])) = true)
    as Hloop.
  { apply foldM_is_ok. intros [[topic wd] bl] [doc_id [[document toks] ments]] Hin.
    rewrite Forall_forall in Hitems. destruct (Hitems _ Hin) as [Hgroups Hments].
    simpl in Hgroups, Hments. unfold document_step.
    match goal with
    | |- is_ok (foldM ?f ?l ?b ≫= _) = true =>
        assert (is_ok (foldM f l b) = true) as Hinner
    end.
    { apply foldM_is_ok. intros [dw blk] [wid g] Hg.
      apply enumerate_from_elem_of in Hg. simpl in Hg.
      rewrite Forall_forall in Hgroups. specialize (Hgroups g Hg).
      unfold window_step, window_sample. simpl.
      destruct g as [|w_first g']; [done|]. rewrite index_first. simpl.
      rewrite index_last.
      destruct (last (w_first :: g')) as [w_last|] eqn:Hlast;
        [|by apply last_None in Hlast].
      simpl.
      pose proof (window_spans_is_ok (tok_idx w_first)
                    (tok_idx w_last + str_len (tok_text w_last)) ments Hments)
        as Hsp.
      destruct (window_spans _ _ ments) as [sp|]; [|done]. simpl.
      match goal with |- is_ok (if ?c then _ else _) = true => by destruct c end. }
    destruct (foldM _ _ _) as [[dw blk]|]; [done | done]. }
  destruct mentions as [ms|]; simpl.
  - rewrite bool_decide_eq_true_2 by (by apply Hlen). simpl.
    fold iter. destruct (foldM _ _ _) as [[[t wd] bl]|]; [done | done].
  - fold iter. destruct (foldM _ _ _) as [[[t wd] bl]|]; [done | done].
Qed.

End CreateWindowsFacts.

(** ** Orders and sorted sets *)

Global Instance Z_ord_laws : PyOrdLaws Z.
Proof.
  split; unfold py_cmp, Z_ord.
  - apply Z.compare_eq_iff.
  - intros x y. apply Z.compare_antisym.
  - intros x y z. rewrite !Z.compare_lt_iff. lia.
Qed.

Lemma ascii_compare_Lt (a b : ascii) :
  Ascii.compare a b = Lt ↔ (N_of_ascii a < N_of_ascii b)%N.
Proof. unfold Ascii.compare. apply N.compare_lt_iff. Qed.

Lemma ascii_compare_Eq (a b : ascii) : Ascii.compare a b = Eq ↔ a = b.
Proof.
  split; [apply Ascii.compare_eq_iff|]. intros ->.
  unfold Ascii.compare. apply N.compare_refl.
Qed.

Lemma string_compare_refl (s : string) : String.compare s s = Eq.
Proof.
  induction s as [|a s IH]; simpl; [done|].
  by rewrite (proj2 (ascii_compare_Eq a a) eq_refl).
Qed.

Lemma string_compare_trans (x y z : string) :
  String.compare x y = Lt → String.compare y z = Lt → String.compare x z = Lt.
Proof.
  revert y z. induction x as [|a x IH]; intros [|b y] [|c z]; simpl; try done.
  destruct (Ascii.compare a b) eqn:Hab; [|clear IH|done];
    destruct (Ascii.compare b c) eqn:Hbc; try done.
  - apply ascii_compare_Eq in Hab as ->. apply ascii_compare_Eq in Hbc as ->.
    rewrite (proj2 (ascii_compare_Eq c c) eq_refl). apply IH.
  - apply ascii_compare_Eq in Hab as ->. by rewrite Hbc.
  - apply ascii_compare_Eq in Hbc as ->. by rewrite Hab.
  - pose proof (proj1 (ascii_compare_Lt a b) Hab) as Hab'.
    pose proof (proj1 (ascii_compare_Lt b c) Hbc) as Hbc'.
    assert (Ascii.compare a c = Lt) as Hac.
    { apply ascii_compare_Lt. lia. }
    by rewrite Hac.
Qed.

Global Instance string_ord_laws : PyOrdLaws string.
Proof.
  split; unfold py_cmp, string_ord.
  - intros x y. split; [apply String.compare_eq_iff|].
    intros ->. apply string_compare_refl.
  - intros x y. apply String.compare_antisym.
  - apply string_compare_trans.
Qed.

Lemma prod_cmp_pair {A B} `{PyOrd A, PyOrd B} (a1 a2 : A) (b1 b2 : B) :
  py_cmp (a1, b1) (a2, b2)
  = match py_cmp a1 a2 with
    | Eq => py_cmp b1 b2
    | c => c
    end.
Proof. done. Qed.

Lemma py_cmp_refl {A} `{PyOrdLaws A} (x : A) : py_cmp x x = Eq.
Proof. by apply py_cmp_eq. Qed.

Global Instance prod_ord_laws {A B} `{PyOrdLaws A, PyOrdLaws B} :
  PyOrdLaws (A * B).
Proof.
  split.
  - intros [a1 b1] [a2 b2]. rewrite prod_cmp_pair.
    destruct (py_cmp a1 a2) eqn:Ha.
    + apply py_cmp_eq in Ha as ->. rewrite py_cmp_eq. split; congruence.
    + split; [done|]. intros [= -> _]. by rewrite py_cmp_refl in Ha.
    + split; [done|]. intros [= -> _]. by rewrite py_cmp_refl in Ha.
  - intros [a1 b1] [a2 b2]. rewrite !prod_cmp_pair.
    rewrite (py_cmp_antisym a1 a2).
    destruct (py_cmp a1 a2); simpl; [apply py_cmp_antisym | done | done].
  - intros [a1 b1] [a2 b2] [a3 b3]. rewrite !prod_cmp_pair.
    destruct (py_cmp a1 a2) eqn:H12; [| |done].
    + apply py_cmp_eq in H12 as ->.
      destruct (py_cmp a2 a3); [apply py_cmp_trans | done | done].
    + intros _. destruct (py_cmp a2 a3) eqn:H23; [| |done].
      * apply py_cmp_eq in H23 as <-. by rewrite H12.
      * by rewrite (py_cmp_trans _ _ _ H12 H23).
Qed.

Section SortedFacts.
Context {A : Type} `{PyOrdLaws A}.
Implicit Types (x y : A) (l : list A).

Lemma py_lt_irrefl x : ¬ py_lt x x.
Proof. unfold py_lt. by rewrite py_cmp_refl. Qed.

Lemma py_lt_trans x y z : py_lt x y → py_lt y z → py_lt x z.
Proof. apply py_cmp_trans. Qed.

Lemma py_cmp_Gt x y : py_cmp x y = Gt → py_lt y x.
Proof. intros Hgt. unfold py_lt. by rewrite py_cmp_antisym, Hgt. Qed.

Lemma elem_of_set_insert x y l : x ∈ set_insert y l ↔ x = y ∨ x ∈ l.
Proof.
  induction l as [|z l IH]; simpl.
  - rewrite list_elem_of_singleton, elem_of_nil. tauto.
  - destruct (py_cmp y z) eqn:Hcmp.
    + apply py_cmp_eq in Hcmp as ->. rewrite elem_of_cons. tauto.
    + apply elem_of_cons.
    + rewrite !elem_of_cons, IH. tauto.
Qed.

Lemma set_insert_sorted y l :
  StronglySorted py_lt l → StronglySorted py_lt (set_insert y l).
Proof.
  induction 1 as [|z l Hsorted IH Hz]; simpl.
  - by repeat constructor.
  - destruct (py_cmp y z) eqn:Hcmp.
    + by constructor.
    + constructor; [by constructor|]. constructor; [done|].
      eapply Forall_impl; [apply Hz|]. intros w Hw. by eapply py_lt_trans.
    + constructor; [done|]. apply Forall_forall. intros w Hw.
      apply elem_of_set_insert in Hw as [->|Hw].
      * by apply py_cmp_Gt.
      * by eapply Forall_forall in Hz.
Qed.

Lemma sorted_set_sorted l : StronglySorted py_lt (sorted_set l).
Proof.
  induction l as [|x l IH]; simpl; [constructor | by apply set_insert_sorted].
Qed.

Lemma elem_of_sorted_set x l : x ∈ sorted_set l ↔ x ∈ l.
Proof.
  induction l as [|y l IH]; simpl; [done|].
  rewrite elem_of_set_insert, elem_of_cons, IH. tauto.
Qed.

Lemma elem_of_sorted_union x l1 l2 :
  x ∈ sorted_union l1 l2 ↔ x ∈ l1 ∨ x ∈ l2.
Proof. unfold sorted_union. by rewrite elem_of_sorted_set, elem_of_app. Qed.

Lemma sorted_NoDup l : StronglySorted py_lt l → NoDup l.
Proof.
  induction 1 as [|x l _ IH Hx]; constructor; [|done].
  intros Hin. eapply Forall_forall in Hx; [|done]. by apply py_lt_irrefl in Hx.
Qed.

(** A set has one strictly increasing listing: [sorted] over it is
    determined by its elements. *)
Lemma sorted_unique l1 l2 :
  StronglySorted py_lt l1 → StronglySorted py_lt l2 →
  (∀ x, x ∈ l1 ↔ x ∈ l2) → l1 = l2.
Proof.
  intros Hs1. revert l2.
  induction Hs1 as [|x l1 Hs1 IH Hx]; intros l2 Hs2 Hsame.
  - destruct l2 as [|y l2]; [done|].
    exfalso. eapply elem_of_nil, Hsame. by left.
  - destruct Hs2 as [|y l2 Hs2 Hy].
    { exfalso. eapply elem_of_nil, Hsame. by left. }
    rewrite Forall_forall in Hx, Hy.
    assert (x = y) as ->.
    { assert (x ∈ y :: l2) as [->|Hxin]%elem_of_cons by (apply Hsame; by left);
        [done|].
      assert (y ∈ x :: l1) as [->|Hyin]%elem_of_cons by (apply Hsame; by left);
        [done|].
      exfalso. apply (py_lt_irrefl x).
      eapply py_lt_trans; [by apply Hx | by apply Hy]. }
    f_equal. apply IH; [done|]. intros z. split; intros Hz.
    + assert (z ∈ y :: l2) as [->|?]%elem_of_cons
        by (apply Hsame; by right); [|done].
      exfalso. by apply (py_lt_irrefl y), Hx.
    + assert (z ∈ y :: l1) as [->|?]%elem_of_cons
        by (apply Hsame; by right); [|done].
      exfalso. by apply (py_lt_irrefl y), Hy.
Qed.
End SortedFacts.

Section IndexFacts.
Context {A : Type} `{EqDecision A}.

Lemma find_index_Some (x : A) (l : list A) (i : nat) :
  find_index x l = Some i → l !! i = Some x.
Proof.
  revert i. induction l as [|y l IH]; intros i; simpl; [done|].
  destruct (decide (x = y)) as [->|Hne].
  - by intros [= <-].
  - destruct (find_index x l) as [j|]; simpl; [|done].
    intros [= <-]. by apply IH.
Qed.

Lemma find_index_elem_of (x : A) (l : list A) :
  x ∈ l → is_Some (find_index x l).
Proof.
  induction 1 as [y l|y z l Hin IH]; simpl.
  - by rewrite decide_True.
  - destruct (decide (y = z)); [done|]. destruct IH as [i ->]. done.
Qed.

Lemma list_index_Ok (l : list A) (x : A) (i : Z) :
  list_index l x = Ok i → 0 ≤ i ∧ l !! Z.to_nat i = Some x.
Proof.
  unfold list_index. destruct (find_index x l) as [j|] eqn:Hj; simpl; [|done].
  intros [= <-]. rewrite Nat2Z.id. split; [lia | by apply find_index_Some].
Qed.

Lemma list_index_is_ok (l : list A) (x : A) :
  x ∈ l → is_ok (list_index l x) = true.
Proof.
  intros Hin. unfold list_index.
  by destruct (find_index_elem_of x l Hin) as [i ->].
Qed.
End IndexFacts.

(** ** The sample of one raw window *)

Lemma enumerate_from_lookup {A} (n : Z) (l : list A) (k : nat) :
  enumerate_from n l !! k = (λ x, (n + Z.of_nat k, x)) <$> l !! k.
Proof.
  revert n k. induction l as [|a l IH]; intros n [|k]; simpl; [done..| |].
  - by rewrite Z.add_0_r.
  - rewrite IH. destruct (l !! k); simpl; [|done]. do 2 f_equal. lia.
Qed.

(** A dict comprehension over [enumerate(l)]: the key computed at position
    [k] holds the value computed there, unless a later position computes
    the same key. *)
Lemma comprehension_get {A V} (kf : Z * A → string) (vf : Z * A → V)
    (l : list A) (k : nat) (x : A) :
  l !! k = Some x →
  (∀ (j : nat) y, l !! j = Some y → (k < j)%nat →
                  kf (Z.of_nat j, y) ≠ kf (Z.of_nat k, x)) →
  dict_get (kf (Z.of_nat k, x))
           (dict_update [] ((λ iw, (kf iw, vf iw)) <$> enumerate l))
  = Some (vf (Z.of_nat k, x)).
Proof.
  intros Hk Hlater. rewrite dict_get_update.
  rewrite (last_value_at _ _ k (vf (Z.of_nat k, x))); [done| |].
  - unfold enumerate. by rewrite list_lookup_fmap, enumerate_from_lookup, Hk.
  - intros j kv Hj Hkj. unfold enumerate in Hj.
    rewrite list_lookup_fmap, enumerate_from_lookup in Hj.
    destruct (l !! j) as [y|] eqn:Hy; simpl in Hj; [|done].
    injection Hj as <-. simpl. by apply (Hlater j y).
Qed.

Section WindowSample.
Context {Span Score Probs : Type}.
Abbreviation Sample := (RelikReaderSample Span Score Probs).

(** The fields of a successfully built sample. *)
Lemma window_sample_Ok (doc : Z) (document : PyDoc) (topic : Topic)
    (ments : list (list Z)) (wid : Z) (g : list Token) (s : Sample) :
  window_sample doc document topic ments wid g = Ok s →
  ∃ (w_first w_last : Token) (sp : list (Z * Z)),
    head g = Some w_first ∧ last g = Some w_last
    ∧ window_spans (tok_idx w_first) (tok_end w_last) ments = Ok sp
    ∧ s = {| doc_id := Some doc;
             window_id := Some wid;
             text := Some match document with
                          | DStr d => str_slice d (tok_idx w_first) (tok_end w_last)
                          | DList _ => join " " (tok_text <$> g)
                          end;
             tokens := Some (tok_text <$> g);
             words := Some (tok_text <$> g);
             doc_topic := Some topic;
             offset := Some (tok_idx w_first);
             spans := Some sp;
             token2char_start :=
               Some (dict_update [] ((λ iw, (str iw.1, tok_idx iw.2)) <$> enumerate g));
             token2char_end :=
               Some (dict_update [] ((λ iw, (str iw.1, tok_end iw.2)) <$> enumerate g));
             char2token_start :=
               Some (dict_update [] ((λ iw, (str (tok_idx iw.2), tok_i iw.2)) <$> enumerate g));
             char2token_end :=
               Some (dict_update [] ((λ iw, (str (tok_end iw.2), tok_i iw.2)) <$> enumerate g));
             token2word_start := None; token2word_end := None;
             window_labels := None; candidates := None;
             windows_candidates := None; span_candidates := None;
             triplet_candidates := None; predicted_spans := None;
             probs_window_labels_chars := None; predicted_spans_probs := None;
             predicted_triples := None; predicted_triples_probs := None |}.
Proof.
  unfold window_sample. intros Hs.
  apply bind_Ok in Hs as (w_first & Hfirst & Hs).
  apply bind_Ok in Hs as (w_last & Hlast & Hs).
  apply bind_Ok in Hs as (sp & Hsp & Hs). injection Hs as <-.
  exists w_first, w_last, sp. rewrite index_last in Hlast.
  apply require_Ok in Hlast. repeat split; [|done..].
  destruct g; [done|]. by injection Hfirst as ->.
Qed.
End WindowSample.

(** ** C10, C5, C4, C2: the samples of [create_windows] *)

Lemma filter_ext_Forall {A} (P Q : A → Prop) `{∀ x, Decision (P x)}
    `{∀ x, Decision (Q x)} (l : list A) :
  Forall (λ x, P x ↔ Q x) l → filter P l = filter Q l.
Proof.
  induction 1 as [|x l Hx _ IH]; [done|].
  rewrite !filter_cons, IH.
  destruct (decide (P x)), (decide (Q x)); tauto.
Qed.


(** The attribute [doc_topic] of a sample, where the argument of the same
    name is in scope. *)
Abbreviation sample_doc_topic := doc_topic.

Section CreateWindowsClaims.
Context {Span Score Probs : Type}.
Variable tokenizer : list PyDoc → bool → list (list Token).
Variable split : Splitter → list Token → option Z → list (list Token).

Abbreviation Sample := (RelikReaderSample Span Score Probs).

Variables (self self' : Splitter) (documents : PyDoc).
Variables (window_size stride max_length : option Z) (doc_topic : option string).
Variables (is_split_into_words : bool) (mentions : option (list (list (list Z)))).
Variables (windowed blank : list Sample).

(** The items and the raw windows of the call under study. *)
Abbreviation items_of_call :=
  (call_items tokenizer documents is_split_into_words mentions).
Abbreviation raws_of_call :=
  (call_raws tokenizer split self documents window_size stride max_length
             is_split_into_words mentions).

Lemma returned_built (s : Sample) :
  create_windows tokenizer split self documents window_size stride max_length
                 doc_topic is_split_into_words mentions
  = (Ok (windowed, blank), self') →
  s ∈ windowed ++ blank →
  ∃ raw : Raw,
    raw ∈ raws_of_call ∧ built (call_topic (TopicStr <$> doc_topic) items_of_call) s raw.
Proof.
  intros Hcall Hs.
  apply create_windows_inv in Hcall as (-> & all & Hall & -> & ->).
  assert (s ∈ all) as Hin.
  { apply elem_of_app in Hs as [Hs|Hs]; by apply list_elem_of_filter in Hs as [_ ?]. }
  apply list_elem_of_lookup in Hin as [i Hi].
  destruct (Forall2_lookup_l _ _ _ _ _ Hall Hi) as (raw & Hraw & Hbuilt).
  exists raw. split; [|done]. by eapply list_elem_of_lookup_2.
Qed.

(** C10. Every window that [create_windows] returns, in either list, has
    [tokens] and [words] both equal to the texts of the tokens of its raw
    window, a non-empty group of the splitter: nothing is added in front
    or behind. *)
Theorem windows_tokens_are_words (s : Sample) :
  create_windows tokenizer split self documents window_size stride max_length
                 doc_topic is_split_into_words mentions
  = (Ok (windowed, blank), self') →
  s ∈ windowed ++ blank →
  ∃ raw : Raw,
    raw ∈ raws_of_call ∧ raw.2 ≠ []
    ∧ tokens s = Some (tok_text <$> raw.2)
    ∧ words s = Some (tok_text <$> raw.2)
    ∧ tokens s = words s.
Proof.
  intros Hcall Hs. destruct (returned_built s Hcall Hs) as (raw & Hraw & Hbuilt).
  exists raw. split; [done|].
  apply window_sample_Ok in Hbuilt as (w_first & w_last & sp & Hf & _ & _ & ->).
  simpl. repeat split. by destruct (raw.2).
Qed.

(** C5. The constructed windows are split between the two outputs: with
    mentions supplied, the blank output holds exactly the windows whose
    [spans] is empty and the primary output the others; without mentions,
    the primary output holds every window and the blank output is empty. *)
Theorem mention_routing :
  create_windows tokenizer split self documents window_size stride max_length
                 doc_topic is_split_into_words mentions
  = (Ok (windowed, blank), self') →
  ∃ all : list Sample,
    Forall2 (built (call_topic (TopicStr <$> doc_topic) items_of_call)) all raws_of_call
    ∧ (is_Some mentions →
       windowed = filter (λ s, spans s ≠ Some []) all
       ∧ blank = filter (λ s, spans s = Some []) all)
    ∧ (mentions = None → windowed = all ∧ blank = []).
Proof.
  intros Hcall.
  apply create_windows_inv in Hcall as (-> & all & Hall & -> & ->).
  exists all. split; [done|].
  assert (Forall (λ s : Sample, no_spans s = true ↔ spans s = Some []) all) as Hsp.
  { eapply Forall2_Forall_l; [apply Hall|]. apply Forall_forall.
    intros raw _ s Hbuilt.
    apply window_sample_Ok in Hbuilt as (? & ? & sp & _ & _ & _ & ->).
    unfold no_spans, len. simpl. destruct sp; simpl; split; (done || lia). }
  split.
  - intros Hsome. rewrite bool_decide_eq_true_2 by done. split.
    + apply filter_ext_Forall. eapply Forall_impl; [apply Hsp|].
      intros s <-. unfold is_blank. simpl. by destruct (no_spans s).
    + apply filter_ext_Forall. eapply Forall_impl; [apply Hsp|].
      intros s <-. unfold is_blank. by simpl.
  - intros ->. rewrite bool_decide_eq_false_2 by (by intros [? ?]). split.
    + clear. induction all as [|s all IH]; [done|].
      rewrite filter_cons_True by done. by f_equal.
    + clear. induction all as [|s all IH]; [done|].
      by rewrite filter_cons_False by done.
Qed.


(** C2 (amended). In a returned window, [token2char_start] and
    [token2char_end] send the position [k] of a token in the window to its
    start and end offsets; [char2token_start] and [char2token_end] send these
    offsets to the token's index [i] in the document, not to [k] (provided no
    later token of the window has the same start, respectively end, offset). *)
Theorem char_token_round_trip (s : Sample) :
  create_windows tokenizer split self documents window_size stride max_length
                 doc_topic is_split_into_words mentions
  = (Ok (windowed, blank), self') →
  s ∈ windowed ++ blank →
  ∃ (raw : Raw) (t2c_start t2c_end c2t_start c2t_end : dict string Z),
    raw ∈ raws_of_call
    ∧ tokens s = Some (tok_text <$> raw.2)
    ∧ token2char_start s = Some t2c_start ∧ token2char_end s = Some t2c_end
    ∧ char2token_start s = Some c2t_start ∧ char2token_end s = Some c2t_end
    ∧ ∀ (k : nat) (tok : Token), raw.2 !! k = Some tok →
        dict_get (str (Z.of_nat k)) t2c_start = Some (tok_idx tok)
        ∧ dict_get (str (Z.of_nat k)) t2c_end = Some (tok_end tok)
        ∧ ((∀ (j : nat) later, raw.2 !! j = Some later → (k < j)%nat →
              tok_idx later ≠ tok_idx tok) →
           dict_get (str (tok_idx tok)) c2t_start = Some (tok_i tok))
        ∧ ((∀ (j : nat) later, raw.2 !! j = Some later → (k < j)%nat →
              tok_end later ≠ tok_end tok) →
           dict_get (str (tok_end tok)) c2t_end = Some (tok_i tok)).
Proof.
  intros Hcall Hs. destruct (returned_built s Hcall Hs) as (raw & Hraw & Hbuilt).
  apply window_sample_Ok in Hbuilt as (w_first & w_last & sp & Hf & Hl & Hsp & ->).
  eexists raw, _, _, _, _. simpl. do 6 (split; [done|]).
  intros k tok Hk. split; [|split; [|split]].
  - apply (comprehension_get (λ iw, str iw.1) (λ iw, tok_idx iw.2) _ k tok Hk).
    intros j y _ Hkj Heq%str_inj. simpl in Heq. lia.
  - apply (comprehension_get (λ iw, str iw.1) (λ iw, tok_end iw.2) _ k tok Hk).
    intros j y _ Hkj Heq%str_inj. simpl in Heq. lia.
  - intros Hlater.
    apply (comprehension_get (λ iw, str (tok_idx iw.2)) (λ iw, tok_i iw.2) _ k tok Hk).
    intros j y Hj Hkj Heq%str_inj. by apply (Hlater j y).
  - intros Hlater.
    apply (comprehension_get (λ iw, str (tok_end iw.2)) (λ iw, tok_i iw.2) _ k tok Hk).
    intros j y Hj Hkj Heq%str_inj. by apply (Hlater j y).
Qed.

(** Every returned window carries the topic of the call: the caller's
    string, or else the first token of the first document (the empty string
    when that document has no token). *)
Lemma windows_share_the_topic (s : Sample) :
  create_windows tokenizer split self documents window_size stride max_length
                 doc_topic is_split_into_words mentions
  = (Ok (windowed, blank), self') →
  s ∈ windowed ++ blank →
  sample_doc_topic s = Some (call_topic (TopicStr <$> doc_topic) items_of_call).
Proof.
  intros Hcall Hs. destruct (returned_built s Hcall Hs) as (raw & Hraw & Hbuilt).
  by apply window_sample_Ok in Hbuilt as (? & ? & ? & _ & _ & _ & ->).
Qed.

End CreateWindowsClaims.

(** *** The statements on two documents, "A b" and "C d"

    The tokenizer yields two tokens per document and the splitter one window
    per token, so that a call constructs four windows. *)

(** C10 at the first window of the call without mentions. *)
Lemma windows_tokens_are_words_witness :
  ∃ (s : Ex.Sample) (raw : Raw),
    s ∈ Ex.returned (Ex.windows_of_A_b_C_d None None)
    ∧ raw.2 ≠ []
    ∧ tokens s = Some (tok_text <$> raw.2)
    ∧ words s = Some (tok_text <$> raw.2).
Proof.
  eassert (Ex.windows_of_A_b_C_d None None = (Ok (_ :: _, _), _)) as Hcall
    by (vm_compute; reflexivity).
  destruct (windows_tokens_are_words _ _ _ _ _ _ _ _ _ _ _ _ _ _ Hcall
              (list_elem_of_here _ _))
    as (raw & _ & Hne & Htokens & Hwords & _).
  eexists _, raw. split; [|done].
  vm_compute. apply list_elem_of_here.
Defined.

(** C5 with a mention in the first window only: one window in the primary
    output, three in the blank output. *)
Lemma mention_routing_witness :
  ∃ (all windowed blank : list Ex.Sample) (self' : Splitter),
    Ex.windows_of_A_b_C_d None (Some [[[0; 1]]; []])
    = (Ok (windowed, blank), self')
    ∧ length all = 4%nat ∧ length windowed = 1%nat ∧ length blank = 3%nat
    ∧ windowed = filter (λ s, spans s ≠ Some []) all
    ∧ blank = filter (λ s, spans s = Some []) all.
Proof.
  eassert (Ex.windows_of_A_b_C_d None (Some [[[0; 1]]; []])
           = (Ok (_, _), _)) as Hcall by (vm_compute; reflexivity).
  destruct (mention_routing _ _ _ _ _ _ _ _ _ _ _ _ _ Hcall)
    as (all & Hall & Hsome & _).
  destruct Hsome as [Hwindowed Hblank]; [done|].
  eexists all, _, _, _. split; [exact Hcall|].
  split; [|by repeat split].
  by apply Forall2_length in Hall.
Defined.



(** C2 as stated fails on the second window of "A b": its only token is at
    position 0 of the window, and the round trip gives 1, the index of the
    token in the document. *)
Lemma char_token_round_trip_counterexample :
  ∃ s : Ex.Sample,
    s ∈ Ex.returned (Ex.windows_of_A_b_C_d None None)
    ∧ ¬ round_trip_to_position s.
Proof.
  eexists. split.
  - vm_compute. apply list_elem_of_further, list_elem_of_here.
  - intros Hclaim.
    specialize (Hclaim 0%nat _ _ _ 2 eq_refl ltac:(simpl; lia) eq_refl eq_refl eq_refl).
    vm_compute in Hclaim. discriminate Hclaim.
Qed.

(** C2 (amended) at that window: the round trip gives the index [i]. *)
Lemma char_token_round_trip_witness :
  ∃ (s : Ex.Sample) (t2c_start c2t_start : dict string Z),
    s ∈ Ex.returned (Ex.windows_of_A_b_C_d None None)
    ∧ token2char_start s = Some t2c_start
    ∧ char2token_start s = Some c2t_start
    ∧ dict_get (str 0) t2c_start = Some 2
    ∧ dict_get (str 2) c2t_start = Some 1.
Proof.
  eassert (Ex.windows_of_A_b_C_d None None = (Ok (_ :: _ :: _, _), _)) as Hcall
    by (vm_compute; reflexivity).
  destruct (char_token_round_trip _ _ _ _ _ _ _ _ _ _ _ _ _ _ Hcall
              (list_elem_of_further _ _ _ (list_elem_of_here _ _)))
    as (raw & t2c_s & t2c_e & c2t_s & c2t_e & _ & Htok & Hs & _ & Hc & _ & Hk).
  injection Hs as <-. injection Hc as <-.
  eexists _, _, _. split; [vm_compute; apply list_elem_of_further, list_elem_of_here|].
  by vm_compute.
Defined.

(** C7 fails on the second document: the windows of "C d" carry the first
    token of "A b" as their topic, not the first token of "C d". *)
Theorem doc_topic_of_second_document :
  ∃ s : Ex.Sample,
    Ex.returned (Ex.windows_of_A_b_C_d None None) !! 2%nat = Some s
    ∧ doc_id s = Some 1
    ∧ tokens s = Some ["C"]
    ∧ doc_topic s = Some (TopicToken (mkToken "A" 0 0)).
Proof. eexists. by vm_compute. Qed.

(** ** C3: the merged index maps *)

Lemma last_value_elem_of {K V} `{EqDecision K} (k : K) (items : list (K * V)) (v : V) :
  last_value k items = Some v → (k, v) ∈ items.
Proof.
  induction items as [|kv items IH] using rev_ind; [done|].
  rewrite last_value_snoc, elem_of_app, list_elem_of_singleton.
  destruct (decide (k = kv.1)) as [->|Hne].
  - intros [= <-]. right. by destruct kv.
  - intros Hlast. left. by apply IH.
Qed.

(** A dictionary read back after being copied into an empty one. *)
Lemma dict_get_copy {K V} `{EqDecision K} (k : K) (d : dict K V) :
  dict_wf d → dict_get k (dict_update [] d) = dict_get k d.
Proof.
  intros Hwf. rewrite dict_get_update.
  induction d as [|[k0 v0] d IH] using rev_ind; [done|].
  unfold dict_wf in Hwf. rewrite fmap_app in Hwf.
  apply NoDup_app in Hwf as (Hwf & Hfresh & _).
  rewrite last_value_snoc. simpl.
  assert (∀ d', dict_get k (d' ++ [(k0, v0)])
                = match dict_get k d' with
                  | Some v => Some v
                  | None => if decide (k = k0) then Some v0 else None
                  end) as Hsnoc.
  { clear. induction d' as [|[k1 v1] d' IH]; simpl; [done|].
    by destruct (decide (k = k1)). }
  rewrite Hsnoc. destruct (decide (k = k0)) as [->|Hne].
  - destruct (dict_get k0 d) as [v|] eqn:Hget; [|done].
    exfalso. apply (Hfresh k0); [|by left]. clear -Hget.
    induction d as [|[k1 v1] d IH]; simpl in *; [done|].
    destruct (decide (k0 = k1)) as [->|Hne]; [by left | right; by apply IH].
  - specialize (IH Hwf). simpl in IH. rewrite <- IH. by destruct (last_value k d).
Qed.

Lemma rekeyed_snoc (k off : Z) (b_map : dict string Z) (tc : string * Z) :
  rekeyed k off (b_map ++ [tc])
  = rekeyed k off b_map
    ++ match parse_int tc.1 with
       | Some t => if t <? k then [] else [(str (t + off), tc.2)]
       | None => []
       end.
Proof.
  unfold rekeyed. rewrite omap_app. f_equal. simpl.
  destruct (parse_int tc.1) as [t|]; [|done]. by destruct (t <? k).
Qed.

Lemma elem_of_rekeyed (k off : Z) (b_map : dict string Z) (key : string) (c : Z) :
  (key, c) ∈ rekeyed k off b_map ↔
  ∃ t z, (t, c) ∈ b_map ∧ parse_int t = Some z ∧ k ≤ z ∧ key = str (z + off).
Proof.
  unfold rekeyed. rewrite list_elem_of_omap. split.
  - intros ([t c'] & Hin & Hsome). simpl in Hsome.
    destruct (parse_int t) as [z|] eqn:Hz; [|done].
    destruct (Z.ltb_spec z k); [done|]. injection Hsome as <- <-.
    by exists t, z.
  - intros (t & z & Hin & Hz & Hk & ->). exists (t, c). split; [done|].
    simpl. rewrite Hz. by destruct (Z.ltb_spec z k); [lia|].
Qed.

(** The loop over the second map writes these entries, in order. *)
Lemma remap_fold_Ok (k off : Z) (b_map final res : dict string Z) :
  foldM (remap_step k off) b_map final = Ok res →
  res = dict_update final (rekeyed k off b_map).
Proof.
  revert final. induction b_map as [|[t c] b_map IH]; intros final; simpl.
  - by intros [= <-].
  - intros Hfold. apply bind_Ok in Hfold as (final' & Hstep & Hfold).
    unfold remap_step, int in Hstep. simpl in Hstep.
    apply bind_Ok in Hstep as (z & Hz%require_Ok & Hstep).
    rewrite (IH _ Hfold). unfold rekeyed. simpl. rewrite Hz.
    destruct (z <? k); by injection Hstep as <-.
Qed.

Lemma last_value_rekeyed (k off : Z) (b_map : dict string Z) (i : nat)
    (t : string) (c z : Z) :
  b_map !! i = Some (t, c) → parse_int t = Some z → k ≤ z →
  (∀ (j : nat) t' c' z', b_map !! j = Some (t', c') → (i < j)%nat →
                         parse_int t' = Some z' → k ≤ z' → z' ≠ z) →
  last_value (str (z + off)) (rekeyed k off b_map) = Some c.
Proof.
  unfold dict in *.
  revert i. induction b_map as [|[t' c'] b_map IH] using rev_ind;
    intros i Hi Hz Hk Hlater; [done|].
  rewrite rekeyed_snoc. simpl.
  destruct (decide (i = length b_map)) as [->|Hne].
  - rewrite lookup_app_r, Nat.sub_diag in Hi by done. injection Hi as -> ->.
    rewrite Hz. destruct (Z.ltb_spec z k); [lia|].
    rewrite last_value_snoc. simpl. by rewrite decide_True.
  - assert (i < length b_map)%nat as Hlt.
    { apply lookup_lt_Some in Hi. rewrite length_app in Hi. simpl in Hi. lia. }
    rewrite lookup_app_l in Hi by done.
    assert (last_value (str (z + off)) (rekeyed k off b_map) = Some c) as Hrec.
    { apply (IH i Hi Hz Hk). intros j t2 c2 z2 Hj Hij.
      apply (Hlater j t2 c2 z2); [|done].
      by rewrite lookup_app_l by (by eapply lookup_lt_Some). }
    destruct (parse_int t') as [z'|] eqn:Hz'; [|by rewrite app_nil_r].
    destruct (Z.ltb_spec z' k); [by rewrite app_nil_r|].
    rewrite last_value_snoc. simpl. rewrite decide_False; [done|].
    intros Heq%str_inj.
    apply (Hlater (length b_map) t' c' z'); [|lia|done|done|lia].
    by rewrite lookup_app_r, Nat.sub_diag.
Qed.

Lemma remapped_intro (k off : Z) (a_map b_map : dict string Z) :
  remapped k off a_map b_map
           (dict_update (dict_update [] a_map) (rekeyed k off b_map)).
Proof.
  split.
  - intros i t c z Hi Hz Hk Hlater. rewrite dict_get_update.
    by rewrite (last_value_rekeyed k off b_map i t c z).
  - intros key v. rewrite dict_get_update.
    destruct (last_value key (rekeyed k off b_map)) as [c|] eqn:Hlast.
    + intros [= ->]. left. by apply elem_of_rekeyed, last_value_elem_of.
    + rewrite dict_get_update. simpl.
      destruct (last_value key a_map) as [c|] eqn:Ha; [|done].
      intros [= ->]. right. by apply last_value_elem_of.
  - intros key Hwf Hfree. rewrite dict_get_update.
    assert (last_value key (rekeyed k off b_map) = None) as ->.
    { apply last_value_None. intros [key' c] Hin <-.
      apply elem_of_rekeyed in Hin as (t & z & Hin & Hz & Hk & Hkey).
      by apply (Hfree t c z). }
    by apply dict_get_copy.
Qed.

Section MergedMaps.
Context {Span Score Probs : Type}.
Abbreviation Sample := (RelikReaderSample Span Score Probs).

(** C3 (amended). In a pairwise merge, with [k] the overlap of the content
    tokens (respectively of the words) and [off = len(a_content) - k], each
    merged map is [a]'s map overwritten by the entries of [b]'s map of index
    [t >= k], re-keyed to [t + off]: entries of [b] below [k] are dropped,
    entries of [a] are copied unchanged where no entry of [b] lands, and
    where one lands it is the entry of [b] that the merged map holds. *)
Theorem merged_maps_are_remapped (window1 window2 : Sample)
    (final_tokens final_words : list string)
    (m_token2char_start m_token2char_end : dict string Z)
    (m_token2word_start m_token2word_end : dict string Z) :
  _merge_tokens window1 window2
  = Ok (final_tokens, m_token2char_start, m_token2char_end) →
  _merge_words window1 window2
  = Ok (final_words, m_token2word_start, m_token2word_end) →
  (∃ (tokens1 tokens2 : list string) (a_start b_start a_end b_end : dict string Z),
     tokens window1 = Some tokens1 ∧ tokens window2 = Some tokens2
     ∧ token2char_start window1 = Some a_start
     ∧ token2char_start window2 = Some b_start
     ∧ token2char_end window1 = Some a_end
     ∧ token2char_end window2 = Some b_end
     ∧ let a := slice tokens1 (Some 1) (Some (-1)) in
       let b := slice tokens2 (Some 1) (Some (-1)) in
       let k := find_intersection a b in
       remapped k (len a - k) a_start b_start m_token2char_start
       ∧ remapped k (len a - k) a_end b_end m_token2char_end)
  ∧ (∃ words1 words2 : list string,
       words window1 = Some words1 ∧ words window2 = Some words2
       ∧ let k := find_intersection words1 words2 in
         remapped k (len words1 - k)
                  (default [] (token2word_start window1))
                  (default [] (token2word_start window2)) m_token2word_start
         ∧ remapped k (len words1 - k)
                    (default [] (token2word_end window1))
                    (default [] (token2word_end window2)) m_token2word_end).
Proof.
  intros Htokens Hwords. split.
  - unfold _merge_tokens in Htokens.
    apply bind_Ok in Htokens as (tokens1 & Ht1%require_Ok & Htokens).
    apply bind_Ok in Htokens as (tokens2 & Ht2%require_Ok & Htokens).
    apply bind_Ok in Htokens as (cls & _ & Htokens).
    apply bind_Ok in Htokens as (sep & _ & Htokens).
    apply bind_Ok in Htokens as (m_start & Hstart & Htokens).
    apply bind_Ok in Htokens as (m_end & Hend & Htokens).
    injection Htokens as _ <- <-.
    unfold merge_char_mapping in Hstart, Hend.
    apply bind_Ok in Hstart as (a_start & Has%require_Ok & Hstart).
    apply bind_Ok in Hstart as (b_start & Hbs%require_Ok & Hstart).
    apply bind_Ok in Hend as (a_end & Hae%require_Ok & Hend).
    apply bind_Ok in Hend as (b_end & Hbe%require_Ok & Hend).
    apply remap_fold_Ok in Hstart as ->. apply remap_fold_Ok in Hend as ->.
    exists tokens1, tokens2, a_start, b_start, a_end, b_end.
    do 6 (split; [done|]). split; apply remapped_intro.
  - unfold _merge_words in Hwords.
    apply bind_Ok in Hwords as (words1 & Hw1%require_Ok & Hwords).
    apply bind_Ok in Hwords as (words2 & Hw2%require_Ok & Hwords).
    apply bind_Ok in Hwords as (m_start & Hstart & Hwords).
    apply bind_Ok in Hwords as (m_end & Hend & Hwords).
    injection Hwords as _ <- <-.
    unfold merge_word_mapping in Hstart, Hend.
    apply remap_fold_Ok in Hstart as ->. apply remap_fold_Ok in Hend as ->.
    exists words1, words2. do 2 (split; [done|]). split; apply remapped_intro.
Qed.
End MergedMaps.

(** C3 (amended) at the two windows of "the cat sat down": the overlap is 2
    and the entries of the second window move up by 1. *)
Lemma merged_maps_are_remapped_witness :
  ∃ (final : list string) (m_start m_end a_start b_start : dict string Z),
    _merge_tokens Ex.the_cat_sat Ex.cat_sat_down = Ok (final, m_start, m_end)
    ∧ token2char_start Ex.the_cat_sat = Some a_start
    ∧ token2char_start Ex.cat_sat_down = Some b_start
    ∧ remapped 2 1 a_start b_start m_start.
Proof.
  eassert (_merge_tokens Ex.the_cat_sat Ex.cat_sat_down = Ok (_, _, _)) as Htokens
    by (vm_compute; reflexivity).
  eassert (_merge_words Ex.the_cat_sat Ex.cat_sat_down = Ok (_, _, _)) as Hwords
    by (vm_compute; reflexivity).
  destruct (merged_maps_are_remapped _ _ _ _ _ _ _ _ Htokens Hwords)
    as [(tokens1 & tokens2 & a_start & b_start & a_end & b_end
         & [= <-] & [= <-] & [= <-] & [= <-] & _ & _ & Hstart & _) _].
  eexists _, _, _, _, _. split; [exact Htokens|]. do 2 (split; [reflexivity|]).
  exact Hstart.
Defined.

(** C3 as stated fails on these two windows: the first maps token 4 to
    character 11, the second window's token 3, re-keyed to 4, overwrites it
    with 12. *)
Lemma merged_maps_counterexample :
  ∃ (final : list string) (m_start m_end a_start : dict string Z),
    _merge_tokens Ex.the_cat_sat Ex.cat_sat_down = Ok (final, m_start, m_end)
    ∧ token2char_start Ex.the_cat_sat = Some a_start
    ∧ ¬ first_window_wins a_start m_start.
Proof.
  eexists _, _, _, _. split; [vm_compute; reflexivity|].
  split; [reflexivity|]. intros Hwins.
  specialize (Hwins "4" 11 eq_refl). vm_compute in Hwins. discriminate Hwins.
Qed.

(** ** C6: merged predictions *)

Lemma dict_get_app {K V} `{EqDecision K} (k : K) (d1 d2 : dict K V) :
  dict_get k (d1 ++ d2)
  = match dict_get k d1 with
    | Some v => Some v
    | None => dict_get k d2
    end.
Proof.
  induction d1 as [|[k1 v1] d1 IH]; simpl; [done|].
  by destruct (decide (k = k1)).
Qed.

Lemma mapM_Ok {A B} (f : A → result B) (l : list A) (l' : list B) :
  mapM f l = Ok l' → Forall2 (λ x y, f x = Ok y) l l'.
Proof.
  revert l'. induction l as [|a l IH]; intros l'; simpl.
  - intros [= <-]. constructor.
  - intros Hmap. apply bind_Ok in Hmap as (b & Hb & Hmap).
    apply bind_Ok in Hmap as (bs & Hbs & Hmap). injection Hmap as <-.
    constructor; [done | by apply IH].
Qed.

Lemma mapM_is_ok {A B} (f : A → result B) (l : list A) :
  Forall (λ x, is_ok (f x) = true) l → is_ok (mapM f l) = true.
Proof.
  induction 1 as [|a l Ha _ IH]; simpl; [done|].
  destruct (f a); [|done]. simpl. by destruct (mapM f l).
Qed.

Lemma index_Ok_elem_of {A} (l : list A) (i : Z) (x : A) :
  index l i = Ok x → x ∈ l.
Proof.
  unfold index. destruct (_ <? 0); [done|].
  intros Hx%require_Ok. by eapply list_elem_of_lookup_2.
Qed.

Section MergePredictions.
Context {Span Score Probs : Type}.
Context `{EqDecision Span, PyOrd Span, !PyOrdLaws Span}.
Context `{EqDecision Score, PyOrd Score, !PyOrdLaws Score}.

Abbreviation Sample := (RelikReaderSample Span Score Probs).

(** The first writer of a key wins. *)
Lemma prob_fold_get (key : Span) (items acc : dict Span Probs) :
  dict_get key (fold_left prob_step items acc)
  = match dict_get key acc with
    | Some p => Some p
    | None => dict_get key items
    end.
Proof.
  revert acc. induction items as [|[k p] items IH]; intros acc; simpl.
  - by destruct (dict_get key acc).
  - rewrite IH. unfold prob_step, dict_mem. simpl.
    destruct (dict_get k acc) as [q|] eqn:Hk.
    + destruct (dict_get key acc) eqn:Hkey; [done|].
      destruct (decide (key = k)) as [->|]; [congruence | done].
    + rewrite dict_get_set. destruct (decide (key = k)) as [->|]; [|done].
      by rewrite Hk.
Qed.

Lemma translate_triple_Ok (merged window_spans : list Span) (t t' : Triple Score) :
  translate_triple merged window_spans t = Ok t' →
  translates merged window_spans t t'.
Proof.
  destruct t as [[[t0 t1] t2] t3]. unfold translate_triple.
  intros Ht. apply bind_Ok in Ht as (head_span & Hhs & Ht).
  apply bind_Ok in Ht as (head & Hh%list_index_Ok & Ht).
  apply bind_Ok in Ht as (tail_span & Hts & Ht).
  apply bind_Ok in Ht as (tail & Htl%list_index_Ok & Ht).
  injection Ht as <-. unfold translates. simpl.
  do 2 (split; [done|]). exists head_span, tail_span. tauto.
Qed.

Lemma translate_triple_is_ok (merged window_spans : list Span) (t : Triple Score) :
  (∀ x, x ∈ window_spans → x ∈ merged) →
  is_ok (index window_spans t.1.1.1) = true →
  is_ok (index window_spans t.1.2) = true →
  is_ok (translate_triple merged window_spans t) = true.
Proof.
  destruct t as [[[t0 t1] t2] t3]. simpl. intros Hsub Hhead Htail.
  unfold translate_triple.
  destruct (index window_spans t0) as [head_span|] eqn:Hhs; [|done]. simpl.
  pose proof (list_index_is_ok merged head_span
                (Hsub _ (index_Ok_elem_of _ _ _ Hhs))) as Hh.
  destruct (list_index merged head_span); [|done]. simpl.
  destruct (index window_spans t2) as [tail_span|] eqn:Hts; [|done]. simpl.
  pose proof (list_index_is_ok merged tail_span
                (Hsub _ (index_Ok_elem_of _ _ _ Hts))) as Htl.
  by destruct (list_index merged tail_span).
Qed.

(** X23. One call of [_merge_predictions] on windows that both carry
    [predicted_spans]: the merged spans are the sorted set union of the two
    lists (strictly increasing, with exactly their elements); the merged
    probability map is read from the attribute [probs_window_labels_chars]
    of each window, and from no other: it holds for each key the entry of
    [a]'s [probs_window_labels_chars] and, for keys that it lacks, that of
    [b]'s (a window without the attribute contributes nothing, whatever its
    [predicted_spans_probs] holds); when both carry [predicted_triples],
    each triple is translated to the positions of its two spans in the
    merged span list and the merged triples are the sorted set union of the
    translated triples; [predicted_triples_probs] is empty.  The merge
    succeeds when the span indices of the triples are in range. *)
Theorem merged_predictions (window1 window2 : Sample) (spans1 spans2 : list Span) :
  predicted_spans window1 = Some spans1 →
  predicted_spans window2 = Some spans2 →
  let probs1 := default [] (probs_window_labels_chars window1) in
  let probs2 := default [] (probs_window_labels_chars window2) in
  (∀ m_spans m_probs m_triples m_triples_probs,
     _merge_predictions window1 window2
     = Ok (m_spans, m_probs, m_triples, m_triples_probs) →
     m_spans = sorted_union spans1 spans2
     ∧ StronglySorted py_lt m_spans
     ∧ (∀ x, x ∈ m_spans ↔ x ∈ spans1 ∨ x ∈ spans2)
     ∧ (∀ key, dict_get key m_probs
               = match dict_get key probs1 with
                 | Some p => Some p
                 | None => dict_get key probs2
                 end)
     ∧ m_triples_probs = []
     ∧ match predicted_triples window1, predicted_triples window2 with
       | Some triples1, Some triples2 =>
           ∃ translated1 translated2 : list (Triple Score),
             Forall2 (translates m_spans spans1) triples1 translated1
             ∧ Forall2 (translates m_spans spans2) triples2 translated2
             ∧ m_triples = sorted_union translated1 translated2
             ∧ StronglySorted py_lt m_triples
             ∧ ∀ t, t ∈ m_triples ↔ t ∈ translated1 ∨ t ∈ translated2
       | _, _ => m_triples = []
       end)
  ∧ (triples_in_range spans1 (predicted_triples window1) →
     triples_in_range spans2 (predicted_triples window2) →
     is_ok (_merge_predictions window1 window2) = true).
Proof.
  intros Hs1 Hs2 probs1 probs2. split.
  - intros m_spans m_probs m_triples m_triples_probs.
    unfold _merge_predictions. rewrite Hs1, Hs2.
    assert (∀ key, dict_get key (fold_left prob_step (probs1 ++ probs2) [])
                   = match dict_get key probs1 with
                     | Some p => Some p
                     | None => dict_get key probs2
                     end) as Hprobs.
    { intros key. rewrite prob_fold_get. simpl. apply dict_get_app. }
    destruct (predicted_triples window1) as [triples1|];
      [destruct (predicted_triples window2) as [triples2|]|].
    + intros Hmerge. apply bind_Ok in Hmerge as (tr1 & Htr1%mapM_Ok & Hmerge).
      apply bind_Ok in Hmerge as (tr2 & Htr2%mapM_Ok & Hmerge).
      injection Hmerge as <- <- <- <-.
      split; [done|]. split; [apply sorted_set_sorted|].
      split; [exact (λ x, elem_of_sorted_union x _ _)|]. split; [done|]. split; [done|].
      exists tr1, tr2.
      split; [by eapply Forall2_impl; [|apply translate_triple_Ok]|].
      split; [by eapply Forall2_impl; [|apply translate_triple_Ok]|].
      split; [done|]. split; [apply sorted_set_sorted|].
      exact (λ t, elem_of_sorted_union t _ _).
    + intros [= <- <- <- <-].
      split; [done|]. split; [apply sorted_set_sorted|].
      by split; [exact (λ x, elem_of_sorted_union x _ _)|].
    + intros [= <- <- <- <-].
      split; [done|]. split; [apply sorted_set_sorted|].
      by split; [exact (λ x, elem_of_sorted_union x _ _)|].
  - intros Hr1 Hr2. unfold _merge_predictions. rewrite Hs1, Hs2.
    destruct (predicted_triples window1) as [triples1|]; [|done].
    destruct (predicted_triples window2) as [triples2|]; [|done].
    assert (is_ok (mapM (translate_triple (sorted_union spans1 spans2) spans1)
                        triples1) = true) as Hok1.
    { apply mapM_is_ok. eapply Forall_impl; [by apply Hr1|].
      intros t [Hh Ht]. apply translate_triple_is_ok; [|done..].
      intros x Hx. apply elem_of_sorted_union. by left. }
    assert (is_ok (mapM (translate_triple (sorted_union spans1 spans2) spans2)
                        triples2) = true) as Hok2.
    { apply mapM_is_ok. eapply Forall_impl; [by apply Hr2|].
      intros t [Hh Ht]. apply translate_triple_is_ok; [|done..].
      intros x Hx. apply elem_of_sorted_union. by right. }
    destruct (mapM _ triples1); [|done]. simpl.
    by destruct (mapM _ triples2).
Qed.

End MergePredictions.

(** X23 on two windows that the reader scored: the spans [(0, 3, PER)] and
    [(5, 8, LOC), (3, 3, ORG), (0, 3, PER)] merge into the sorted list of the
    three, the triple [(0, rel, 1, 10)] of the second window becomes
    [(2, rel, 1, 10)], and the probability of [(0, 3, PER)] is the first
    window's. *)
Lemma merged_predictions_witness :
  ∃ (m_probs : dict Ex.Span Z),
    _merge_predictions Ex.predicted_a Ex.predicted_b
    = Ok ([(0, 3, "PER"); (3, 3, "ORG"); (5, 8, "LOC")], m_probs,
          [(2, "rel", 1, 10)], [])
    ∧ dict_get (0, 3, "PER") m_probs = Some 9
    ∧ dict_get (5, 8, "LOC") m_probs = Some 7.
Proof.
  destruct (merged_predictions Ex.predicted_a Ex.predicted_b _ _ eq_refl eq_refl)
    as [Hmerged Hok].
  destruct (_merge_predictions Ex.predicted_a Ex.predicted_b)
    as [[[[m_spans m_probs] m_triples] m_triples_probs]|e] eqn:Hmerge.
  - destruct (Hmerged _ _ _ _ eq_refl)
      as (-> & _ & _ & Hprobs & -> & tr1 & tr2 & _ & _ & _ & _ & _).
    exists m_probs. rewrite !Hprobs.
    vm_compute in Hmerge. injection Hmerge as <- <-. by vm_compute.
  - exfalso. vm_compute in Hmerge. discriminate Hmerge.
Defined.

(** C6 fails on a merged window.  The three windows of "the cat sat down
    now" carry one predicted span each, with its probability.  Merging the
    first two gives a window [ab] whose probability map has both entries,
    stored as [predicted_spans_probs].  In the merge of [ab] with the third
    window both carry [predicted_spans], and the merged spans are the union
    of the three; but the merged probability map has the third window's
    entry only: the entries of [ab], the first window of that merge, are
    lost, because they are looked for in [probs_window_labels_chars], which
    a merged window does not have.  That second merge is the second round of
    [_merge_doc_windows] on the three windows, whose result it is. *)
Theorem merged_probabilities_of_a_merged_window :
  ∃ (ab abc : Ex.Sample) (st st' : list (list string)),
    _merge_window_pair Ex.scored_the_cat_sat Ex.scored_cat_sat_down Ex.store
    = (Ok ab, st)
    ∧ predicted_spans ab = Some [(0, 3, "PER"); (4, 7, "LOC")]
    ∧ predicted_spans_probs ab = Some [((0, 3, "PER"), 9); ((4, 7, "LOC"), 7)]
    ∧ probs_window_labels_chars ab = None
    ∧ _merge_window_pair ab Ex.scored_sat_down_now st = (Ok abc, st')
    ∧ predicted_spans abc = Some [(0, 3, "PER"); (4, 7, "LOC"); (12, 16, "ORG")]
    ∧ predicted_spans_probs abc = Some [((12, 16, "ORG"), 5)]
    ∧ _merge_doc_windows
        [Ex.scored_the_cat_sat; Ex.scored_cat_sat_down; Ex.scored_sat_down_now]
        Ex.store
      = (Ok abc, st').
Proof.
  eexists _, _, _, _.
  split; [vm_compute; reflexivity|].
  do 3 (split; [reflexivity|]).
  split; [vm_compute; reflexivity|].
  do 2 (split; [reflexivity|]).
  vm_compute. reflexivity.
Qed.

(** ** C9 and C8: preconditions and effects of the merge *)

Section MergeWindowsFacts.
Context {Span Score Probs Cand : Type}.
Context `{EqDecision Span, PyOrd Span, EqDecision Score, PyOrd Score}.
Context `{EqDecision Cand}.

Abbreviation Sample := (RelikReaderSample Span Score Probs).
Abbreviation Store := (@Store Cand).
Abbreviation M := (@M Cand).
Abbreviation frames := (frames (Cand := Cand)).

Lemma frames_ret {A} R n (a : A) (Q : A → Prop) : Q a → frames R n (ret a) Q.
Proof. intros HQ st st' res _ [= <- <-]. by repeat split; [|intros ? [= <-]]. Qed.

Lemma frames_lift {A} R n (r : result A) : frames R n (lift r) (λ a, r = Ok a).
Proof. by intros st st' res _ [= <- <-]. Qed.

Lemma frames_bind {A B} R n (m : M A) (k : A → M B) (P : A → Prop) (Q : B → Prop) :
  frames R n m P → (∀ a, P a → frames R n (k a) Q) → frames R n (m ≫= k) Q.
Proof.
  intros Hm Hk st st' res Hn Hrun.
  unfold mbind, M_bind, bindM in Hrun.
  destruct (m st) as [[a|e] st1] eqn:Hm1.
  - destruct (Hm _ _ _ Hn Hm1) as (Hlen1 & Hsame1 & HP).
    destruct (Hk a (HP a eq_refl) st1 st' res ltac:(lia) Hrun)
      as (Hlen2 & Hsame2 & HQ).
    split; [lia|]. split; [|done].
    intros r Hr HR. by rewrite Hsame2, Hsame1.
  - injection Hrun as <- <-. destruct (Hm _ _ _ Hn Hm1) as (Hlen1 & Hsame1 & _).
    by repeat split.
Qed.

Lemma frames_weaken {A} R R' n (m : M A) (P Q : A → Prop) :
  frames R' n m P →
  (∀ r, r ∈ R' → r ∈ R ∨ (n ≤ r)%nat) → (∀ a, P a → Q a) →
  frames R n m Q.
Proof.
  intros Hm HR HPQ st st' res Hn Hrun.
  destruct (Hm _ _ _ Hn Hrun) as (Hlen & Hsame & HP).
  split; [done|]. split; [|by intros a ->; apply HPQ, HP].
  intros r Hr HnotR. apply Hsame; [done|].
  intros Hin. destruct (HR r Hin); [done | lia].
Qed.

Lemma frames_post {A} R n (m : M A) (P Q : A → Prop) :
  frames R n m P → (∀ a, P a → Q a) → frames R n m Q.
Proof. intros Hm HPQ. eapply frames_weaken; [done | by left | done]. Qed.

Lemma frames_alloc R n (l : list Cand) : frames R n (alloc l) (λ r, (n ≤ r)%nat).
Proof.
  intros st st' res Hn [= <- <-]. rewrite length_app. simpl.
  split; [lia|]. split; [|by intros a [= <-]].
  intros r Hr _. apply lookup_app_l. lia.
Qed.

Lemma frames_read R n (r : loc) : frames R n (read r) (λ _, True).
Proof. by intros st st' res _ [= <- <-]. Qed.

Lemma frames_extend R n (r : loc) (items : list Cand) :
  r ∈ R ∨ (n ≤ r)%nat → frames R n (extend r items) (λ _, True).
Proof.
  intros Hr st st' res Hn Hrun. unfold extend, Store in *.
  destruct (st !! r) as [l|] eqn:Hl; simplify_eq; [|by repeat split].
  rewrite length_insert. split; [done|]. split; [|done].
  intros r' Hr' HnotR. apply list_lookup_insert_ne.
  intros ->. destruct Hr; [done | lia].
Qed.

Lemma frames_merge_candidate_field R n (x : loc) (f1 f2 : option loc) :
  (n ≤ x)%nat → (∀ r, f1 = Some r → r ∈ R) →
  frames R n (merge_candidate_field x f1 f2) (λ r, r ∈ R ∨ (n ≤ r)%nat).
Proof.
  intros Hx Hf1. unfold merge_candidate_field.
  assert (default x f1 ∈ R ∨ (n ≤ default x f1)%nat) as Hd.
  { destruct f1 as [r|]; simpl; [left; by apply Hf1 | by right]. }
  destruct f2 as [r2|]; [|by apply frames_ret].
  eapply frames_bind; [apply frames_read|]. intros items _.
  eapply frames_bind; [by apply frames_extend|]. intros _ _.
  by apply frames_ret.
Qed.

Lemma frames_make_unique R n (x : loc) :
  frames R n (make_unique x) (λ r, (n ≤ r)%nat).
Proof.
  unfold make_unique. eapply frames_bind; [apply frames_read|].
  intros items _. apply frames_alloc.
Qed.

Lemma elem_of_refs (w : Sample) (r : loc) :
  r ∈ refs w ↔
  candidates w = Some r ∨ windows_candidates w = Some r
  ∨ span_candidates w = Some r ∨ triplet_candidates w = Some r.
Proof.
  unfold refs. rewrite list_elem_of_omap. split.
  - intros (o & Hin & Ho). simpl in Ho. subst o.
    rewrite !elem_of_cons, elem_of_nil in Hin.
    destruct Hin as [Heq|[Heq|[Heq|[Heq|[]]]]]; symmetry in Heq; tauto.
  - intros Hr. exists (Some r). split; [|done].
    rewrite !elem_of_cons.
    destruct Hr as [Heq|[Heq|[Heq|Heq]]]; rewrite Heq; auto.
Qed.

(** The candidate merge writes to no object of the store other than the
    candidate lists of the first window, and returns new objects. *)
Lemma frames_merge_candidates n (window1 window2 : Sample) :
  frames (refs window1) n (_merge_candidates window1 window2)
         (λ c, (n ≤ c.1.1.1)%nat ∧ (n ≤ c.1.1.2)%nat
               ∧ (n ≤ c.1.2)%nat ∧ (n ≤ c.2)%nat).
Proof.
  unfold _merge_candidates.
  eapply frames_bind; [apply frames_alloc|]. intros c0 Hc0.
  eapply frames_bind; [apply frames_alloc|]. intros wc0 Hwc0.
  eapply frames_bind.
  { apply frames_merge_candidate_field; [done|].
    intros r Hr. apply elem_of_refs. tauto. }
  intros c Hc. eapply frames_bind.
  { apply frames_merge_candidate_field; [done|].
    intros r Hr. apply elem_of_refs. tauto. }
  intros wc Hwc. eapply frames_bind; [apply frames_alloc|]. intros sc0 Hsc0.
  eapply frames_bind.
  { apply frames_merge_candidate_field; [done|].
    intros r Hr. apply elem_of_refs. tauto. }
  intros sc Hsc. eapply frames_bind; [apply frames_alloc|]. intros tc0 Htc0.
  eapply frames_bind.
  { apply frames_merge_candidate_field; [done|].
    intros r Hr. apply elem_of_refs. tauto. }
  intros tc Htc.
  eapply frames_bind; [apply frames_make_unique|]. intros c' Hc'.
  eapply frames_bind; [apply frames_make_unique|]. intros wc' Hwc'.
  eapply frames_bind; [apply frames_make_unique|]. intros sc' Hsc'.
  eapply frames_bind; [apply frames_make_unique|]. intros tc' Htc'.
  by apply frames_ret.
Qed.

Lemma frames_merge_window_pair n (window1 window2 : Sample) :
  frames (refs window1) n (_merge_window_pair window1 window2) (fresh n).
Proof.
  unfold _merge_window_pair.
  eapply frames_bind; [apply frames_lift|]. intros _ _.
  eapply frames_bind; [apply frames_lift|]. intros [[m_tokens m_s] m_e] _.
  eapply frames_bind; [apply frames_lift|]. intros [[m_words mw_s] mw_e] _.
  eapply frames_bind; [apply frames_merge_candidates|].
  intros [[[c wc] sc] tc] (Hc & Hwc & Hsc & Htc). simpl in *.
  eapply frames_bind; [apply frames_lift|]. intros m_labels _.
  eapply frames_bind; [apply frames_lift|]. intros [[[p_s p_p] p_t] p_tp] _.
  apply frames_ret. intros r Hr. apply elem_of_refs in Hr. simpl in Hr.
  destruct Hr as [[= <-]|[[= <-]|[[= <-]|[= <-]]]]; done.
Qed.

Lemma frames_merge_fold R n (acc : Sample) (rest : list Sample) :
  (∀ r, r ∈ refs acc → r ∈ R ∨ (n ≤ r)%nat) →
  frames R n (merge_fold acc rest) (λ w, rest = [] ∧ w = acc ∨ fresh n w).
Proof.
  revert acc. induction rest as [|next rest IH]; intros acc Hacc; simpl.
  - apply frames_ret. by left.
  - eapply frames_bind.
    { eapply frames_weaken; [apply frames_merge_window_pair | done | done]. }
    intros acc' Hfresh. eapply frames_post.
    + apply IH. intros r Hr. right. by apply Hfresh.
    + intros w [[_ ->]|Hw]; by right.
Qed.

Lemma elem_of_key_insert {A B} `{PyOrd A} (key : B → A) (x y : B) (l : list B) :
  y ∈ key_insert key x l ↔ y = x ∨ y ∈ l.
Proof.
  induction l as [|z l IH]; simpl.
  - rewrite list_elem_of_singleton, elem_of_nil. tauto.
  - destruct (py_cmp (key x) (key z)); rewrite !elem_of_cons; rewrite ?IH; tauto.
Qed.

Lemma elem_of_sorted_by {A B} `{PyOrd A} (key : B → A) (y : B) (l : list B) :
  y ∈ sorted_by key l ↔ y ∈ l.
Proof.
  induction l as [|x l IH]; simpl; [done|].
  rewrite elem_of_key_insert, elem_of_cons, IH. tauto.
Qed.

Lemma sort_by_offset_elem_of (windows sorted : list Sample) (w : Sample) :
  sort_by_offset windows = Ok sorted → w ∈ sorted → w ∈ windows.
Proof.
  unfold sort_by_offset. intros Hsort Hw.
  apply bind_Ok in Hsort as (keyed & Hkeyed%mapM_Ok & Hsort).
  injection Hsort as <-.
  apply list_elem_of_fmap in Hw as ([o w'] & -> & Hin%elem_of_sorted_by).
  apply list_elem_of_lookup in Hin as [i Hi].
  destruct (Forall2_lookup_r _ _ _ _ _ Hkeyed Hi) as (w0 & Hw0 & Hkey).
  apply bind_Ok in Hkey as (o' & _ & Hkey). injection Hkey as _ <-.
  by eapply list_elem_of_lookup_2.
Qed.

Lemma frames_merge_doc_windows R n (windows : list Sample) :
  (∀ w r, w ∈ windows → r ∈ refs w → r ∈ R) →
  frames R n (_merge_doc_windows windows) (λ w, w ∈ windows ∨ fresh n w).
Proof.
  intros HR.
  assert (∀ ws : list Sample,
            (∀ w, w ∈ ws → w ∈ windows) →
            frames R n
              (match ws with
               | w0 :: rest => merge_fold w0 rest
               | [] => lift (Raise IndexError)
               end) (λ w, w ∈ windows ∨ fresh n w)) as Hfold.
  { intros [|w0 rest] Hsub.
    - eapply frames_post; [apply frames_lift | by intros a ?].
    - eapply frames_post.
      + apply (frames_merge_fold R). intros r Hr. left.
        eapply HR; [|done]. apply Hsub. by left.
      + intros w [[_ ->]|Hw]; [left; apply Hsub; by left | by right]. }
  unfold _merge_doc_windows.
  destruct windows as [|w0 [|w1 rest]]; [|apply frames_ret; left; by left|].
  - eapply frames_bind; [apply frames_lift|]. intros ws [= <-]. by apply (Hfold []).
  - eapply frames_bind; [apply frames_lift|]. intros ws Hws.
    apply (Hfold ws). intros w Hw.
    destruct (bool_decide (is_Some (offset w0)));
      [by eapply sort_by_offset_elem_of | by injection Hws as <-].
Qed.

Lemma elem_of_dict_set {K V} `{EqDecision K} (k : K) (v : V) (d : dict K V)
    (x : K * V) :
  x ∈ dict_set k v d → x.2 = v ∨ x ∈ d.
Proof.
  induction d as [|[k0 v0] d IH]; simpl.
  - intros ->%list_elem_of_singleton. by left.
  - destruct (decide (k = k0)) as [->|Hne].
    + intros [->|Hin]%elem_of_cons; [by left | right; by right].
    + intros [->|Hin]%elem_of_cons; [right; by left|].
      destruct (IH Hin); [by left | right; by right].
Qed.

Lemma dict_get_elem_of {K V} `{EqDecision K} (k : K) (d : dict K V) (v : V) :
  dict_get k d = Some v → (k, v) ∈ d.
Proof.
  induction d as [|[k0 v0] d IH]; simpl; [done|].
  destruct (decide (k = k0)) as [->|Hne].
  - intros [= ->]. by left.
  - intros Hget. right. by apply IH.
Qed.

(** Every window of a group is one of the windows that were grouped. *)
Lemma group_by_doc_id_elem_of (windows : list Sample) (d : option Z)
    (g : list Sample) (w : Sample) :
  (d, g) ∈ group_by_doc_id windows → w ∈ g → w ∈ windows.
Proof.
  unfold group_by_doc_id. revert d g w.
  induction windows as [|w0 windows IH] using rev_ind; intros d g w; simpl.
  - by intros ?%elem_of_nil.
  - rewrite fold_left_app. simpl. intros Hin Hw.
    apply elem_of_dict_set in Hin as [Hg|Hin]; [simpl in Hg|].
    + subst g. apply elem_of_app in Hw as [Hw|Hw%list_elem_of_singleton].
      * destruct (dict_get (doc_id w0) _) as [g0|] eqn:Hget; simpl in Hw.
        -- apply elem_of_app. left.
           eapply IH; [|done]. by apply dict_get_elem_of.
        -- by apply elem_of_nil in Hw.
      * subst w. apply elem_of_app. right. by left.
    + apply elem_of_app. left. by eapply IH.
Qed.

Lemma frames_merge_groups R n (groups : list (option Z * list Sample)) :
  (∀ d g w r, (d, g) ∈ groups → w ∈ g → r ∈ refs w → r ∈ R) →
  frames R n (merge_groups groups) (λ _, True).
Proof.
  induction groups as [|[d g] groups IH]; intros HR; simpl.
  - by apply frames_ret.
  - eapply frames_bind.
    { apply frames_merge_doc_windows. intros w r Hw Hr.
      eapply (HR d g w r); [by left | done | done]. }
    intros merged _. eapply frames_bind.
    { apply IH. intros d' g' w r Hin. apply (HR d' g' w r). by right. }
    intros others _. by apply frames_ret.
Qed.

Lemma bindM_Ok {A B} (m : M A) (k : A → M B) (st st' : Store) (b : B) :
  (m ≫= k) st = (Ok b, st') →
  ∃ a st1, m st = (Ok a, st1) ∧ k a st1 = (Ok b, st').
Proof.
  unfold mbind, M_bind, bindM. destruct (m st) as [[a|e] st1]; [|done].
  intros Hk. by exists a, st1.
Qed.

Lemma lift_Ok {A} (r : result A) (st st' : Store) (a : A) :
  lift r st = (Ok a, st') → r = Ok a ∧ st' = st.
Proof. by intros [= -> ->]. Qed.

(** The merged sample of a successful pairwise merge: its fields are the
    results of the per-field helpers, its [doc_id] is the first window's and
    its [offset] the second's. *)
Lemma merge_window_pair_Ok (window1 window2 merged : Sample) (st st' : Store) :
  _merge_window_pair window1 window2 st = (Ok merged, st') →
  check_pair window1 window2 = Ok tt
  ∧ doc_id merged = doc_id window1 ∧ offset merged = offset window2
  ∧ (∃ m_start m_end,
       _merge_tokens window1 window2 = Ok (default [] (tokens merged), m_start, m_end)
       ∧ is_Some (tokens merged)
       ∧ token2char_start merged = Some m_start
       ∧ token2char_end merged = Some m_end)
  ∧ (∃ m_start m_end,
       _merge_words window1 window2 = Ok (default [] (words merged), m_start, m_end)
       ∧ is_Some (words merged)
       ∧ token2word_start merged = Some m_start
       ∧ token2word_end merged = Some m_end)
  ∧ (∃ m_spans m_probs m_triples m_triples_probs,
       _merge_predictions window1 window2
       = Ok (m_spans, m_probs, m_triples, m_triples_probs)
       ∧ predicted_spans merged = Some m_spans
       ∧ predicted_spans_probs merged = Some m_probs
       ∧ predicted_triples merged = Some m_triples
       ∧ predicted_triples_probs merged = Some m_triples_probs).
Proof.
  unfold _merge_window_pair. intros Hrun.
  apply bindM_Ok in Hrun as ([] & st1 & [Hcheck ->]%lift_Ok & Hrun).
  apply bindM_Ok in Hrun as ([[m_tokens m_s] m_e] & st2 & [Htok ->]%lift_Ok & Hrun).
  apply bindM_Ok in Hrun as ([[m_words mw_s] mw_e] & st3 & [Hwords ->]%lift_Ok & Hrun).
  apply bindM_Ok in Hrun as ([[[c wc] sc] tc] & st4 & _ & Hrun).
  apply bindM_Ok in Hrun as (m_labels & st5 & [_ ->]%lift_Ok & Hrun).
  apply bindM_Ok in Hrun as ([[[p_s p_p] p_t] p_tp] & st6 & [Hpred ->]%lift_Ok & Hrun).
  injection Hrun as <- <-. simpl.
  split; [done|]. do 2 (split; [done|]).
  split; [by exists m_s, m_e|]. split; [by exists mw_s, mw_e|].
  by exists p_s, p_p, p_t, p_tp.
Qed.

(** C9. A violated precondition raises at once, before anything is
    computed: [create_windows] when the mention list has not one entry per
    document, the pairwise merge when both windows have a [doc_id] and they
    differ, or both have an [offset] and the first is not below the second
    (the store is then as it was). *)
Theorem precondition_violations_raise :
  (∀ (tokenizer : list PyDoc → bool → list (list Token))
     (split : Splitter → list Token → option Z → list (list Token))
     (self : Splitter) (documents : PyDoc)
     (window_size stride max_length : option Z) (doc_topic : option string)
     (is_split_into_words : bool) (mentions : list (list (list Z))),
     len (normalize documents is_split_into_words) ≠ len mentions →
     (@create_windows Span Score Probs tokenizer split self documents
        window_size stride max_length doc_topic is_split_into_words
        (Some mentions)).1
     = Raise AssertionError)
  ∧ (∀ (window1 window2 : Sample) (st : Store) (d1 d2 : Z),
       doc_id window1 = Some d1 → doc_id window2 = Some d2 → d1 ≠ d2 →
       _merge_window_pair window1 window2 st = (Raise AssertionError, st))
  ∧ (∀ (window1 window2 : Sample) (st : Store) (o1 o2 : Z),
       offset window1 = Some o1 → offset window2 = Some o2 → o2 ≤ o1 →
       _merge_window_pair window1 window2 st = (Raise AssertionError, st)).
Proof.
  split; [|split].
  - intros tokenizer split self documents window_size stride max_length
      doc_topic is_split_into_words mentions Hlen.
    unfold create_windows. simpl. by rewrite bool_decide_eq_false_2.
  - intros window1 window2 st d1 d2 Hd1 Hd2 Hne.
    unfold _merge_window_pair, check_pair. rewrite Hd1, Hd2.
    rewrite bool_decide_eq_false_2 by congruence. done.
  - intros window1 window2 st o1 o2 Ho1 Ho2 Hle.
    unfold _merge_window_pair, check_pair. rewrite Ho1, Ho2.
    assert ((o1 <? o2) = false) as -> by lia.
    destruct (doc_id window1) as [d1|]; [|done].
    by destruct (bool_decide (Some d1 = doc_id window2)).
Qed.

(** C8 (amended). A pairwise merge changes no object of the store other
    than the candidate lists of its first window, and the candidate lists of
    its result are new objects; [merge_windows] changes no object other
    than candidate lists of the windows it is given.  [create_windows]
    writes to the splitter, whatever it returns or raises: a setting that
    the splitter has is set to the argument ([window_size], respectively
    [stride]) when the argument is given and is not [0], and keeps its value
    when the argument is [None] or [0]; a setting that the splitter does not
    have is not created. *)
Theorem merge_effects :
  (∀ (window1 window2 : Sample) (st st' : Store) (res : result Sample),
     _merge_window_pair window1 window2 st = (res, st') →
     (length st ≤ length st')%nat
     ∧ (∀ r : loc, (r < length st)%nat → r ∉ refs window1 → st' !! r = st !! r)
     ∧ ∀ merged, res = Ok merged →
                 ∀ r, r ∈ refs merged → (length st ≤ r)%nat)
  ∧ (∀ (windows : list Sample) (st st' : Store) (res : result (list Sample)),
       merge_windows windows st = (res, st') →
       (length st ≤ length st')%nat
       ∧ ∀ r : loc, (r < length st)%nat →
                    (∀ w, w ∈ windows → r ∉ refs w) → st' !! r = st !! r)
  ∧ (∀ (tokenizer : list PyDoc → bool → list (list Token))
       (split : Splitter → list Token → option Z → list (list Token))
       (self : Splitter) (documents : PyDoc)
       (window_size stride max_length : option Z) (doc_topic : option string)
       (is_split_into_words : bool) (mentions : option (list (list (list Z)))),
       let self' :=
         (@create_windows Span Score Probs tokenizer split self documents
            window_size stride max_length doc_topic is_split_into_words
            mentions).2 in
       (∀ current : option Z,
          splitter_window_size self = Some current →
          (∀ w, window_size = Some w → w ≠ 0 →
                splitter_window_size self' = Some (Some w))
          ∧ (window_size = None ∨ window_size = Some 0 →
             splitter_window_size self' = Some current))
       ∧ (splitter_window_size self = None → splitter_window_size self' = None)
       ∧ (∀ current : option Z,
            splitter_window_stride self = Some current →
            (∀ s, stride = Some s → s ≠ 0 →
                  splitter_window_stride self' = Some (Some s))
            ∧ (stride = None ∨ stride = Some 0 →
               splitter_window_stride self' = Some current))
       ∧ (splitter_window_stride self = None →
          splitter_window_stride self' = None)).
Proof.
  split; [|split].
  - intros window1 window2 st st' res Hrun.
    by apply (frames_merge_window_pair (length st) window1 window2 st st' res).
  - intros windows st st' res Hrun.
    pose (R := windows ≫= refs).
    destruct (frames_merge_groups R (length st) (group_by_doc_id windows))
      with (st := st) (st' := st') (res := res) as (Hlen & Hsame & _);
      [|done|done|].
    + intros d g w r Hin Hw Hr. apply list_elem_of_bind. exists w.
      split; [done|]. by eapply group_by_doc_id_elem_of.
    + split; [done|]. intros r Hr Hnot. apply Hsame; [done|].
      intros (w & Hrw & Hw)%list_elem_of_bind. by apply (Hnot w).
  - intros tokenizer split self documents window_size stride max_length
      doc_topic is_split_into_words mentions.
    unfold create_windows, set_splitter_params. simpl.
    split; [|split; [|split]].
    + intros current ->. split.
      * intros w -> Hw. simpl. by rewrite (proj2 (Z.eqb_neq w 0) Hw).
      * by intros [-> | ->].
    + by intros ->.
    + intros current ->. split.
      * intros s -> Hs. simpl. by rewrite (proj2 (Z.eqb_neq s 0) Hs).
      * by intros [-> | ->].
    + by intros ->.
Qed.

End MergeWindowsFacts.

(** *** The statements on the two windows of "the cat sat down" *)

(** C9 on three calls: two documents with one mention list, two windows of
    different documents, two windows in the wrong order. *)
Lemma precondition_violations_raise_witness :
  (Ex.windows_of_A_b_C_d None (Some [[[0; 1]]])).1 = Raise AssertionError
  ∧ _merge_window_pair Ex.the_cat_sat (Ex.window 1 4 ["CLS"; "SEP"] [] []) Ex.store
    = (Raise AssertionError, Ex.store)
  ∧ _merge_window_pair Ex.cat_sat_down Ex.the_cat_sat Ex.store
    = (Raise AssertionError, Ex.store).
Proof.
  destruct (precondition_violations_raise (Span := Ex.Span) (Score := Z)
              (Probs := Z) (Cand := string))
    as (Hcreate & Hdoc & Hoffset).
  split; [|split].
  - apply Hcreate. by vm_compute.
  - by apply (Hdoc _ _ _ 0 1).
  - by apply (Hoffset _ _ _ 4 0).
Defined.

(** C8 (amended) on the two windows with candidates: the merge leaves the
    second window's list, object 1 of the store, as it was, and the lists of
    the merged window are objects that did not exist before.  And on a call
    of [create_windows] with [window_size=3, stride=0] and the splitter set
    at 10 and 5: the window size becomes 3, the stride stays 5. *)
Lemma merge_effects_witness :
  (∃ (merged : Ex.Sample) (st' : list (list string)),
     _merge_window_pair Ex.the_cat_sat_candidates Ex.cat_sat_down_candidates
                        Ex.store = (Ok merged, st')
     ∧ st' !! 1%nat = Ex.store !! 1%nat
     ∧ ∀ r, r ∈ refs merged → (2 ≤ r)%nat)
  ∧ splitter_window_size
      (create_windows (Span := Ex.Span) (Score := Z) (Probs := Z)
         Ex.tokenizer Ex.one_token_windows Ex.splitter (DStr "A b")
         (Some 3) (Some 0) None None false None).2
    = Some (Some 3)
  ∧ splitter_window_stride
      (create_windows (Span := Ex.Span) (Score := Z) (Probs := Z)
         Ex.tokenizer Ex.one_token_windows Ex.splitter (DStr "A b")
         (Some 3) (Some 0) None None false None).2
    = Some (Some 5).
Proof.
  destruct (merge_effects (Span := Ex.Span) (Score := Z) (Probs := Z)
              (Cand := string)) as (Hpair & _ & Hsplitter).
  split.
  - eassert (_merge_window_pair Ex.the_cat_sat_candidates
               Ex.cat_sat_down_candidates Ex.store = (Ok _, _)) as Hrun
      by (vm_compute; reflexivity).
    destruct (Hpair _ _ _ _ _ Hrun) as (_ & Hsame & Hfresh).
    eexists _, _. split; [exact Hrun|]. split.
    + apply Hsame; [simpl; lia|].
      intros Hin%elem_of_refs. simpl in Hin.
      destruct Hin as [[=]|[[=]|[[=]|[=]]]].
    + by apply Hfresh.
  - destruct (Hsplitter Ex.tokenizer Ex.one_token_windows Ex.splitter
                (DStr "A b") (Some 3) (Some 0) None None false None)
      as (Hsize & _ & Hstride & _).
    split.
    + apply (proj1 (Hsize (Some 10) eq_refl) 3 eq_refl). lia.
    + apply (proj2 (Hstride (Some 5) eq_refl)). by right.
Defined.

(** C8 as stated fails twice: [create_windows] called with a window size
    and a stride writes them to the splitter, and the merge extends the
    first window's candidate list, object 0 of the store, in place. *)
Lemma merge_effects_counterexample :
  (create_windows (Span := Ex.Span) (Score := Z) (Probs := Z)
     Ex.tokenizer Ex.one_token_windows Ex.splitter (DStr "A b")
     (Some 3) (Some 2) None None false None).2
  ≠ Ex.splitter
  ∧ Ex.store !! 0%nat = Some ["Cat"]
  ∧ (_merge_window_pair Ex.the_cat_sat_candidates Ex.cat_sat_down_candidates
                        Ex.store).2 !! 0%nat
    = Some ["Cat"; "Mat"].
Proof.
  split; [|by vm_compute].
  intros Hsame. vm_compute in Hsame. discriminate Hsame.
Qed.

(** * Further properties

    What the code shows beyond the statements above, function by
    function. *)

(** ** [_merge_words]: the merged word list *)

Section MergeWords.
Context {Span Score Probs : Type}.
Abbreviation Sample := (RelikReaderSample Span Score Probs).

Lemma merge_word_mapping_is_ok (wi off : Z) (t2c1 t2c2 : option (dict string Z)) :
  Forall (λ tc, is_Some (parse_int tc.1)) (default [] t2c2) →
  is_ok (merge_word_mapping wi off t2c1 t2c2) = true.
Proof. intros Hkeys. unfold merge_word_mapping. by apply remap_fold_is_ok. Qed.

(** X1. [_merge_words] returns [a.words + b.words[k:]] with [k] the largest
    overlap in [1 .. len(a.words) - 1] (or [0]); it needs no word map (a
    missing one counts as empty) and succeeds as soon as the keys of the
    second window's word maps read as integers.  The overlap is searched
    below [len(a.words)] only, so the merged list has
    [len(a.words) + len(b.words) - k] words and is longer than [b.words]
    whenever [a.words] is not empty. *)
Theorem merge_words_formula (window1 window2 : Sample)
    (words1 words2 : list string) :
  words window1 = Some words1 →
  words window2 = Some words2 →
  Forall (λ tc, is_Some (parse_int tc.1)) (default [] (token2word_start window2)) →
  Forall (λ tc, is_Some (parse_int tc.1)) (default [] (token2word_end window2)) →
  ∃ (k : nat) (m_start m_end : dict string Z),
    _merge_words window1 window2 = Ok (words1 ++ drop k words2, m_start, m_end)
    ∧ (k = 0%nat ∨ ((1 ≤ k ≤ length words1 - 1)%nat ∧ overlap k words1 words2))
    ∧ (∀ j : nat, (k < j ≤ length words1 - 1)%nat → ¬ overlap j words1 words2)
    ∧ length (words1 ++ drop k words2)
      = (length words1 + length words2 - k)%nat
    ∧ (words1 ≠ [] → (length words2 < length (words1 ++ drop k words2))%nat).
Proof.
  intros Hw1 Hw2 Hstart Hend.
  destruct (find_intersection_spec words1 words2) as (k & Hk & Hover & Hmax).
  assert (k ≤ length words2 ∧ (words1 ≠ [] → k < length words1))%nat as [Hk2 Hk1].
  { destruct Hover as [->|[Hrange Hover]].
    - split; [lia|]. destruct words1; [done | simpl; lia].
    - split; [|lia]. apply (overlap_lengths k words1); [lia | done]. }
  unfold _merge_words. rewrite Hw1, Hw2. simpl. rewrite Hk.
  pose proof (merge_word_mapping_is_ok (Z.of_nat k) (len words1 - Z.of_nat k)
                (token2word_start window1) _ Hstart) as Hs.
  destruct (merge_word_mapping _ _ (token2word_start _) _) as [m_start|]; [|done].
  pose proof (merge_word_mapping_is_ok (Z.of_nat k) (len words1 - Z.of_nat k)
                (token2word_end window1) _ Hend) as He.
  destruct (merge_word_mapping _ _ (token2word_end _) _) as [m_end|]; [|done].
  simpl. exists k, m_start, m_end. rewrite slice_from.
  split; [done|]. split; [done|]. split; [done|].
  rewrite length_app, length_drop. split; [lia|].
  intros Hne. specialize (Hk1 Hne). lia.
Qed.

End MergeWords.

(** X1 on "the cat sat" and "cat sat down". *)
Lemma merge_words_formula_witness :
  ∃ (k : nat) (m_start m_end : dict string Z),
    _merge_words Ex.words_the_cat_sat Ex.words_cat_sat_down
    = Ok (["the"; "cat"; "sat"] ++ drop k ["cat"; "sat"; "down"], m_start, m_end)
    ∧ length (["the"; "cat"; "sat"] ++ drop k ["cat"; "sat"; "down"])
      = (3 + 3 - k)%nat.
Proof.
  destruct (merge_words_formula Ex.words_the_cat_sat Ex.words_cat_sat_down
              _ _ eq_refl eq_refl (Forall_nil_2 _) (Forall_nil_2 _))
    as (k & m_start & m_end & Hrun & _ & _ & Hlen & _).
  by exists k, m_start, m_end.
Defined.

(** ** [sorted] with a key: order, stability *)

Section SortedByFacts.
Context {A B : Type} `{PyOrdLaws A}.
Variable key : B → A.

Lemma key_le_trans (x y z : B) : key_le key x y → key_le key y z → key_le key x z.
Proof.
  unfold key_le. intros Hxy Hyz.
  destruct (py_cmp (key x) (key y)) eqn:Exy; [| |done].
  - apply py_cmp_eq in Exy. by rewrite Exy.
  - destruct (py_cmp (key y) (key z)) eqn:Eyz; [| |done].
    + apply py_cmp_eq in Eyz. rewrite <- Eyz, Exy. done.
    + by rewrite (py_cmp_trans _ _ _ Exy Eyz).
Qed.

Lemma key_insert_Permutation (x : B) (l : list B) : key_insert key x l ≡ₚ x :: l.
Proof.
  induction l as [|y l IH]; simpl; [done|].
  destruct (py_cmp (key x) (key y)); [done | done|].
  rewrite IH. apply Permutation_swap.
Qed.

Lemma sorted_by_Permutation (l : list B) : sorted_by key l ≡ₚ l.
Proof.
  induction l as [|x l IH]; simpl; [done|].
  by rewrite key_insert_Permutation, IH.
Qed.

Lemma key_insert_sorted (x : B) (l : list B) :
  StronglySorted (key_le key) l → StronglySorted (key_le key) (key_insert key x l).
Proof.
  induction 1 as [|y l Hl IH Hy]; simpl.
  - repeat constructor.
  - destruct (py_cmp (key x) (key y)) eqn:Exy.
    + assert (key_le key x y) as Hxy by (unfold key_le; by rewrite Exy).
      constructor; [by constructor|]. constructor; [done|].
      eapply Forall_impl; [exact Hy|]. intros z. by apply key_le_trans.
    + assert (key_le key x y) as Hxy by (unfold key_le; by rewrite Exy).
      constructor; [by constructor|]. constructor; [done|].
      eapply Forall_impl; [exact Hy|]. intros z. by apply key_le_trans.
    + constructor; [done|]. apply Forall_forall. intros z Hz.
      apply elem_of_key_insert in Hz as [->|Hz].
      * unfold key_le. rewrite py_cmp_antisym, Exy. done.
      * rewrite Forall_forall in Hy. by apply Hy.
Qed.

(** [sorted(l, key=key)] is in non-decreasing key order. *)
Lemma sorted_by_sorted (l : list B) : StronglySorted (key_le key) (sorted_by key l).
Proof.
  induction l as [|x l IH]; simpl; [constructor | by apply key_insert_sorted].
Qed.

(** Sorting a list that is in order already leaves it as it is: elements
    with equal keys are never exchanged. *)
Lemma sorted_by_id (l : list B) : StronglySorted (key_le key) l → sorted_by key l = l.
Proof.
  induction 1 as [|x l Hl IH Hx]; simpl; [done|].
  rewrite IH. destruct l as [|y l]; simpl; [done|].
  apply Forall_cons in Hx as [Hxy _]. unfold key_le in Hxy.
  by destruct (py_cmp (key x) (key y)).
Qed.

End SortedByFacts.

(** ** [_merge_span_annotation]: union, order, errors *)

Lemma elem_of_uniq_annotations (seen l : list (list Atom)) (x : list Atom) :
  x ∈ uniq_annotations seen l ↔ x ∈ l ∧ x ∉ seen.
Proof.
  revert seen. induction l as [|y l IH]; intros seen; simpl.
  - rewrite elem_of_nil. tauto.
  - destruct (bool_decide_reflect (y ∈ seen)) as [Hy|Hy].
    + rewrite IH, elem_of_cons. split; [tauto|].
      intros [[->|Hx] Hnot]; [done | tauto].
    + rewrite elem_of_cons, IH, not_elem_of_cons, elem_of_cons. split.
      * intros [->|[Hx [Hne Hnot]]]; tauto.
      * intros [[->|Hx] Hnot]; [tauto|].
        destruct (decide (x = y)); tauto.
Qed.

Lemma uniq_annotations_NoDup (seen l : list (list Atom)) :
  NoDup (uniq_annotations seen l).
Proof.
  revert seen. induction l as [|y l IH]; intros seen; simpl; [constructor|].
  destruct (bool_decide_reflect (y ∈ seen)); [apply IH|].
  constructor; [|apply IH].
  rewrite elem_of_uniq_annotations, elem_of_cons. tauto.
Qed.

Lemma length_omap_le {A B} (f : A → option B) (l : list A) :
  (length (omap f l) ≤ length l)%nat.
Proof. induction l as [|a l IH]; csimpl; [done|]. destruct (f a); csimpl; lia. Qed.

Lemma omap_full_length {A B} (f : A → option B) (l : list A) :
  Forall (λ a, is_Some (f a)) l → length (omap f l) = length l.
Proof.
  induction 1 as [|a l [b Hb] _ IH]; csimpl; [done|]. rewrite Hb. csimpl. lia.
Qed.

(** The keys of the sort, for annotations that are not empty. *)
Lemma annotation_keys_Ok (l : list (list Atom)) :
  [] ∉ l →
  ∃ keyed, mapM (λ x, k ← index x 0; Ok (k, x)) l = Ok keyed
           ∧ keyed.*2 = l
           ∧ Forall (λ kx, head kx.2 = Some kx.1) keyed.
Proof.
  induction l as [|x l IH]; intros Hne; simpl.
  - by exists [].
  - destruct IH as (keyed & -> & Hsnd & Hkeys).
    { intros Hin. apply Hne. by right. }
    destruct x as [|k x]; [exfalso; apply Hne; by left|].
    rewrite index_first. simpl. exists ((k, k :: x) :: keyed).
    split; [done|]. split; [simpl; f_equal; exact Hsnd|]. by constructor.
Qed.

Lemma annotation_keys_inv (l : list (list Atom)) keyed :
  mapM (λ x, k ← index x 0; Ok (k, x)) l = Ok keyed →
  keyed.*2 = l ∧ Forall (λ kx, head kx.2 = Some kx.1) keyed.
Proof.
  revert keyed. induction l as [|x l IH]; intros keyed; simpl.
  - by intros [= <-].
  - intros Hmap. apply bind_Ok in Hmap as ([k x'] & Hk & Hmap).
    apply bind_Ok in Hmap as (rest & Hrest & Hmap). injection Hmap as <-.
    apply bind_Ok in Hk as (k0 & Hk0 & Hk). injection Hk as -> ->.
    destruct (IH _ Hrest) as [Hsnd Hkeys]. split; [simpl; f_equal; exact Hsnd|].
    constructor; [|done]. simpl. destruct x' as [|y x']; [done|].
    rewrite index_first in Hk0. by injection Hk0 as ->.
Qed.

Ltac case_decide_in H Hcase :=
  match type of H with
  | context [bool_decide ?P] => destruct (bool_decide_reflect P) as [Hcase|Hcase]
  end.

Lemma omap_full_fmap {A B C} (g : A → option B) (pa : A → C) (pb : B → C)
    (l : list A) :
  (∀ a b, g a = Some b → pb b = pa a) →
  length (omap g l) = length l → pb <$> omap g l = pa <$> l.
Proof.
  intros Hg. induction l as [|a l IH]; csimpl; [done|].
  pose proof (length_omap_le g l).
  destruct (g a) as [b|] eqn:Ha; csimpl; [|lia].
  intros Hlen. rewrite (Hg _ _ Ha), IH; [done | lia].
Qed.

Lemma sort_annotations_Permutation (l res : list (list Atom)) :
  sort_annotations l = Ok res → res ≡ₚ l.
Proof.
  unfold sort_annotations. intros Hsort.
  apply bind_Ok in Hsort as (keyed & Hkeyed & Hsort).
  apply annotation_keys_inv in Hkeyed as [Hsnd _]. rewrite <- Hsnd. clear Hsnd.
  case_decide_in Hsort Hints.
  { injection Hsort as <-. rewrite sorted_by_Permutation.
    rewrite (omap_full_fmap _ snd snd); [done| |done].
    intros [k x] [z y]. simpl. destruct k; [|done]. by intros [= _ ->]. }
  case_decide_in Hsort Hstrs; [|done].
  injection Hsort as <-. rewrite sorted_by_Permutation.
  rewrite (omap_full_fmap _ snd snd); [done| |done].
  intros [k x] [z y]. simpl. destruct k; [done|]. by intros [= _ ->].
Qed.

(** X2. The merged annotations are the annotations of the two lists, each
    once: an annotation found in both windows is kept once. *)
Theorem merged_annotations_are_the_union (a1 a2 res : list (list Atom)) :
  _merge_span_annotation (Some a1) (Some a2) = Ok res →
  NoDup res ∧ ∀ x, x ∈ res ↔ x ∈ a1 ∨ x ∈ a2.
Proof.
  unfold _merge_span_annotation. simpl.
  intros Hperm%sort_annotations_Permutation. split.
  - rewrite Hperm. apply uniq_annotations_NoDup.
  - intros x. rewrite Hperm, elem_of_uniq_annotations, elem_of_app, elem_of_nil.
    tauto.
Qed.

Lemma StronglySorted_fmap_impl {A B} (P : A → Prop) (R : relation A)
    (R' : relation B) (f : A → B) (l : list A) :
  (∀ x y, P x → P y → R x y → R' (f x) (f y)) →
  Forall P l → StronglySorted R l → StronglySorted R' (f <$> l).
Proof.
  intros HR HP Hsorted. induction Hsorted as [|x l Hl IH Hx]; csimpl; [constructor|].
  apply Forall_cons in HP as [HPx HP]. constructor; [by apply IH|].
  apply Forall_fmap, Forall_forall. intros y Hy. rewrite Forall_forall in Hx. rewrite Forall_forall in HP.
  apply HR; [done | by apply HP | by apply Hx].
Qed.

Lemma StronglySorted_fmap_inv {A B} (P : A → Prop) (R : relation A)
    (R' : relation B) (f : A → B) (l : list A) :
  (∀ x y, P x → P y → R' (f x) (f y) → R x y) →
  Forall P l → StronglySorted R' (f <$> l) → StronglySorted R l.
Proof.
  intros HR HP. induction l as [|x l IH]; csimpl; [constructor|].
  apply Forall_cons in HP as [HPx HP]. intros Hsorted.
  apply StronglySorted_inv in Hsorted as [Hl Hx]. constructor; [by apply IH|].
  rewrite Forall_forall in Hx. rewrite Forall_forall in HP. apply Forall_forall.
  intros y Hy. apply HR; [done | by apply HP |].
  apply Hx, list_elem_of_fmap. by exists y.
Qed.

Lemma uniq_annotations_id (seen l : list (list Atom)) :
  NoDup l → (∀ x, x ∈ l → x ∉ seen) → uniq_annotations seen l = l.
Proof.
  intros Hnd. revert seen. induction Hnd as [|x l Hx Hnd IH]; intros seen Hseen; simpl.
  - done.
  - rewrite bool_decide_eq_false_2 by (apply Hseen; by left).
    f_equal. apply IH. intros y Hy. rewrite not_elem_of_cons. split.
    + intros ->. done.
    + apply Hseen. by right.
Qed.

Lemma length_omap_eq_Forall {A B} (g : A → option B) (l : list A) :
  length (omap g l) = length l ↔ Forall (λ a, is_Some (g a)) l.
Proof.
  split; [|apply omap_full_length].
  induction l as [|a l IH]; csimpl; [constructor|].
  pose proof (length_omap_le g l).
  destruct (g a) as [b|] eqn:Ha; csimpl; [|lia]. intros Hlen.
  constructor; [by rewrite Ha | apply IH; lia].
Qed.

(** The sort of annotations that all start with an integer. *)
Lemma sort_annotations_ints (l : list (list Atom)) :
  Forall (λ x, is_Some (start_of x)) l →
  ∃ ints : list (Z * list Atom),
    sort_annotations l = Ok ((sorted_by fst ints).*2)
    ∧ ints.*2 = l
    ∧ Forall (λ zx, start_of zx.2 = Some zx.1) ints.
Proof.
  intros Hstarts. unfold sort_annotations.
  destruct (annotation_keys_Ok l) as (keyed & -> & Hsnd & Hkeys).
  { intros Hin. rewrite Forall_forall in Hstarts.
    by destruct (Hstarts _ Hin) as [z Hz]. }
  simpl. set (g := λ kx : Atom * list Atom,
                   match kx.1 with AInt z => Some (z, kx.2) | AStr _ => None end).
  assert (Forall (λ kx, is_Some (g kx)) keyed) as Hall.
  { rewrite Forall_forall in Hstarts. rewrite Forall_forall in Hkeys.
    apply Forall_forall. intros [k x] Hin.
    assert (x ∈ l) as Hx.
    { rewrite <- Hsnd. apply list_elem_of_fmap. by exists (k, x). }
    specialize (Hstarts _ Hx). specialize (Hkeys _ Hin). simpl in *.
    destruct Hstarts as [z Hz]. destruct x as [|[z'|s] x]; try done.
    injection Hkeys as <-. by eexists. }
  rewrite bool_decide_eq_true_2 by (by apply length_omap_eq_Forall).
  exists (omap g keyed). split; [done|]. split.
  - rewrite <- Hsnd. apply (omap_full_fmap g snd snd).
    + intros [k x] [z y]. unfold g. simpl. destruct k; [|done]. by intros [= _ ->].
    + by apply length_omap_eq_Forall.
  - apply Forall_forall. intros [z x] Hin.
    apply list_elem_of_omap in Hin as ([k y] & Hin & Hg).
    rewrite Forall_forall in Hkeys. specialize (Hkeys _ Hin). simpl in *.
    unfold g in Hg. simpl in Hg. destruct k as [z'|]; [|done].
    injection Hg as -> ->. destruct x as [|k x]; [done|]. simpl in *. by injection Hkeys as ->.
Qed.

(** X3. When every annotation starts with an integer the merge succeeds and
    its result is in non-decreasing order of these integers; the sort is
    stable: annotations that are distinct and in order already are returned
    as they came, the first window's before the second's. *)
Theorem merged_annotations_are_sorted (a1 a2 : list (list Atom)) :
  Forall (λ x, is_Some (start_of x)) (a1 ++ a2) →
  ∃ res : list (list Atom),
    _merge_span_annotation (Some a1) (Some a2) = Ok res
    ∧ StronglySorted starts_before res
    ∧ (NoDup (a1 ++ a2) → StronglySorted starts_before (a1 ++ a2) →
       res = a1 ++ a2).
Proof.
  intros Hstarts. unfold _merge_span_annotation. simpl.
  destruct (sort_annotations_ints (uniq_annotations [] (a1 ++ a2)))
    as (ints & -> & Hsnd & Hints).
  { apply Forall_forall. intros x [Hx _]%elem_of_uniq_annotations.
    rewrite Forall_forall in Hstarts. by apply Hstarts. }
  eexists. split; [done|]. split.
  - apply (StronglySorted_fmap_impl (λ zx, start_of zx.2 = Some zx.1) (key_le fst)).
    + intros [z x] [z' y] Hx Hy Hle. simpl in *. by exists z, z'.
    + apply Forall_forall. intros zx Hin%elem_of_sorted_by.
      rewrite Forall_forall in Hints. by apply Hints.
    + apply sorted_by_sorted.
  - intros Hnd Hsorted.
    rewrite uniq_annotations_id in Hsnd; [|done|intros x _; apply not_elem_of_nil].
    rewrite sorted_by_id; [done|]. rewrite <- Hsnd in Hsorted.
    apply (StronglySorted_fmap_inv (λ zx, start_of zx.2 = Some zx.1) _ starts_before snd);
      [|done|done].
    intros [z x] [z' y] Hx Hy (sx & sy & Hsx & Hsy & Hle). simpl in *.
    assert (sx = z) as -> by congruence. assert (sy = z') as -> by congruence.
    exact Hle.
Qed.

Lemma annotation_keys_Raise (l : list (list Atom)) :
  [] ∈ l → mapM (λ x, k ← index x 0; Ok (k, x)) l = Raise IndexError.
Proof.
  induction l as [|x l IH]; [by intros ?%elem_of_nil|].
  intros Hin. simpl. destruct x as [|k x]; [done|].
  rewrite index_first. simpl. rewrite IH; [done|].
  by apply elem_of_cons in Hin as [?|?].
Qed.

(** X4. What [_merge_span_annotation] raises: [TypeError] when either list
    is [None]; [IndexError] when an annotation is empty, since its first
    element is the sort key; [TypeError] when one annotation starts with an
    integer and another with a string, two keys that cannot be compared. *)
Theorem merged_annotations_errors :
  (∀ a2, _merge_span_annotation None a2 = Raise TypeError)
  ∧ (∀ a1, _merge_span_annotation (Some a1) None = Raise TypeError)
  ∧ (∀ a1 a2 : list (list Atom),
       [] ∈ a1 ++ a2 →
       _merge_span_annotation (Some a1) (Some a2) = Raise IndexError)
  ∧ (∀ (a1 a2 : list (list Atom)) (z : Z) (s : string) (x y : list Atom),
       [] ∉ a1 ++ a2 → AInt z :: x ∈ a1 ++ a2 → AStr s :: y ∈ a1 ++ a2 →
       _merge_span_annotation (Some a1) (Some a2) = Raise TypeError).
Proof.
  split; [done|]. split; [done|]. split.
  - intros a1 a2 Hin. unfold _merge_span_annotation, sort_annotations. simpl.
    rewrite annotation_keys_Raise; [done|].
    apply elem_of_uniq_annotations. split; [done | apply not_elem_of_nil].
  - intros a1 a2 z s x y Hne Hint Hstr.
    unfold _merge_span_annotation, sort_annotations. simpl.
    destruct (annotation_keys_Ok (uniq_annotations [] (a1 ++ a2)))
      as (keyed & -> & Hsnd & Hkeys).
    { by intros [Hin _]%elem_of_uniq_annotations. }
    simpl.
    assert (∀ a, a ∈ a1 ++ a2 → ∃ k, (k, a) ∈ keyed ∧ head a = Some k) as Hkeyed.
    { intros a Ha.
      assert (a ∈ keyed.*2) as Hin.
      { rewrite Hsnd. apply elem_of_uniq_annotations.
        split; [done | apply not_elem_of_nil]. }
      apply list_elem_of_fmap in Hin as ([k a'] & -> & Hin).
      exists k. split; [done|]. rewrite Forall_forall in Hkeys.
      by apply (Hkeys _ Hin). }
    destruct (Hkeyed _ Hint) as (ki & Hki & [= <-]).
    destruct (Hkeyed _ Hstr) as (ks & Hks & [= <-]).
    rewrite bool_decide_eq_false_2.
    2:{ rewrite length_omap_eq_Forall, Forall_forall. intros Hall.
        by destruct (Hall _ Hks) as [? [=]]. }
    rewrite bool_decide_eq_false_2; [done|].
    rewrite length_omap_eq_Forall, Forall_forall. intros Hall.
    by destruct (Hall _ Hki) as [? [=]].
Qed.

(** X2 on two label lists that share [[0, 3, PER]]. *)
Lemma merged_annotations_are_the_union_witness :
  ∃ res, _merge_span_annotation (Some Ex.labels_a) (Some Ex.labels_b) = Ok res
         ∧ NoDup res ∧ length res = 3%nat.
Proof.
  eassert (_merge_span_annotation (Some Ex.labels_a) (Some Ex.labels_b)
           = Ok [_; _; _]) as Hrun by (vm_compute; reflexivity).
  destruct (merged_annotations_are_the_union _ _ _ Hrun) as [Hnd _].
  eexists. split; [exact Hrun|]. by split.
Defined.

(** X3 on the same lists. *)
Lemma merged_annotations_are_sorted_witness :
  ∃ res, _merge_span_annotation (Some Ex.labels_a) (Some Ex.labels_b) = Ok res
         ∧ StronglySorted starts_before res.
Proof.
  destruct (merged_annotations_are_sorted Ex.labels_a Ex.labels_b)
    as (res & Hrun & Hsorted & _).
  - repeat constructor; by eexists.
  - by exists res.
Defined.

(** X4 on an empty annotation and on keys of two kinds. *)
Lemma merged_annotations_errors_witness :
  _merge_span_annotation (Some [[AInt 0]; []]) (Some []) = Raise IndexError
  ∧ _merge_span_annotation (Some [[AInt 0]]) (Some [[AStr "PER"]])
    = Raise TypeError.
Proof.
  destruct merged_annotations_errors as (_ & _ & Hempty & Hmixed). split.
  - apply Hempty. simpl. apply list_elem_of_further, list_elem_of_here.
  - apply (Hmixed _ _ 0 "PER" [] []).
    + simpl. intros Hin. repeat (apply elem_of_cons in Hin as [[=]|Hin]).
      by apply elem_of_nil in Hin.
    + simpl. apply list_elem_of_here.
    + simpl. apply list_elem_of_further, list_elem_of_here.
Defined.

(** ** What a loop raises *)

Lemma mapM_Raise {A B} (f : A → result B) (l : list A) (e : PyError) :
  mapM f l = Raise e → ∃ x, x ∈ l ∧ f x = Raise e.
Proof.
  induction l as [|a l IH]; simpl; [done|].
  destruct (f a) as [b|e'] eqn:Ha; simpl.
  - destruct (mapM f l) as [bs|e'] eqn:Hl; simpl; [done|].
    intros [= ->]. destruct (IH eq_refl) as (x & Hx & Hfx).
    exists x. split; [by right | done].
  - intros [= ->]. exists a. split; [by left | done].
Qed.

Lemma foldM_Raise {A B} (f : B → A → result B) (l : list A) (b : B) (e : PyError) :
  foldM f l b = Raise e → ∃ b' x, x ∈ l ∧ f b' x = Raise e.
Proof.
  revert b. induction l as [|a l IH]; intros b; simpl; [done|].
  destruct (f b a) as [b1|e'] eqn:Ha; simpl.
  - intros (b' & x & Hx & Hfx)%IH. exists b', x. split; [by right | done].
  - intros [= ->]. exists b, a. split; [by left | done].
Qed.

Lemma is_ok_true {A} (m : result A) : is_ok m = true → ∃ a, m = Ok a.
Proof. destruct m as [a|e]; [by exists a | done]. Qed.

(** ** [_merge_predictions]: success, range, symmetry *)

Section MergePredictionsMore.
Context {Span Score Probs : Type}.
Context `{EqDecision Span, PyOrd Span, !PyOrdLaws Span}.
Context `{EqDecision Score, PyOrd Score, !PyOrdLaws Score}.

Abbreviation Sample := (RelikReaderSample Span Score Probs).

(** A translation fails on an index that is out of range, and only so. *)
Lemma translate_triple_Raise (merged window_spans : list Span) (t : Triple Score)
    (e : PyError) :
  (∀ x, x ∈ window_spans → x ∈ merged) →
  translate_triple merged window_spans t = Raise e →
  e = IndexError
  ∧ ¬ (is_ok (index window_spans t.1.1.1) = true
       ∧ is_ok (index window_spans t.1.2) = true).
Proof.
  intros Hsub Ht. split.
  - destruct t as [[[t0 t1] t2] t3]. unfold translate_triple in Ht.
    assert (∀ i e', index window_spans i = Raise e' → e' = IndexError) as Hindex.
    { intros i e'. unfold index. destruct (_ <? 0); [by intros [= <-]|].
      destruct (window_spans !! _); [done | by intros [= <-]]. }
    destruct (index window_spans t0) as [head_span|e0] eqn:Hhs; simpl in Ht.
    2:{ injection Ht as <-. by eapply Hindex. }
    pose proof (list_index_is_ok merged head_span
                  (Hsub _ (index_Ok_elem_of _ _ _ Hhs))) as Hh.
    destruct (list_index merged head_span); [|done]. simpl in Ht.
    destruct (index window_spans t2) as [tail_span|e2] eqn:Hts; simpl in Ht.
    2:{ injection Ht as <-. by eapply Hindex. }
    pose proof (list_index_is_ok merged tail_span
                  (Hsub _ (index_Ok_elem_of _ _ _ Hts))) as Htl.
    by destruct (list_index merged tail_span).
  - intros [Hhead Htail].
    pose proof (translate_triple_is_ok merged window_spans t Hsub Hhead Htail) as Hok.
    by rewrite Ht in Hok.
Qed.

(** X5. [_merge_predictions] raises only when both windows carry
    [predicted_spans] and [predicted_triples] and a triple holds a span
    index outside its own window's span list, and what it raises is
    [IndexError]; a window without [predicted_spans] makes the merge return
    four empty results, whatever the other window predicts. *)
Theorem merge_predictions_succeeds_iff (window1 window2 : Sample) :
  (is_ok (_merge_predictions window1 window2) = true
   ↔ ∀ spans1 spans2,
       predicted_spans window1 = Some spans1 →
       predicted_spans window2 = Some spans2 →
       is_Some (predicted_triples window1) →
       is_Some (predicted_triples window2) →
       triples_in_range spans1 (predicted_triples window1)
       ∧ triples_in_range spans2 (predicted_triples window2))
  ∧ (is_ok (_merge_predictions window1 window2) = false →
     _merge_predictions window1 window2 = Raise IndexError)
  ∧ (predicted_spans window1 = None ∨ predicted_spans window2 = None →
     _merge_predictions window1 window2 = Ok ([], [], [], [])).
Proof.
  unfold _merge_predictions, triples_in_range.
  destruct (predicted_spans window1) as [spans1|].
  2:{ split; [split; [by intros _ ? ? [=] | done]|]. by split. }
  destruct (predicted_spans window2) as [spans2|].
  2:{ split; [split; [by intros _ ? ? _ [=] | done]|]. by split. }
  destruct (predicted_triples window1) as [triples1|].
  2:{ split; [split; [by intros _ ? ? _ _ [? [=]] | done]|].
      split; [done | by intros [[=]|[=]]]. }
  destruct (predicted_triples window2) as [triples2|].
  2:{ split; [split; [by intros _ ? ? _ _ _ [? [=]] | done]|].
      split; [done | by intros [[=]|[=]]]. }
  set (merged := sorted_union spans1 spans2).
  assert (∀ x, x ∈ spans1 → x ∈ merged) as Hsub1.
  { intros x Hx. apply elem_of_sorted_union. by left. }
  assert (∀ x, x ∈ spans2 → x ∈ merged) as Hsub2.
  { intros x Hx. apply elem_of_sorted_union. by right. }
  assert (∀ ws triples,
            (∀ x, x ∈ ws → x ∈ merged) →
            is_ok (mapM (translate_triple merged ws) triples) = true →
            Forall (λ t : Triple Score,
                      is_ok (index ws t.1.1.1) = true
                      ∧ is_ok (index ws t.1.2) = true) triples) as Hrange.
  { intros ws triples Hsub Hok. apply is_ok_true in Hok as [tr Htr%mapM_Ok].
    apply Forall_forall. intros t Hin.
    apply list_elem_of_lookup in Hin as [i Hi].
    destruct (Forall2_lookup_l _ _ _ _ _ Htr Hi) as (t' & _ & Ht).
    apply translate_triple_Ok in Ht
      as (_ & _ & hs & ts & Hh & Ht & _). by rewrite Hh, Ht. }
  assert (∀ ws triples,
            (∀ x, x ∈ ws → x ∈ merged) →
            Forall (λ t : Triple Score,
                      is_ok (index ws t.1.1.1) = true
                      ∧ is_ok (index ws t.1.2) = true) triples →
            is_ok (mapM (translate_triple merged ws) triples) = true) as Hok.
  { intros ws triples Hsub Hall. apply mapM_is_ok.
    eapply Forall_impl; [exact Hall|]. intros t [Hh Ht].
    by apply translate_triple_is_ok. }
  split; [split|split].
  - intros Hrun spans1' spans2' [= <-] [= <-] _ _.
    destruct (mapM _ triples1) as [tr1|] eqn:H1; [|done]. simpl in Hrun.
    destruct (mapM _ triples2) as [tr2|] eqn:H2; [|done].
    split; intros l [= <-]; apply (Hrange _ _); try done.
    + by rewrite H1.
    + by rewrite H2.
  - intros Hall.
    destruct (Hall _ _ eq_refl eq_refl) as [Hr1 Hr2]; [by eexists..|].
    pose proof (Hok _ _ Hsub1 (Hr1 _ eq_refl)) as Hok1.
    pose proof (Hok _ _ Hsub2 (Hr2 _ eq_refl)) as Hok2.
    destruct (mapM _ triples1); [|done]. simpl. by destruct (mapM _ triples2).
  - destruct (mapM _ triples1) as [tr1|e1] eqn:H1; simpl.
    + destruct (mapM _ triples2) as [tr2|e2] eqn:H2; simpl; [done|].
      intros _. apply mapM_Raise in H2 as (t & _ & Ht).
      by apply translate_triple_Raise in Ht as [-> _].
    + intros _. apply mapM_Raise in H1 as (t & _ & Ht).
      by apply translate_triple_Raise in Ht as [-> _].
  - by intros [[=]|[=]].
Qed.

(** X6. The triples that a merge returns hold valid, non-negative positions
    in the span list that it returns: the merged sample again has its
    triples in range, whatever the form of the indices it was given. *)
Theorem merged_triples_in_range (window1 window2 : Sample)
    (m_spans : list Span) (m_probs : dict Span Probs)
    (m_triples : list (Triple Score)) (m_triples_probs : dict (Triple Score) Probs) :
  _merge_predictions window1 window2
  = Ok (m_spans, m_probs, m_triples, m_triples_probs) →
  Forall (λ t, 0 ≤ t.1.1.1 < len m_spans ∧ 0 ≤ t.1.2 < len m_spans) m_triples
  ∧ triples_in_range m_spans (Some m_triples).
Proof.
  intros Hrun.
  assert (Forall (λ t : Triple Score,
                    0 ≤ t.1.1.1 < len m_spans ∧ 0 ≤ t.1.2 < len m_spans)
                 m_triples) as Hall.
  { unfold _merge_predictions in Hrun.
    destruct (predicted_spans window1) as [spans1|]; [|by injection Hrun as <- <- <- <-].
    destruct (predicted_spans window2) as [spans2|]; [|by injection Hrun as <- <- <- <-].
    destruct (predicted_triples window1) as [triples1|]; [|by injection Hrun as <- <- <- <-].
    destruct (predicted_triples window2) as [triples2|]; [|by injection Hrun as <- <- <- <-].
    apply bind_Ok in Hrun as (tr1 & Htr1%mapM_Ok & Hrun).
    apply bind_Ok in Hrun as (tr2 & Htr2%mapM_Ok & Hrun).
    injection Hrun as <- <- <- <-.
    apply Forall_forall. intros t' [Hin|Hin]%elem_of_sorted_union.
    - apply list_elem_of_lookup in Hin as [i Hi].
      destruct (Forall2_lookup_r _ _ _ _ _ Htr1 Hi) as (t & _ & Ht).
      apply translate_triple_Ok in Ht
        as (_ & _ & hs & ts & _ & _ & Hh0 & Hh & Ht0 & Ht).
      apply lookup_lt_Some in Hh, Ht. unfold len. lia.
    - apply list_elem_of_lookup in Hin as [i Hi].
      destruct (Forall2_lookup_r _ _ _ _ _ Htr2 Hi) as (t & _ & Ht).
      apply translate_triple_Ok in Ht
        as (_ & _ & hs & ts & _ & _ & Hh0 & Hh & Ht0 & Ht).
      apply lookup_lt_Some in Hh, Ht. unfold len. lia. }
  split; [done|]. intros l [= <-].
  eapply Forall_impl; [exact Hall|]. intros t [Hh Ht].
  split; apply index_is_ok; lia.
Qed.

(** X7. The merged spans and triples do not depend on which window comes
    first: exchanging the two windows changes nothing but the priority
    among the probabilities. *)
Theorem merged_predictions_symmetric (window1 window2 : Sample)
    (m_spans : list Span) (m_probs : dict Span Probs)
    (m_triples : list (Triple Score)) (m_triples_probs : dict (Triple Score) Probs) :
  _merge_predictions window1 window2
  = Ok (m_spans, m_probs, m_triples, m_triples_probs) →
  ∃ m_probs', _merge_predictions window2 window1
              = Ok (m_spans, m_probs', m_triples, m_triples_probs).
Proof.
  unfold _merge_predictions.
  destruct (predicted_spans window1) as [spans1|],
           (predicted_spans window2) as [spans2|];
    try (intros [= <- <- <- <-]; by eexists).
  assert (sorted_union spans2 spans1 = sorted_union spans1 spans2) as ->.
  { apply sorted_unique; [apply sorted_set_sorted..|].
    intros x. rewrite !elem_of_sorted_union. tauto. }
  destruct (predicted_triples window1) as [triples1|],
           (predicted_triples window2) as [triples2|];
    try (intros [= <- <- <- <-]; by eexists).
  intros Hrun. apply bind_Ok in Hrun as (tr1 & -> & Hrun).
  apply bind_Ok in Hrun as (tr2 & -> & Hrun). injection Hrun as <- <- <- <-.
  simpl. eexists. do 3 f_equal.
  apply sorted_unique; [apply sorted_set_sorted..|].
  intros x. rewrite !elem_of_sorted_union. tauto.
Qed.

End MergePredictionsMore.

(** X5 on a triple whose span index is out of range. *)
Lemma merge_predictions_succeeds_iff_witness :
  _merge_predictions Ex.predicted_a
    (Ex.predictions 0 4 [(5, 8, "LOC")] [] [(0, "rel", 7, 10)])
  = Raise IndexError.
Proof.
  destruct (merge_predictions_succeeds_iff (Probs := Z) Ex.predicted_a
              (Ex.predictions 0 4 [(5, 8, "LOC")] [] [(0, "rel", 7, 10)]))
    as (_ & Hraise & _).
  apply Hraise. by vm_compute.
Defined.

(** X6 on the two windows with predictions. *)
Lemma merged_triples_in_range_witness :
  ∃ m_spans m_probs m_triples m_triples_probs,
    _merge_predictions Ex.predicted_a Ex.predicted_b
    = Ok (m_spans, m_probs, m_triples, m_triples_probs)
    ∧ m_triples = [(2, "rel", 1, 10)] ∧ len m_spans = 3
    ∧ triples_in_range m_spans (Some m_triples).
Proof.
  eassert (_merge_predictions Ex.predicted_a Ex.predicted_b = Ok (_, _, _, _))
    as Hrun by (vm_compute; reflexivity).
  destruct (merged_triples_in_range _ _ _ _ _ _ Hrun) as [_ Hrange].
  eexists _, _, _, _. split; [exact Hrun|]. by repeat split.
Defined.

(** X7 on the same windows, exchanged. *)
Lemma merged_predictions_symmetric_witness :
  ∃ m_spans m_probs m_probs' m_triples m_triples_probs,
    _merge_predictions Ex.predicted_a Ex.predicted_b
    = Ok (m_spans, m_probs, m_triples, m_triples_probs)
    ∧ _merge_predictions Ex.predicted_b Ex.predicted_a
      = Ok (m_spans, m_probs', m_triples, m_triples_probs)
    ∧ m_probs ≠ m_probs'.
Proof.
  eassert (_merge_predictions Ex.predicted_a Ex.predicted_b = Ok (_, _, _, _))
    as Hrun by (vm_compute; reflexivity).
  destruct (merged_predictions_symmetric _ _ _ _ _ _ Hrun) as [m_probs' Hrun'].
  eexists _, _, m_probs', _, _. split; [exact Hrun|]. split; [exact Hrun'|].
  vm_compute in Hrun'. injection Hrun' as <-. discriminate.
Defined.

(** ** [create_windows]: errors, order, text, token maps *)

(** *** Sorted lists *)

Lemma StronglySorted_app_2 {A} (R : relation A) (l1 l2 : list A) :
  StronglySorted R l1 → StronglySorted R l2 →
  (∀ x y, x ∈ l1 → y ∈ l2 → R x y) → StronglySorted R (l1 ++ l2).
Proof.
  intros Hl1 Hl2 Hcross. induction Hl1 as [|x l1 Hl1 IH Hx]; simpl; [done|].
  constructor.
  - apply IH. intros a b Ha Hb. apply Hcross; [by right | done].
  - apply Forall_app. split; [done|]. apply Forall_forall. intros y Hy.
    apply Hcross; [by left | done].
Qed.

Lemma StronglySorted_filter_2 {A} (R : relation A) (P : A → Prop)
    `{∀ x, Decision (P x)} (l : list A) :
  StronglySorted R l → StronglySorted R (filter P l).
Proof.
  induction 1 as [|x l Hl IH Hx]; [constructor|].
  destruct (decide (P x)).
  - rewrite filter_cons_True by done. constructor; [done|].
    apply Forall_forall. intros y [_ Hy]%list_elem_of_filter.
    rewrite Forall_forall in Hx. by apply Hx.
  - by rewrite filter_cons_False.
Qed.

Lemma StronglySorted_Forall2 {A B} (P : A → B → Prop) (R : relation B)
    (R' : relation A) (l : list A) (k : list B) :
  (∀ x y x' y', P x y → P x' y' → R y y' → R' x x') →
  Forall2 P l k → StronglySorted R k → StronglySorted R' l.
Proof.
  intros HR Hall. induction Hall as [|x y l k Hxy Hall IH]; [constructor|].
  intros [Hk Hy]%StronglySorted_inv. constructor; [by apply IH|].
  apply Forall_forall. intros x' Hx'.
  apply list_elem_of_lookup in Hx' as [i Hi].
  destruct (Forall2_lookup_l _ _ _ _ _ Hall Hi) as (y' & Hy' & Hxy').
  apply (HR x y x' y' Hxy Hxy'). rewrite Forall_forall in Hy.
  apply Hy. by eapply list_elem_of_lookup_2.
Qed.

Lemma enumerate_from_sorted {A} (n : Z) (l : list A) :
  StronglySorted (λ x y : Z * A, x.1 < y.1) (enumerate_from n l)
  ∧ Forall (λ x : Z * A, n ≤ x.1) (enumerate_from n l).
Proof.
  revert n. induction l as [|a l IH]; intros n; simpl.
  - split; constructor.
  - destruct (IH (n + 1)) as [Hs Hlow]. split.
    + constructor; [done|]. eapply Forall_impl; [exact Hlow|]. simpl. lia.
    + constructor; [simpl; lia|]. eapply Forall_impl; [exact Hlow|]. simpl. lia.
Qed.

(** *** What the loops of [create_windows] raise *)

Lemma index_Raise {A} (l : list A) (i : Z) (e : PyError) :
  index l i = Raise e → e = IndexError.
Proof.
  unfold index. destruct (_ <? 0); [by intros [= <-]|].
  destruct (l !! _); [done | by intros [= <-]].
Qed.

Lemma mention_in_window_Raise (a b : Z) (m : list Z) (e : PyError) :
  mention_in_window a b m = Raise e → e = IndexError.
Proof.
  unfold mention_in_window.
  destruct (index m 0) as [m0|e0] eqn:H0; simpl.
  - destruct (_ && _); [|done].
    destruct (index m 1) as [m1|e1] eqn:H1; simpl; [done|].
    intros [= <-]. by eapply index_Raise.
  - intros [= <-]. by eapply index_Raise.
Qed.

Lemma window_spans_Raise (a b : Z) (ms : list (list Z)) (e : PyError) :
  window_spans a b ms = Raise e → e = IndexError.
Proof.
  induction ms as [|m ms IH]; simpl; [done|].
  destruct (mention_in_window a b m) as [keep|e0] eqn:Hkeep; simpl.
  2:{ intros [= <-]. by eapply mention_in_window_Raise. }
  destruct keep; [|done].
  destruct (index m 0) as [m0|e0] eqn:H0; simpl.
  2:{ intros [= <-]. by eapply index_Raise. }
  destruct (index m 1) as [m1|e1] eqn:H1; simpl.
  2:{ intros [= <-]. by eapply index_Raise. }
  destruct (window_spans a b ms); simpl; [done|]. intros [= <-]. by apply IH.
Qed.

(** The comprehension reads [m[0]] of every mention. *)
Lemma window_spans_reads_all (a b : Z) (ms : list (list Z)) (sp : list (Z * Z)) :
  window_spans a b ms = Ok sp → [] ∉ ms.
Proof.
  revert sp. induction ms as [|m ms IH]; intros sp; simpl.
  - intros _. apply not_elem_of_nil.
  - intros Hsp. apply bind_Ok in Hsp as (keep & Hkeep & Hsp).
    rewrite not_elem_of_cons. split.
    + intros <-. done.
    + destruct keep.
      * apply bind_Ok in Hsp as (m0 & _ & Hsp).
        apply bind_Ok in Hsp as (m1 & _ & Hsp).
        apply bind_Ok in Hsp as (rest & Hrest & _). by eapply IH.
      * by eapply IH.
Qed.

Section CreateWindowsMore.
Context {Span Score Probs : Type}.
Variable tokenizer : list PyDoc → bool → list (list Token).
Variable split : Splitter → list Token → option Z → list (list Token).

Abbreviation Sample := (RelikReaderSample Span Score Probs).

Lemma window_sample_Raise (doc : Z) (document : PyDoc) (topic : Topic)
    (ments : list (list Z)) (wid : Z) (g : list Token) (e : PyError) :
  window_sample (Span := Span) (Score := Score) (Probs := Probs)
    doc document topic ments wid g = Raise e →
  e = IndexError.
Proof.
  unfold window_sample.
  destruct (index g 0) as [w_first|e0] eqn:Hf; simpl.
  2:{ intros [= <-]. by eapply index_Raise. }
  destruct (index g (-1)) as [w_last|e0] eqn:Hl; simpl.
  2:{ intros [= <-]. by eapply index_Raise. }
  destruct (window_spans _ _ ments) as [sp|e0] eqn:Hsp; simpl; [done|].
  intros [= <-]. by eapply window_spans_Raise.
Qed.

Lemma document_step_Raise (self : Splitter) (max_length : option Z) (mg : bool)
    (st : DocState (Span := Span) (Score := Score) (Probs := Probs))
    (item : DocItem) (e : PyError) :
  document_step split self max_length mg st item = Raise e → e = IndexError.
Proof.
  destruct st as [[topic wd] bl]. destruct item as [doc [[document toks] ments]].
  unfold document_step.
  destruct (foldM _ _ _) as [[dw blk]|e0] eqn:Hfold; simpl; [done|].
  intros [= <-]. apply foldM_Raise in Hfold as ([dw blk] & [wid g] & _ & Hstep).
  unfold window_step in Hstep.
  destruct (window_sample _ _ _ _ _ _) as [s|e1] eqn:Hs; simpl in Hstep.
  - by destruct (_ && _).
  - injection Hstep as <-. by eapply window_sample_Raise.
Qed.

(** X8. Once the mention list has one entry per document, all that
    [create_windows] can raise is [IndexError], and it does so when the
    splitter returns an empty group (whose first token is read) or when a
    document that has a window has an empty mention (whose first element
    is read); with groups that are not empty and mentions of two integers
    or more it returns. *)
Theorem create_windows_raises (self : Splitter) (documents : PyDoc)
    (window_size stride max_length : option Z) (doc_topic : option string)
    (is_split_into_words : bool) (mentions : option (list (list (list Z)))) :
  let docs := normalize documents is_split_into_words in
  let raws := call_raws tokenizer split self documents window_size stride
                        max_length is_split_into_words mentions in
  let run := (create_windows (Span := Span) (Score := Score) (Probs := Probs)
                tokenizer split self documents window_size stride max_length
                doc_topic is_split_into_words mentions).1 in
  (∀ ms, mentions = Some ms → len docs = len ms) →
  (is_ok run = false → run = Raise IndexError)
  ∧ (∀ raw, raw ∈ raws → raw.2 = [] ∨ [] ∈ raw.1.1.2 → run = Raise IndexError)
  ∧ (Forall (λ raw : Raw, raw.2 ≠ [] ∧ Forall (λ m, (2 ≤ length m)%nat) raw.1.1.2)
            raws →
     is_ok run = true).
Proof.
  intros docs raws run Hlen.
  assert (is_ok run = false → run = Raise IndexError) as Hraise.
  { subst run. unfold create_windows. simpl. fold docs.
    set (iter := match mentions with
                 | Some ms => _ ← py_assert (bool_decide (len docs = len ms)); Ok _
                 | None => Ok _
                 end).
    assert (∃ l, iter = Ok l) as [l ->].
    { subst iter. destruct mentions as [ms|]; [|by eexists].
      rewrite bool_decide_eq_true_2 by (by apply Hlen). by eexists. }
    simpl. destruct (foldM _ _ _) as [[[t wd] bl]|e] eqn:Hfold; simpl; [done|].
    intros _. apply foldM_Raise in Hfold as (st & item & _ & Hstep).
    by apply document_step_Raise in Hstep as ->. }
  split; [done|]. split.
  - intros raw Hraw Hbad. apply Hraise. subst run.
    destruct (create_windows tokenizer split self documents window_size stride
                max_length doc_topic is_split_into_words mentions)
      as [r self'] eqn:Hcall.
    simpl. destruct r as [[windowed blank]|e]; [|done].
    exfalso.
    apply create_windows_inv in Hcall as (-> & all & Hall & _).
    apply list_elem_of_lookup in Hraw as [i Hi].
    destruct (Forall2_lookup_r _ _ _ _ _ Hall Hi) as (s & _ & Hbuilt).
    apply window_sample_Ok in Hbuilt as (w_first & w_last & sp & Hf & _ & Hsp & _).
    destruct Hbad as [Hempty|Hmention].
    + by rewrite Hempty in Hf.
    + by apply window_spans_reads_all in Hsp.
  - intros Hraws. subst run. unfold create_windows. simpl. fold docs.
    set (iter := match mentions with
                 | Some ms => zip (zip docs (tokenizer docs is_split_into_words)) ms
                 | None => (λ dt, (dt, [])) <$> zip docs (tokenizer docs is_split_into_words)
                 end).
    set (self' := set_splitter_params self window_size stride).
    assert (is_ok (foldM (document_step (Span := Span) (Score := Score)
                            (Probs := Probs) split self' max_length
                            (bool_decide (is_Some mentions)))
                         (enumerate iter) (TopicStr <$> doc_topic, [], [])) = true)
      as Hloop.
    { apply foldM_is_ok. intros [[topic wd] bl] [doc [[document toks] ments]] Hin.
      unfold document_step.
      match goal with
      | |- is_ok (foldM ?f ?l ?b ≫= _) = true =>
          assert (is_ok (foldM f l b) = true) as Hinner
      end.
      { apply foldM_is_ok. intros [dw blk] [wid g] Hg.
        rewrite Forall_forall in Hraws.
        destruct (Hraws (doc, document, ments, wid, g)) as [Hne Hments].
        { subst raws. unfold call_raws, raw_windows.
          apply list_elem_of_In, in_flat_map.
          exists (doc, (document, toks, ments)).
          split; [by apply list_elem_of_In|].
          apply list_elem_of_In, list_elem_of_fmap. by exists (wid, g). }
        simpl in Hne, Hments.
        unfold window_step, window_sample. simpl.
        destruct g as [|w_first g']; [done|]. rewrite index_first. simpl.
        rewrite index_last.
        destruct (last (w_first :: g')) as [w_last|] eqn:Hlast;
          [|by apply last_None in Hlast].
        simpl.
        pose proof (window_spans_is_ok (tok_idx w_first)
                      (tok_idx w_last + str_len (tok_text w_last)) ments Hments)
          as Hsp.
        destruct (window_spans _ _ ments) as [sp|]; [|done]. simpl.
        match goal with |- is_ok (if ?c then _ else _) = true => by destruct c end. }
      destruct (foldM _ _ _) as [[dw blk]|]; [done | done]. }
    destruct mentions as [ms|]; simpl.
    + rewrite bool_decide_eq_true_2 by (by apply Hlen). simpl.
      fold iter. destruct (foldM _ _ _) as [[[t wd] bl]|]; [done | done].
    + fold iter. destruct (foldM _ _ _) as [[[t wd] bl]|]; [done | done].
Qed.

End CreateWindowsMore.

(** *** Dictionaries built from distinct keys *)

Section DictMore.
Context {K V : Type} `{EqDecision K}.

Lemma dict_set_fresh (k : K) (v : V) (d : dict K V) :
  k ∉ d.*1 → dict_set k v d = d ++ [(k, v)].
Proof.
  induction d as [|[k0 v0] d IH]; simpl; [done|].
  rewrite not_elem_of_cons. intros [Hne Hnot].
  rewrite decide_False by done. f_equal. by apply IH.
Qed.

(** A comprehension whose keys are pairwise distinct keeps every item. *)
Lemma dict_update_NoDup (items : list (K * V)) :
  NoDup items.*1 → dict_update [] items = items.
Proof.
  induction items as [|kv items IH] using rev_ind; [done|].
  rewrite fmap_app, NoDup_app. intros (Hnd & Hdisj & _).
  rewrite dict_update_snoc, IH by done. destruct kv as [k v].
  apply dict_set_fresh. intros Hin. apply (Hdisj k Hin). by left.
Qed.

End DictMore.

Lemma enumerate_from_keys {A} (n : Z) (l : list A) (f : Z * A → string) :
  (∀ ia, f ia = str ia.1) →
  NoDup (f <$> enumerate_from n l).
Proof.
  intros Hf. apply NoDup_alt. intros i j key.
  rewrite !list_lookup_fmap, !enumerate_from_lookup.
  destruct (l !! i) as [a|]; [|done]. destruct (l !! j) as [b|]; [|done]. simpl.
  rewrite !Hf. simpl. intros [= <-] [= Heq%str_inj]. lia.
Qed.

Lemma zip_lookup_fst {A B} (l : list A) (k : list B) (i : nat) (ab : A * B) :
  zip l k !! i = Some ab → l !! i = Some ab.1.
Proof.
  revert k i. induction l as [|a l IH]; intros [|b k] [|i]; simpl; try done.
  - by intros [= <-].
  - apply IH.
Qed.

Section CreateWindowsOrder.
Context {Span Score Probs : Type}.
Variable tokenizer : list PyDoc → bool → list (list Token).
Variable split : Splitter → list Token → option Z → list (list Token).

Abbreviation Sample := (RelikReaderSample Span Score Probs).

Lemma raw_windows_sorted (self : Splitter) (max_length : option Z)
    (items : list DocItem) :
  StronglySorted (λ x y : DocItem, x.1 < y.1) items →
  StronglySorted raw_before (raw_windows split self max_length items).
Proof.
  unfold raw_windows. induction 1 as [|item items Hs IH Hitem]; simpl; [constructor|].
  apply StronglySorted_app_2; [|done|].
  - apply (StronglySorted_fmap_impl (λ _, True) (λ x y : Z * list Token, x.1 < y.1)).
    + intros x y _ _ Hxy. right. by split.
    + by apply Forall_forall.
    + apply enumerate_from_sorted.
  - intros x y Hx Hy.
    apply list_elem_of_fmap in Hx as (iw & -> & _).
    apply list_elem_of_In, in_flat_map in Hy as (item' & Hin%list_elem_of_In & Hy).
    apply list_elem_of_In, list_elem_of_fmap in Hy as (iw' & -> & _).
    left. simpl. rewrite Forall_forall in Hitem. by apply Hitem.
Qed.

(** An item of the loop carries the document found at its number. *)
Lemma doc_iter_lookup (docs : list PyDoc) (dts : list (list Token))
    (mentions : option (list (list (list Z)))) (item : DocItem) :
  item ∈ doc_iter docs dts mentions →
  0 ≤ item.1 ∧ docs !! Z.to_nat item.1 = Some item.2.1.1.
Proof.
  unfold doc_iter, enumerate. intros [i Hi]%list_elem_of_lookup.
  rewrite enumerate_from_lookup in Hi.
  destruct (_ !! i) as [[[doc toks] ments]|] eqn:Hzip; [|done].
  injection Hi as <-. simpl. split; [lia|].
  rewrite Z.add_0_l, Nat2Z.id.
  destruct mentions as [ms|].
  - apply zip_lookup_fst in Hzip. simpl in Hzip.
    by apply zip_lookup_fst in Hzip.
  - rewrite list_lookup_fmap in Hzip.
    destruct (zip docs dts !! i) as [[d t]|] eqn:Hz; [|done].
    injection Hzip as -> -> _. by apply zip_lookup_fst in Hz.
Qed.

Lemma raw_windows_elem_of (self : Splitter) (max_length : option Z)
    (items : list DocItem) (raw : Raw) :
  raw ∈ raw_windows split self max_length items →
  ∃ item, item ∈ items ∧ raw.1.1.1.1 = item.1 ∧ raw.1.1.1.2 = item.2.1.1
          ∧ 0 ≤ raw.1.2.
Proof.
  unfold raw_windows.
  intros (item & Hin%list_elem_of_In & Hraw)%list_elem_of_In%in_flat_map.
  apply list_elem_of_In, list_elem_of_fmap in Hraw as (iw & -> & Hiw).
  exists item. simpl. do 3 (split; [done|]).
  destruct (enumerate_from_sorted 0 (split self item.2.1.2 max_length)) as [_ Hlow].
  rewrite Forall_forall in Hlow. by apply Hlow.
Qed.

Variables (self self' : Splitter) (documents : PyDoc).
Variables (window_size stride max_length : option Z) (doc_topic : option string).
Variables (is_split_into_words : bool) (mentions : option (list (list (list Z)))).
Variables (windowed blank : list Sample).

(** X9. Both outputs list their windows in the order of construction:
    by document, and within a document by window; no two windows of one
    output share [doc_id] and [window_id]. *)
Theorem windows_are_in_order :
  create_windows tokenizer split self documents window_size stride max_length
                 doc_topic is_split_into_words mentions
  = (Ok (windowed, blank), self') →
  StronglySorted window_before windowed ∧ StronglySorted window_before blank.
Proof.
  intros Hcall.
  apply create_windows_inv in Hcall as (-> & all & Hall & -> & ->).
  assert (StronglySorted window_before all) as Hsorted.
  { eapply (StronglySorted_Forall2 _ raw_before); [|exact Hall|].
    - intros s raw s' raw' Hs Hs' Hbefore.
      apply window_sample_Ok in Hs as (? & ? & ? & _ & _ & _ & ->).
      apply window_sample_Ok in Hs' as (? & ? & ? & _ & _ & _ & ->).
      unfold window_before. simpl. by eexists _, _, _, _.
    - apply raw_windows_sorted. unfold doc_iter, enumerate.
      apply enumerate_from_sorted. }
  split; by apply StronglySorted_filter_2.
Qed.

(** X10. The [doc_id] of a returned window is the position of its document
    in the list that was iterated, and its [text] is cut from that
    document: for a string, the characters from the window's [offset] to
    the end offset of its last token; for a list of words, the window's
    tokens joined by single spaces. *)
Theorem window_text_is_cut_from_its_document (s : Sample) :
  create_windows tokenizer split self documents window_size stride max_length
                 doc_topic is_split_into_words mentions
  = (Ok (windowed, blank), self') →
  s ∈ windowed ++ blank →
  ∃ (d w o e : Z) (document : PyDoc) (toks : list string) (t2c_end : dict string Z),
    doc_id s = Some d ∧ window_id s = Some w ∧ 0 ≤ d ∧ 0 ≤ w
    ∧ normalize documents is_split_into_words !! Z.to_nat d = Some document
    ∧ offset s = Some o ∧ tokens s = Some toks
    ∧ token2char_end s = Some t2c_end
    ∧ dict_get (str (len toks - 1)) t2c_end = Some e
    ∧ text s = Some match document with
                    | DStr doc => str_slice doc o e
                    | DList _ => join " " toks
                    end.
Proof.
  intros Hcall Hs.
  destruct (returned_built tokenizer split _ _ _ _ _ _ _ _ _ _ _ s Hcall Hs)
    as (raw & Hraw & Hbuilt).
  apply raw_windows_elem_of in Hraw as (item & Hitem & Hdoc & Hdocument & Hwid).
  apply doc_iter_lookup in Hitem as [Hd Hlookup].
  apply window_sample_Ok in Hbuilt as (w_first & w_last & sp & Hf & Hl & _ & ->).
  simpl.
  eexists raw.1.1.1.1, raw.1.2, (tok_idx w_first), (tok_end w_last),
          raw.1.1.1.2, _, _.
  do 2 (split; [done|]). split; [by rewrite Hdoc|]. split; [done|].
  split; [by rewrite Hdoc, Hdocument|]. do 3 (split; [done|]). split; [|done].
  assert (raw.2 !! (length raw.2 - 1)%nat = Some w_last) as Hlast.
  { rewrite last_lookup in Hl.
    by replace (length raw.2 - 1)%nat with (pred (length raw.2)) by lia. }
  assert (len (tok_text <$> raw.2) - 1 = Z.of_nat (length raw.2 - 1)) as ->.
  { apply lookup_lt_Some in Hlast. unfold len. rewrite length_fmap. lia. }
  apply (comprehension_get (λ iw, str iw.1) (λ iw, tok_end iw.2) _ _ w_last Hlast).
  intros j y _ Hkj Heq%str_inj. simpl in Heq. lia.
Qed.

(** X11. The two token-to-character maps of a returned window have one
    entry per token, under the keys [str(0)], ..., [str(len(tokens) - 1)]
    and no other, and the end offset stored for a token is its start offset
    plus the length of its text, so never before its start. *)
Theorem token_maps_cover_the_tokens (s : Sample) :
  create_windows tokenizer split self documents window_size stride max_length
                 doc_topic is_split_into_words mentions
  = (Ok (windowed, blank), self') →
  s ∈ windowed ++ blank →
  ∃ (toks : list string) (t2c_start t2c_end : dict string Z),
    tokens s = Some toks
    ∧ token2char_start s = Some t2c_start ∧ token2char_end s = Some t2c_end
    ∧ t2c_start.*1 = (λ k : nat, str (Z.of_nat k)) <$> seq 0 (length toks)
    ∧ t2c_end.*1 = (λ k : nat, str (Z.of_nat k)) <$> seq 0 (length toks)
    ∧ ∀ (k : nat) (tok : string), toks !! k = Some tok →
        ∃ a b : Z,
          dict_get (str (Z.of_nat k)) t2c_start = Some a
          ∧ dict_get (str (Z.of_nat k)) t2c_end = Some b
          ∧ b = a + str_len tok ∧ a ≤ b.
Proof.
  intros Hcall Hs.
  destruct (returned_built tokenizer split _ _ _ _ _ _ _ _ _ _ _ s Hcall Hs)
    as (raw & Hraw & Hbuilt).
  apply window_sample_Ok in Hbuilt as (w_first & w_last & sp & Hf & Hl & _ & ->).
  simpl. eexists _, _, _. do 3 (split; [done|]).
  assert (∀ vf : Z * Token → Z,
            (dict_update [] ((λ iw, (str iw.1, vf iw)) <$> enumerate raw.2)).*1
            = (λ k : nat, str (Z.of_nat k)) <$> seq 0 (length (tok_text <$> raw.2)))
    as Hkeys.
  { intros vf. rewrite dict_update_NoDup.
    2:{ rewrite <- list_fmap_compose. by apply enumerate_from_keys. }
    rewrite <- list_fmap_compose. apply list_eq. intros i.
    unfold enumerate. rewrite !list_lookup_fmap, enumerate_from_lookup.
    rewrite length_fmap.
    destruct (raw.2 !! i) as [tok|] eqn:Hi; simpl.
    - rewrite lookup_seq_lt by (by eapply lookup_lt_Some). simpl.
      by rewrite Z.add_0_l.
    - rewrite lookup_seq_ge by (by apply lookup_ge_None). done. }
  split; [apply Hkeys|]. split; [apply Hkeys|].
  intros k tok Hk. rewrite list_lookup_fmap in Hk.
  destruct (raw.2 !! k) as [t|] eqn:Ht; [|done]. injection Hk as <-.
  exists (tok_idx t), (tok_end t). split; [|split; [|split]].
  - apply (comprehension_get (λ iw, str iw.1) (λ iw, tok_idx iw.2) _ k t Ht).
    intros j y _ Hkj Heq%str_inj. simpl in Heq. lia.
  - apply (comprehension_get (λ iw, str iw.1) (λ iw, tok_end iw.2) _ k t Ht).
    intros j y _ Hkj Heq%str_inj. simpl in Heq. lia.
  - done.
  - unfold tok_end, str_len. lia.
Qed.

End CreateWindowsOrder.

(** X8 with a splitter that returns an empty group. *)
Lemma create_windows_raises_witness :
  (create_windows (Span := Ex.Span) (Score := Z) (Probs := Z)
     Ex.tokenizer Ex.empty_window Ex.splitter (DStr "A b")
     None None None None false None).1
  = Raise IndexError.
Proof.
  destruct (create_windows_raises (Span := Ex.Span) (Score := Z) (Probs := Z)
              Ex.tokenizer Ex.empty_window Ex.splitter (DStr "A b")
              None None None None false None)
    as (_ & Hempty & _); [done|].
  apply (Hempty (0, DStr "A b", [], 0, [])); [|by left].
  vm_compute. apply list_elem_of_here.
Defined.

(** X9 on the four windows of "A b" and "C d". *)
Lemma windows_are_in_order_witness :
  ∃ windowed : list Ex.Sample,
    (Ex.windows_of_A_b_C_d None None).1 = Ok (windowed, [])
    ∧ length windowed = 4%nat
    ∧ StronglySorted window_before windowed.
Proof.
  eassert (Ex.windows_of_A_b_C_d None None = (Ok ([_; _; _; _], []), _)) as Hcall
    by (vm_compute; reflexivity).
  destruct (windows_are_in_order _ _ _ _ _ _ _ _ _ _ _ _ _ Hcall) as [Hsorted _].
  eexists. split; [by rewrite Hcall|]. by split.
Defined.

(** X10 at the second window of "A b": its text is "b". *)
Lemma window_text_is_cut_from_its_document_witness :
  ∃ (s : Ex.Sample) (o e : Z),
    s ∈ Ex.returned Ex.windows_of_A_b
    ∧ doc_id s = Some 0 ∧ offset s = Some o
    ∧ text s = Some (str_slice "A b" o e) ∧ text s = Some "b".
Proof.
  eassert (Ex.windows_of_A_b = (Ok (_ :: _ :: _, _), _)) as Hcall
    by (vm_compute; reflexivity).
  destruct (window_text_is_cut_from_its_document _ _ _ _ _ _ _ _ _ _ _ _ _ _ Hcall
              (list_elem_of_further _ _ _ (list_elem_of_here _ _)))
    as (d & w & o & e & document & toks & t2c_end
        & Hd & _ & _ & _ & Hdoc & Ho & _ & _ & _ & Htext).
  injection Hd as <-. injection Hdoc as <-.
  eexists _, o, e.
  split; [vm_compute; apply list_elem_of_further, list_elem_of_here|].
  by repeat split.
Defined.

(** X11 at the same window. *)
Lemma token_maps_cover_the_tokens_witness :
  ∃ (s : Ex.Sample) (t2c_start t2c_end : dict string Z),
    s ∈ Ex.returned Ex.windows_of_A_b
    ∧ token2char_start s = Some t2c_start ∧ token2char_end s = Some t2c_end
    ∧ t2c_start.*1 = ["0"] ∧ t2c_end.*1 = ["0"]
    ∧ dict_get "0" t2c_start = Some 2 ∧ dict_get "0" t2c_end = Some 3.
Proof.
  eassert (Ex.windows_of_A_b = (Ok (_ :: _ :: _, _), _)) as Hcall
    by (vm_compute; reflexivity).
  destruct (token_maps_cover_the_tokens _ _ _ _ _ _ _ _ _ _ _ _ _ _ Hcall
              (list_elem_of_further _ _ _ (list_elem_of_here _ _)))
    as (toks & t2c_start & t2c_end & Htoks & Hs & He & Hks & Hke & _).
  injection Htoks as <-. injection Hs as <-. injection He as <-.
  eexists _, _, _.
  split; [vm_compute; apply list_elem_of_further, list_elem_of_here|].
  by repeat split.
Defined.

(** ** [merge_windows]: the groups *)

Lemma first_occurrences_snoc {A} `{EqDecision A} (l : list A) (x : A) :
  first_occurrences (l ++ [x])
  = if decide (x ∈ l) then first_occurrences l else first_occurrences l ++ [x].
Proof.
  induction l as [|a l IH].
  - destruct (decide (x ∈ [])) as [Hin|_]; [by apply elem_of_nil in Hin | done].
  - cbn [app first_occurrences]. rewrite IH.
    destruct (decide (x ∈ l)) as [Hin|Hnot], (decide (x ∈ a :: l)) as [Hin'|Hnot'].
    + done.
    + exfalso. apply Hnot'. by right.
    + apply elem_of_cons in Hin' as [->|?]; [|done].
      rewrite filter_app, filter_cons_False by (by intros ?).
      by rewrite filter_nil, app_nil_r.
    + rewrite not_elem_of_cons in Hnot'. destruct Hnot' as [Hne _].
      by rewrite filter_app, filter_cons_True by done.
Qed.

Lemma elem_of_first_occurrences {A} `{EqDecision A} (l : list A) (x : A) :
  x ∈ first_occurrences l ↔ x ∈ l.
Proof.
  induction l as [|a l IH] using rev_ind; [done|].
  rewrite first_occurrences_snoc. destruct (decide (a ∈ l)) as [Hin|Hnot].
  - rewrite IH, elem_of_app, list_elem_of_singleton. split; [tauto|].
    intros [?| ->]; done.
  - by rewrite !elem_of_app, IH.
Qed.

Lemma first_occurrences_NoDup {A} `{EqDecision A} (l : list A) :
  NoDup (first_occurrences l).
Proof.
  induction l as [|a l IH] using rev_ind; [constructor|].
  rewrite first_occurrences_snoc. destruct (decide (a ∈ l)) as [Hin|Hnot]; [exact IH|].
  apply NoDup_app. split; [exact IH|]. split; [|apply NoDup_singleton].
  intros x Hx ->%list_elem_of_singleton.
  by apply Hnot, (proj1 (elem_of_first_occurrences l a)).
Qed.

(** Case analysis on a decision that the goal makes. *)
Ltac goal_decide H :=
  match goal with
  | |- context [decide ?P] => destruct (decide P) as [H|H]
  end.

Lemma dict_set_keys {K V} `{EqDecision K} (k : K) (v : V) (d : dict K V) :
  (dict_set k v d).*1 = if decide (k ∈ d.*1) then d.*1 else d.*1 ++ [k].
Proof.
  induction d as [|[k0 v0] d IH]; csimpl; [done|].
  destruct (decide (k = k0)) as [->|Hne]; csimpl.
  - goal_decide Hin; [done|]. exfalso. apply Hin. by left.
  - rewrite IH. goal_decide Hin; goal_decide Hin'; try done.
    + exfalso. apply Hin'. by right.
    + apply elem_of_cons in Hin' as [?|?]; done.
Qed.

Lemma elem_of_dict_get {K V} `{EqDecision K} (k : K) (v : V) (d : dict K V) :
  NoDup d.*1 → (k, v) ∈ d → dict_get k d = Some v.
Proof.
  induction d as [|[k0 v0] d IH]; csimpl; [by intros _ ?%elem_of_nil|].
  intros [Hk0 Hnd]%NoDup_cons [[= -> ->]|Hin]%elem_of_cons.
  - by rewrite decide_True.
  - rewrite decide_False; [by apply IH|].
    intros ->. apply Hk0, list_elem_of_fmap. by exists (k0, v).
Qed.

Section Grouping.
Context {Span Score Probs : Type}.
Abbreviation Sample := (RelikReaderSample Span Score Probs).

Lemma group_by_doc_id_snoc (windows : list Sample) (w : Sample) :
  group_by_doc_id (windows ++ [w])
  = dict_set (doc_id w)
      (default [] (dict_get (doc_id w) (group_by_doc_id windows)) ++ [w])
      (group_by_doc_id windows).
Proof. unfold group_by_doc_id. by rewrite fold_left_app. Qed.

Lemma group_by_doc_id_keys (windows : list Sample) :
  (group_by_doc_id windows).*1 = first_occurrences (doc_id <$> windows).
Proof.
  induction windows as [|w windows IH] using rev_ind; [done|].
  rewrite group_by_doc_id_snoc, dict_set_keys, fmap_app.
  change (doc_id <$> [w]) with [doc_id w]. rewrite first_occurrences_snoc, IH.
  goal_decide Hin; goal_decide Hin'; try done.
  - exfalso. by apply Hin', (proj1 (elem_of_first_occurrences _ _)).
  - exfalso. by apply Hin, (proj2 (elem_of_first_occurrences _ _)).
Qed.

Lemma filter_none {A} (P : A → Prop) `{∀ x, Decision (P x)} (l : list A) :
  (∀ x, x ∈ l → ¬ P x) → filter P l = [].
Proof.
  induction l as [|a l IH]; intros Hl; [done|].
  rewrite filter_cons_False by (apply Hl; by left).
  apply IH. intros x Hx. apply Hl. by right.
Qed.

Lemma group_by_doc_id_get (windows : list Sample) (d : option Z) :
  dict_get d (group_by_doc_id windows)
  = if decide (d ∈ doc_id <$> windows)
    then Some (filter (λ w, doc_id w = d) windows)
    else None.
Proof.
  induction windows as [|w windows IH] using rev_ind; [done|].
  rewrite group_by_doc_id_snoc, dict_get_set, fmap_app, filter_app.
  change (doc_id <$> [w]) with [doc_id w].
  destruct (decide (d = doc_id w)) as [->|Hne].
  - rewrite IH. rewrite filter_cons_True by done. rewrite filter_nil.
    destruct (decide (doc_id w ∈ doc_id <$> windows)) as [Hin|Hnot];
      (goal_decide Hin'; [|exfalso; apply Hin'; rewrite elem_of_app; right; by left]).
    + done.
    + csimpl. f_equal. rewrite filter_none; [done|].
      intros x Hx Heq. apply Hnot, list_elem_of_fmap. by exists x.
  - rewrite IH. rewrite filter_cons_False by done. rewrite filter_nil, app_nil_r.
    goal_decide Hin; goal_decide Hin'; try done.
    + exfalso. apply Hin'. rewrite elem_of_app. by left.
    + exfalso. apply elem_of_app in Hin' as [?|Hw%list_elem_of_singleton]; done.
Qed.

Lemma group_by_doc_id_NoDup (windows : list Sample) :
  NoDup (group_by_doc_id windows).*1.
Proof. rewrite group_by_doc_id_keys. apply first_occurrences_NoDup. Qed.

Lemma group_by_doc_id_group (windows : list Sample) (d : option Z)
    (g : list Sample) :
  (d, g) ∈ group_by_doc_id windows
  ↔ d ∈ doc_id <$> windows ∧ g = filter (λ w, doc_id w = d) windows.
Proof.
  pose proof (group_by_doc_id_get windows d) as Hget. split.
  - intros Hin. apply elem_of_dict_get in Hin; [|apply group_by_doc_id_NoDup].
    rewrite Hin in Hget.
    by destruct (decide (d ∈ doc_id <$> windows)); [injection Hget as ->|].
  - intros [Hd ->]. apply dict_get_elem_of.
    rewrite Hget. by rewrite decide_True.
Qed.

(** X12. [merge_windows] groups the windows by [doc_id]: there is one
    group per distinct [doc_id], the groups come in the order in which
    their [doc_id] first occurs, and each holds the windows of its document
    in the order of the input. *)
Theorem windows_are_grouped_by_document (windows : list Sample) :
  (group_by_doc_id windows).*1 = first_occurrences (doc_id <$> windows)
  ∧ NoDup (group_by_doc_id windows).*1
  ∧ ∀ d g, (d, g) ∈ group_by_doc_id windows
           ↔ d ∈ doc_id <$> windows ∧ g = filter (λ w, doc_id w = d) windows.
Proof.
  split; [apply group_by_doc_id_keys|]. split; [apply group_by_doc_id_NoDup|].
  apply group_by_doc_id_group.
Qed.

End Grouping.

(** ** [_merge_doc_windows] and [merge_windows]: documents *)

Lemma StronglySorted_unique {A} (R : relation A) (l1 l2 : list A) :
  (∀ x, ¬ R x x) → (∀ x y z, R x y → R y z → R x z) →
  StronglySorted R l1 → StronglySorted R l2 →
  (∀ x, x ∈ l1 ↔ x ∈ l2) → l1 = l2.
Proof.
  intros Hirr Htrans Hs1. revert l2.
  induction Hs1 as [|x l1 Hs1 IH Hx]; intros l2 Hs2 Hsame.
  - destruct l2 as [|y l2]; [done|].
    exfalso. eapply elem_of_nil, Hsame. by left.
  - destruct Hs2 as [|y l2 Hs2 Hy].
    { exfalso. eapply elem_of_nil, Hsame. by left. }
    rewrite Forall_forall in Hx. rewrite Forall_forall in Hy.
    assert (x = y) as ->.
    { assert (x ∈ y :: l2) as [->|Hxin]%elem_of_cons by (apply Hsame; by left);
        [done|].
      assert (y ∈ x :: l1) as [->|Hyin]%elem_of_cons by (apply Hsame; by left);
        [done|].
      exfalso. apply (Hirr x). eapply Htrans; [by apply Hx | by apply Hy]. }
    f_equal. apply IH; [done|]. intros z. split; intros Hz.
    + assert (z ∈ y :: l2) as [->|?]%elem_of_cons
        by (apply Hsame; by right); [|done].
      exfalso. by apply (Hirr y), Hx.
    + assert (z ∈ y :: l1) as [->|?]%elem_of_cons
        by (apply Hsame; by right); [|done].
      exfalso. by apply (Hirr y), Hy.
Qed.

Section SortedByUnique.
Context {A B : Type} `{PyOrdLaws A}.
Variable key : B → A.

(** With pairwise distinct keys, the sorted list is in strictly increasing
    key order. *)
Lemma sorted_by_strict (l : list B) :
  NoDup (key <$> l) →
  StronglySorted (λ x y, py_lt (key x) (key y)) (sorted_by key l).
Proof.
  intros Hnd.
  assert (NoDup (key <$> sorted_by key l)) as Hnd'.
  { by rewrite sorted_by_Permutation. }
  pose proof (sorted_by_sorted key l) as Hsorted.
  induction Hsorted as [|x l' Hl' IH Hx]; [constructor|].
  csimpl in Hnd'. apply NoDup_cons in Hnd' as [Hnot Hnd'].
  constructor; [by apply IH|]. apply Forall_forall. intros y Hy.
  rewrite Forall_forall in Hx. specialize (Hx _ Hy). unfold key_le in Hx.
  unfold py_lt. destruct (py_cmp (key x) (key y)) eqn:Hcmp; [|done|done].
  exfalso. apply py_cmp_eq in Hcmp. apply Hnot. rewrite Hcmp.
  apply list_elem_of_fmap. by exists y.
Qed.

(** [sorted] forgets the order of its input when the keys are pairwise
    distinct. *)
Lemma sorted_by_Permutation_eq (l1 l2 : list B) :
  l1 ≡ₚ l2 → NoDup (key <$> l1) → sorted_by key l1 = sorted_by key l2.
Proof.
  intros Hperm Hnd.
  apply (StronglySorted_unique (λ x y, py_lt (key x) (key y))).
  - intros x. apply py_lt_irrefl.
  - intros x y z. apply py_lt_trans.
  - by apply sorted_by_strict.
  - apply sorted_by_strict. by rewrite <- Hperm.
  - intros x. by rewrite !elem_of_sorted_by, Hperm.
Qed.

End SortedByUnique.

Lemma last_cons_default {A} (x : A) (l : list A) :
  last (x :: l) = Some (default x (last l)).
Proof.
  revert x. induction l as [|y l IH]; intros x; [done|].
  by rewrite last_cons_cons, IH.
Qed.

Lemma StronglySorted_lt_last (x : Z) (l : list Z) :
  StronglySorted Z.lt (x :: l) →
  ∀ y, y ∈ x :: l → y ≤ default x (last l).
Proof.
  revert x. induction l as [|z l IH]; intros x Hs y Hy.
  - apply list_elem_of_singleton in Hy as ->. simpl. lia.
  - apply StronglySorted_inv in Hs as [Hs Hx].
    rewrite last_cons_default. simpl.
    apply elem_of_cons in Hy as [->|Hy].
    + apply Forall_cons in Hx as [Hxz _].
      pose proof (IH z Hs z ltac:(by left)). lia.
    + by apply IH.
Qed.

Section MergeDocuments.
Context {Span Score Probs Cand : Type}.
Context `{EqDecision Span, PyOrd Span, EqDecision Score, PyOrd Score}.
Context `{EqDecision Cand}.

Abbreviation Sample := (RelikReaderSample Span Score Probs).
Abbreviation Store := (@Store Cand).

Lemma check_pair_Ok (window1 window2 : Sample) :
  check_pair window1 window2 = Ok tt →
  (∀ d, doc_id window1 = Some d → doc_id window2 = Some d)
  ∧ (∀ o, offset window1 = Some o → ∃ o', offset window2 = Some o' ∧ o < o').
Proof.
  unfold check_pair. intros Hcheck. apply bind_Ok in Hcheck as ([] & Hdoc & Hoff).
  split.
  - intros d Hd. rewrite Hd in Hdoc. unfold py_assert in Hdoc.
    by case_bool_decide.
  - intros o Ho. rewrite Ho in Hoff.
    destruct (offset window2) as [o'|]; [|done]. exists o'. split; [done|].
    unfold py_assert in Hoff. destruct (Z.ltb_spec o o'); [done | done].
Qed.

(** The loop of [_merge_doc_windows]: what a successful run tells about the
    windows it went through. *)
Lemma merge_fold_Ok (acc : Sample) (rest : list Sample) (st st' : Store)
    (m : Sample) :
  merge_fold acc rest st = (Ok m, st') →
  doc_id m = doc_id acc
  ∧ (is_Some (doc_id acc) → Forall (λ n, doc_id n = doc_id acc) rest)
  ∧ ∀ oa, offset acc = Some oa →
      ∃ os : list Z,
        offset <$> rest = Some <$> os
        ∧ StronglySorted Z.lt (oa :: os)
        ∧ offset m = Some (default oa (last os)).
Proof.
  revert acc st. induction rest as [|n rest IH]; intros acc st; simpl.
  - intros [= <- <-]. split; [done|]. split; [by constructor|].
    intros oa Hoa. exists []. split; [done|]. split; [|done]. repeat constructor.
  - intros Hrun. apply bindM_Ok in Hrun as (acc1 & st1 & Hpair & Hrun).
    apply merge_window_pair_Ok in Hpair as (Hcheck & Hdoc & Hoff & _).
    apply check_pair_Ok in Hcheck as [Hdocs Hoffs].
    destruct (IH _ _ Hrun) as (Hm & Hrest & Hos). split; [congruence|]. split.
    + intros [d Hd]. constructor; [rewrite Hd; by apply Hdocs|].
      rewrite <- Hdoc. apply Hrest. rewrite Hdoc. by eexists.
    + intros oa Hoa. destruct (Hoffs _ Hoa) as (ob & Hob & Hlt).
      destruct (Hos ob) as (os & Heq & Hsorted & Hlast); [congruence|].
      exists (ob :: os). split; [csimpl; by rewrite Hob, Heq|]. split.
      * constructor; [done|]. constructor; [done|].
        apply StronglySorted_inv in Hsorted as [_ Hall].
        eapply Forall_impl; [exact Hall|]. simpl. lia.
      * rewrite last_cons_default. done.
Qed.

(** The windows are sorted on their offsets, which all must have. *)
Lemma sort_by_offset_Ok (windows sorted : list Sample) :
  sort_by_offset windows = Ok sorted →
  ∃ keyed : list (Z * Sample),
    keyed.*2 = windows
    ∧ Forall (λ ow, offset ow.2 = Some ow.1) keyed
    ∧ sorted = (sorted_by fst keyed).*2.
Proof.
  unfold sort_by_offset. intros Hsort.
  apply bind_Ok in Hsort as (keyed & Hkeyed & Hsort). injection Hsort as <-.
  exists keyed. split; [|split; [|done]].
  - revert keyed Hkeyed. induction windows as [|w windows IH]; intros keyed; simpl.
    + by intros [= <-].
    + intros Hmap. apply bind_Ok in Hmap as ([o w'] & Hk & Hmap).
      apply bind_Ok in Hmap as (rest & Hrest & Hmap). injection Hmap as <-.
      apply bind_Ok in Hk as (o' & _ & Hk). injection Hk as -> ->.
      csimpl. f_equal. by apply IH.
  - revert keyed Hkeyed. induction windows as [|w windows IH]; intros keyed; simpl.
    + intros [= <-]. constructor.
    + intros Hmap. apply bind_Ok in Hmap as ([o w'] & Hk & Hmap).
      apply bind_Ok in Hmap as (rest & Hrest & Hmap). injection Hmap as <-.
      apply bind_Ok in Hk as (o' & Ho'%require_Ok & Hk). injection Hk as -> ->.
      constructor; [done | by apply IH].
Qed.

Lemma sort_by_offset_Some (windows : list Sample) :
  Forall (λ w, is_Some (offset w)) windows →
  sort_by_offset windows
  = Ok ((sorted_by fst ((λ w, (default 0 (offset w), w)) <$> windows)).*2).
Proof.
  intros Hall. unfold sort_by_offset.
  assert (mapM (λ w : Sample, o ← require TypeError (offset w); Ok (o, w)) windows
          = Ok ((λ w, (default 0 (offset w), w)) <$> windows)) as ->; [|done].
  induction Hall as [|w windows [o Ho] _ IH]; simpl; [done|].
  rewrite Ho, IH. done.
Qed.

(** X13. A document of two windows or more, the first of which has an
    offset, merges only if every window has an offset and no two offsets
    are equal; the merged window then carries the largest of the offsets,
    and the [doc_id] of the window of smallest offset, which, when it is
    not [None], is the [doc_id] of every window. *)
Theorem merged_document (windows : list Sample) (w0 w1 : Sample)
    (rest : list Sample) (st st' : Store) (m : Sample) :
  windows = w0 :: w1 :: rest →
  is_Some (offset w0) →
  _merge_doc_windows windows st = (Ok m, st') →
  NoDup (offset <$> windows)
  ∧ (∃ last_window om,
       last_window ∈ windows ∧ offset last_window = Some om
       ∧ offset m = Some om
       ∧ ∀ w, w ∈ windows → ∃ o, offset w = Some o ∧ o ≤ om)
  ∧ (∃ first_window o0,
       first_window ∈ windows ∧ offset first_window = Some o0
       ∧ (∀ w o, w ∈ windows → offset w = Some o → o0 ≤ o)
       ∧ doc_id m = doc_id first_window
       ∧ (is_Some (doc_id first_window) →
          ∀ w, w ∈ windows → doc_id w = doc_id first_window)).
Proof.
  intros -> Hw0 Hrun. unfold _merge_doc_windows in Hrun.
  rewrite bool_decide_eq_true_2 in Hrun by done.
  apply bindM_Ok in Hrun as (sorted & st1 & [Hsort ->]%lift_Ok & Hrun).
  apply sort_by_offset_Ok in Hsort as (keyed & Hsnd & Hkeys & ->).
  set (windows := w0 :: w1 :: rest) in *.
  assert ((sorted_by fst keyed).*2 ≡ₚ windows) as Hperm.
  { by rewrite sorted_by_Permutation, Hsnd. }
  destruct ((sorted_by fst keyed).*2) as [|s0 srest] eqn:Hsorted; [done|].
  assert (∃ o0, offset s0 = Some o0) as [o0 Ho0].
  { assert (s0 ∈ keyed.*2) as Hin.
    { rewrite Hsnd, <- Hperm. by left. }
    apply list_elem_of_fmap in Hin as ([o w] & -> & Hin).
    rewrite Forall_forall in Hkeys. exists o. by apply (Hkeys _ Hin). }
  apply merge_fold_Ok in Hrun as (Hdoc & Hdocs & Hos).
  destruct (Hos _ Ho0) as (os & Heq & Hlt & Hlast).
  assert (offset <$> windows ≡ₚ Some <$> (o0 :: os)) as Hoffsets.
  { rewrite <- Hperm. csimpl. by rewrite Ho0, Heq. }
  split; [|split].
  - rewrite Hoffsets. apply (NoDup_fmap_2 _).
    apply (sorted_NoDup (A := Z)), Hlt.
  - set (om := default o0 (last os)).
    assert (Some om ∈ offset <$> windows) as Hom.
    { rewrite Hoffsets. apply list_elem_of_fmap. exists om. split; [done|].
      apply (list_elem_of_lookup_2 _ (pred (length (o0 :: os)))).
      rewrite <- last_lookup. apply last_cons_default. }
    apply list_elem_of_fmap in Hom as (lw & Hlw & Hin).
    exists lw, om. do 3 (split; [done|]).
    intros w Hw.
    assert (offset w ∈ Some <$> (o0 :: os)) as Hoff.
    { rewrite <- Hoffsets. apply list_elem_of_fmap. by exists w. }
    apply list_elem_of_fmap in Hoff as (o & Ho & Hoin).
    exists o. split; [done|]. by apply StronglySorted_lt_last.
  - exists s0, o0.
    assert (s0 ∈ windows) as Hs0 by (rewrite <- Hperm; by left).
    do 2 (split; [done|]). split; [|split; [done|]].
    + intros w o Hw Ho.
      assert (Some o ∈ Some <$> (o0 :: os)) as Hoff.
      { rewrite <- Hoffsets, <- Ho. apply list_elem_of_fmap. by exists w. }
      apply list_elem_of_fmap in Hoff as (o' & [= <-] & [->|Hoin]%elem_of_cons); [lia|].
      apply StronglySorted_inv in Hlt as [_ Hall]. rewrite Forall_forall in Hall.
      specialize (Hall _ Hoin). lia.
    + intros Hsome w Hw. rewrite <- Hperm in Hw.
      apply elem_of_cons in Hw as [->|Hw]; [done|].
      specialize (Hdocs Hsome). rewrite Forall_forall in Hdocs. by apply Hdocs.
Qed.

Lemma merge_doc_windows_doc_id (d : option Z) (g : list Sample) (st st' : Store)
    (m : Sample) :
  (∀ w, w ∈ g → doc_id w = d) →
  _merge_doc_windows g st = (Ok m, st') → doc_id m = d.
Proof.
  intros Hg Hrun. unfold _merge_doc_windows in Hrun.
  destruct g as [|w0 [|w1 g]].
  - by apply bindM_Ok in Hrun as (sorted & st1 & [[= <-] ->]%lift_Ok & Hrun).
  - injection Hrun as <- <-. apply Hg. by left.
  - apply bindM_Ok in Hrun as (sorted & st1 & [Hsort ->]%lift_Ok & Hrun).
    assert (∀ w, w ∈ sorted → doc_id w = d) as Hsorted.
    { intros w Hw. apply Hg. case_bool_decide.
      - by eapply sort_by_offset_elem_of.
      - by injection Hsort as <-. }
    destruct sorted as [|s0 srest]; [done|].
    apply merge_fold_Ok in Hrun as (-> & _). apply Hsorted. by left.
Qed.

Lemma merge_groups_Ok (groups : list (option Z * list Sample)) (st st' : Store)
    (res : list Sample) :
  merge_groups groups st = (Ok res, st') →
  Forall2 (λ dg m, ∃ st1 st2 : Store, _merge_doc_windows dg.2 st1 = (Ok m, st2))
          groups res.
Proof.
  revert st res. induction groups as [|[d g] groups IH]; intros st res; simpl.
  - intros [= <- <-]. constructor.
  - intros Hrun. apply bindM_Ok in Hrun as (m & st1 & Hm & Hrun).
    apply bindM_Ok in Hrun as (others & st2 & Hothers & Hrun).
    injection Hrun as <- <-. constructor; [by exists st, st1 | by eapply IH].
Qed.

(** X14. [merge_windows] returns one window per distinct [doc_id] of its
    input, carrying that [doc_id], in the order in which the documents
    first occur among the windows. *)
Theorem merge_windows_one_per_document (windows res : list Sample)
    (st st' : Store) :
  merge_windows windows st = (Ok res, st') →
  doc_id <$> res = first_occurrences (doc_id <$> windows).
Proof.
  unfold merge_windows. intros Hrun%merge_groups_Ok.
  rewrite <- group_by_doc_id_keys.
  assert (∀ d g w, (d, g) ∈ group_by_doc_id windows → w ∈ g → doc_id w = d)
    as Hgroups.
  { intros d g w Hin Hw.
    apply group_by_doc_id_group in Hin as [_ ->].
    by apply list_elem_of_filter in Hw as [? _]. }
  induction Hrun as [|[d g] m groups res (st1 & st2 & Hm) _ IH]; [done|].
  csimpl. f_equal.
  - eapply merge_doc_windows_doc_id; [|exact Hm].
    intros w Hw. eapply Hgroups; [by left | done].
  - apply IH. intros d' g' w Hin. apply Hgroups. by right.
Qed.

Lemma group_by_doc_id_singletons (windows : list Sample) :
  NoDup (doc_id <$> windows) →
  group_by_doc_id windows = (λ w, (doc_id w, [w])) <$> windows.
Proof.
  induction windows as [|w windows IH] using rev_ind; [done|].
  rewrite fmap_app, NoDup_app. intros (Hnd & Hdisj & _).
  assert (doc_id w ∉ doc_id <$> windows) as Hnot.
  { intros Hin. apply (Hdisj _ Hin). by left. }
  rewrite group_by_doc_id_snoc, group_by_doc_id_get, decide_False by done.
  rewrite dict_set_fresh.
  - by rewrite IH, fmap_app.
  - by rewrite group_by_doc_id_keys, elem_of_first_occurrences.
Qed.

(** X15. Windows of pairwise distinct [doc_id] pass through
    [merge_windows] as they are, in their order: nothing is merged, nothing
    can fail, and the store is left alone. *)
Theorem merge_windows_keeps_single_windows (windows : list Sample) (st : Store) :
  NoDup (doc_id <$> windows) →
  merge_windows windows st = (Ok windows, st).
Proof.
  intros Hnd. unfold merge_windows. rewrite group_by_doc_id_singletons by done.
  clear Hnd. induction windows as [|w windows IH]; [done|].
  csimpl. unfold mbind, M_bind, bindM. simpl. by rewrite IH.
Qed.

(** X16. The merge of a document does not depend on the order in which its
    windows are given, when every window has an offset and no two offsets
    are equal: the windows are sorted before anything is merged. *)
Theorem merge_doc_windows_any_order (windows1 windows2 : list Sample) (st : Store) :
  windows1 ≡ₚ windows2 →
  Forall (λ w, is_Some (offset w)) windows1 →
  NoDup (offset <$> windows1) →
  _merge_doc_windows windows1 st = _merge_doc_windows windows2 st.
Proof.
  intros Hperm Hoff Hnd.
  assert (Forall (λ w : Sample, is_Some (offset w)) windows2) as Hoff2
    by (by rewrite <- Hperm).
  assert (sort_by_offset windows1 = sort_by_offset windows2) as Hsort.
  { rewrite !sort_by_offset_Some by done. do 2 f_equal.
    apply (sorted_by_Permutation_eq (A := Z)); [by apply fmap_Permutation|].
    rewrite <- list_fmap_compose. 
    assert ((fst ∘ (λ w : Sample, (default 0 (offset w), w))) <$> windows1
            = default 0 <$> (offset <$> windows1)) as ->.
    { by rewrite <- list_fmap_compose. }
    apply NoDup_fmap_2_strong; [|done].
    intros o1 o2 Ho1 Ho2 Heq.
    apply list_elem_of_fmap in Ho1 as (w1 & -> & Hw1).
    apply list_elem_of_fmap in Ho2 as (w2 & -> & Hw2).
    rewrite Forall_forall in Hoff.
    destruct (Hoff _ Hw1) as [a Ha], (Hoff _ Hw2) as [b Hb].
    rewrite Ha, Hb in *. simpl in Heq. by subst. }
  destruct windows1 as [|a [|a' windows1]].
  - by apply Permutation_nil_l in Hperm as ->.
  - by apply Permutation_singleton_l in Hperm as ->.
  - destruct windows2 as [|b [|b' windows2]].
    + by apply Permutation_nil_r in Hperm.
    + by apply Permutation_singleton_r in Hperm.
    + unfold _merge_doc_windows.
      apply Forall_cons in Hoff as [Ha _]. apply Forall_cons in Hoff2 as [Hb _].
      rewrite !bool_decide_eq_true_2 by done. by rewrite Hsort.
Qed.

End MergeDocuments.

(** X13 on the two windows of "the cat sat down", given in the wrong
    order. *)
Lemma merged_document_witness :
  ∃ (m : Ex.Sample) (st' : list (list string)),
    _merge_doc_windows [Ex.cat_sat_down; Ex.the_cat_sat] Ex.store = (Ok m, st')
    ∧ offset m = Some 4 ∧ doc_id m = Some 0.
Proof.
  eassert (_merge_doc_windows [Ex.cat_sat_down; Ex.the_cat_sat] Ex.store
           = (Ok _, _)) as Hrun by (vm_compute; reflexivity).
  destruct (merged_document (Span := Ex.Span) (Score := Z) (Probs := Z)
              (Cand := string) [Ex.cat_sat_down; Ex.the_cat_sat] _ _ _ _ _ _
              eq_refl (mk_is_Some _ _ eq_refl) Hrun)
    as (_ & (lw & om & _ & _ & Hom & _) & _).
  eexists _, _. split; [exact Hrun|]. by split.
Defined.

(** X14 on three windows of two documents. *)
Lemma merge_windows_one_per_document_witness :
  ∃ (res : list Ex.Sample) (st' : list (list string)),
    merge_windows [Ex.the_cat_sat; Ex.a_dog; Ex.cat_sat_down] Ex.store
    = (Ok res, st')
    ∧ doc_id <$> res = [Some 0; Some 1].
Proof.
  eassert (merge_windows [Ex.the_cat_sat; Ex.a_dog; Ex.cat_sat_down] Ex.store
           = (Ok _, _)) as Hrun by (vm_compute; reflexivity).
  pose proof (merge_windows_one_per_document (Span := Ex.Span) (Score := Z)
                (Probs := Z) (Cand := string) _ _ _ _ Hrun) as Hdocs.
  eexists _, _. split; [exact Hrun|]. exact Hdocs.
Defined.

(** X15 on two windows of two documents. *)
Lemma merge_windows_keeps_single_windows_witness :
  merge_windows [Ex.the_cat_sat; Ex.a_dog] Ex.store
  = (Ok [Ex.the_cat_sat; Ex.a_dog], Ex.store).
Proof.
  apply (merge_windows_keeps_single_windows (Span := Ex.Span) (Score := Z)
           (Probs := Z) (Cand := string)).
  simpl. apply NoDup_cons. split; [|apply NoDup_singleton].
  by intros [=]%list_elem_of_singleton.
Defined.

(** X16 on the two windows of "the cat sat down", in both orders. *)
Lemma merge_doc_windows_any_order_witness :
  _merge_doc_windows [Ex.cat_sat_down; Ex.the_cat_sat] Ex.store
  = _merge_doc_windows [Ex.the_cat_sat; Ex.cat_sat_down] Ex.store.
Proof.
  apply (merge_doc_windows_any_order (Span := Ex.Span) (Score := Z)
           (Probs := Z) (Cand := string)).
  - apply Permutation_swap.
  - repeat constructor; by eexists.
  - simpl. apply NoDup_cons. split; [|apply NoDup_singleton].
    by intros [=]%list_elem_of_singleton.
Defined.

(** ** [_merge_candidates]: the merged lists *)

Section Candidates.
Context {Span Score Probs Cand : Type}.
Context `{EqDecision Cand}.
Abbreviation Sample := (RelikReaderSample Span Score Probs).
Abbreviation Store := (@Store Cand).
Abbreviation M := (@M Cand).

Lemma bindM_run {A B} (m : M A) (k : A → M B) (s s1 : Store) (a : A) :
  m s = (Ok a, s1) → (m ≫= k) s = k a s1.
Proof. unfold mbind, M_bind, bindM. by intros ->. Qed.

Lemma length_extended (x : loc) (f1 f2 : option loc) (s : Store) :
  length (extended x f1 f2 s) = length s.
Proof. unfold extended. destruct f2; [apply length_insert | done]. Qed.

Lemma lookup_extended (x : loc) (f1 f2 : option loc) (s : Store) (r : loc) :
  (default x f1 < length s)%nat →
  extended x f1 f2 s !! r
  = if decide (r = default x f1)
    then Some (contents s (Some r) ++ contents s f2)
    else s !! r.
Proof.
  intros Hlt. unfold extended, Store in *.
  destruct (decide (r = default x f1)) as [->|Hne].
  - destruct f2 as [r2|].
    + by rewrite list_lookup_insert_eq.
    + destruct (lookup_lt_is_Some_2 s _ Hlt) as [l Hl].
      unfold contents, Store, loc in *. rewrite Hl. simpl. by rewrite app_nil_r.
  - destruct f2 as [r2|]; [|done]. by rewrite list_lookup_insert_ne.
Qed.

Lemma merge_candidate_field_run (x : loc) (f1 f2 : option loc) (s : Store) :
  (default x f1 < length s)%nat →
  (∀ r2, f2 = Some r2 → (r2 < length s)%nat) →
  merge_candidate_field x f1 f2 s = (Ok (default x f1), extended x f1 f2 s).
Proof.
  intros Hx Hf2. unfold merge_candidate_field, extended.
  destruct f2 as [r2|]; [|done].
  destruct (lookup_lt_is_Some_2 s r2 (Hf2 _ eq_refl)) as [items Hitems].
  destruct (lookup_lt_is_Some_2 s _ Hx) as [l Hl].
  unfold mbind, M_bind, bindM, read, extend, ret, contents, Store, loc in *.
  by rewrite Hitems, Hl.
Qed.

Lemma make_unique_run (x : loc) (s : Store) :
  (x < length s)%nat →
  make_unique x s = (Ok (length s), s ++ [list_of_set (contents s (Some x))]).
Proof.
  intros Hx. destruct (lookup_lt_is_Some_2 s x Hx) as [l Hl].
  unfold make_unique, mbind, M_bind, bindM, read, alloc, contents, Store, loc in *.
  by rewrite Hl.
Qed.

Lemma target_bound (n x : nat) (f1 : option loc) :
  (∀ r, f1 = Some r → (r < n)%nat) → (n ≤ x)%nat → (default x f1 ≤ x)%nat.
Proof. intros Hf1 Hx. destruct f1 as [r|]; simpl; [specialize (Hf1 r eq_refl)|]; lia. Qed.

Lemma contents_app_nil (s : Store) (F : option loc) :
  contents (s ++ [[]]) F = contents s F.
Proof.
  destruct F as [r|]; [|done]. unfold contents, Store, loc in *.
  destruct (decide (r < length s)%nat) as [Hlt|Hge].
  - by rewrite lookup_app_l.
  - rewrite lookup_app_r by lia. rewrite (lookup_ge_None_2 s) by lia.
    by destruct (r - length s)%nat as [|[|?]].
Qed.

Lemma contents_app_valid (s k : Store) (F : option loc) :
  (∀ r, F = Some r → (r < length s)%nat) → contents (s ++ k) F = contents s F.
Proof.
  destruct F as [r|]; [|done]. intros Hr. unfold contents, Store, loc in *.
  by rewrite lookup_app_l by (by apply Hr).
Qed.

Lemma contents_extended_ne (x : loc) (f1 f2 : option loc) (s : Store)
    (F : option loc) :
  (default x f1 < length s)%nat → F ≠ Some (default x f1) →
  contents (extended x f1 f2 s) F = contents s F.
Proof.
  intros Hlt Hne. destruct F as [r|]; [|done]. unfold contents at 1.
  rewrite lookup_extended by done. rewrite decide_False by congruence. done.
Qed.

Lemma contents_extended_eq (x : loc) (f1 f2 : option loc) (s : Store) :
  (default x f1 < length s)%nat →
  contents (extended x f1 f2 s) (Some (default x f1))
  = contents s (Some (default x f1)) ++ contents s f2.
Proof.
  intros Hlt. unfold contents at 1.
  rewrite lookup_extended by done. by rewrite decide_True.
Qed.

Lemma lookup_contents (s : Store) (r : loc) :
  (r < length s)%nat → s !! r = Some (contents s (Some r)).
Proof.
  intros Hr. destruct (lookup_lt_is_Some_2 s r Hr) as [l Hl].
  unfold contents, Store, loc in *. by rewrite Hl.
Qed.

Lemma contents_target (st : Store) (x : loc) (f1 : option loc) :
  (length st ≤ x)%nat → contents st (Some (default x f1)) = contents st f1.
Proof.
  intros Hx. destruct f1 as [r|]; [done|]. unfold contents, Store, loc in *.
  simpl. by rewrite lookup_ge_None_2.
Qed.

(** From the store [s] reached before the lists are made unique to the
    statement on one field, whose list is [t] in [s] and [c] at the end. *)
Lemma merged_list_intro (st s final : Store) (f1 f2 : option loc) (t c : loc) :
  contents s (Some t) = contents st f1 ++ contents st f2 →
  (∀ r1, f1 = Some r1 → r1 = t) →
  (t < length s)%nat →
  (∀ r2, f2 = Some r2 → (r2 < length st)%nat ∧ contents s f2 = contents st f2) →
  (length st ≤ length s)%nat →
  (length st ≤ c)%nat →
  final !! c = Some (list_of_set (contents s (Some t))) →
  (∀ r, (r < length s)%nat → final !! r = s !! r) →
  merged_list st final f1 f2 c.
Proof.
  intros Ht Hf1 Hlt Hf2 Hlen Hc Hfinal Hsame. split; [done|]. split; [|split].
  - exists (list_of_set (contents s (Some t))). split; [done|].
    split; [apply NoDup_remove_dups|].
    intros x. unfold list_of_set. by rewrite elem_of_remove_dups, Ht, elem_of_app.
  - intros r1 Hr1. rewrite (Hf1 _ Hr1), Hsame by done.
    by rewrite lookup_contents, Ht.
  - intros r2 Hr2. destruct (Hf2 _ Hr2) as [Hlt2 Hsame2].
    rewrite Hsame by lia. rewrite !lookup_contents by lia.
    by rewrite <- Hr2, Hsame2.
Qed.

(** X17. When the candidate lists of the two windows exist in the store
    and are pairwise distinct objects, [_merge_candidates] returns, for each
    of the four fields, a new list holding the candidates of both windows,
    each once (a field that is [None] counts as empty); on the way the
    first window's own list has been extended in place by the second's,
    whose list is left as it was. *)
Theorem merged_candidates (window1 window2 : Sample) (st : Store) :
  NoDup (refs window1 ++ refs window2) →
  (∀ r, r ∈ refs window1 ++ refs window2 → (r < length st)%nat) →
  ∃ (c wc sc tc : loc) (st' : Store),
    _merge_candidates window1 window2 st = (Ok (c, wc, sc, tc), st')
    ∧ merged_list st st' (candidates window1) (candidates window2) c
    ∧ merged_list st st' (windows_candidates window1) (windows_candidates window2) wc
    ∧ merged_list st st' (span_candidates window1) (span_candidates window2) sc
    ∧ merged_list st st' (triplet_candidates window1) (triplet_candidates window2) tc.
Proof.
  intros Hnd Hvalid. set (n := length st).
  assert (∀ r, r ∈ refs window1 → (r < n)%nat) as Hv1.
  { intros r Hr. apply Hvalid, elem_of_app. by left. }
  assert (∀ r, r ∈ refs window2 → (r < n)%nat) as Hv2.
  { intros r Hr. apply Hvalid, elem_of_app. by right. }
  set (t1 := default n (candidates window1)).
  set (t2 := default (S n) (windows_candidates window1)).
  set (t3 := default (S (S n)) (span_candidates window1)).
  set (t4 := default (S (S (S n))) (triplet_candidates window1)).
  assert (∀ (f : Sample → option loc) w r, f w = Some r →
            (f = candidates ∨ f = windows_candidates
             ∨ f = span_candidates ∨ f = triplet_candidates) →
            r ∈ refs w) as Hrefs.
  { intros f w r Hf Hwhich. apply elem_of_refs.
    destruct Hwhich as [-> | [-> | [-> | ->]]]; tauto. }
  assert (t1 ≤ n ∧ t2 ≤ S n ∧ t3 ≤ S (S n) ∧ t4 ≤ S (S (S n)))%nat
    as (Hb1 & Hb2 & Hb3 & Hb4).
  { repeat split; (apply (target_bound n); [|lia]); intros r Hr;
      apply Hv1; eapply Hrefs; eauto. }
  assert (t1 ≠ t2 ∧ t1 ≠ t3 ∧ t1 ≠ t4 ∧ t2 ≠ t3 ∧ t2 ≠ t4 ∧ t3 ≠ t4)
    as (D12 & D13 & D14 & D23 & D24 & D34).
  { apply NoDup_app in Hnd as (Hnd1 & _ & _).
    assert (∀ r, candidates window1 = Some r → (r < n)%nat) as Hc
      by (intros r Hr; apply Hv1; eapply Hrefs; eauto).
    assert (∀ r, windows_candidates window1 = Some r → (r < n)%nat) as Hwc
      by (intros r Hr; apply Hv1; eapply Hrefs; eauto).
    assert (∀ r, span_candidates window1 = Some r → (r < n)%nat) as Hsc
      by (intros r Hr; apply Hv1; eapply Hrefs; eauto).
    assert (∀ r, triplet_candidates window1 = Some r → (r < n)%nat) as Htc
      by (intros r Hr; apply Hv1; eapply Hrefs; eauto).
    subst t1 t2 t3 t4. unfold refs in Hnd1.
    destruct (candidates window1) as [a|];
      destruct (windows_candidates window1) as [b|];
      destruct (span_candidates window1) as [c|];
      destruct (triplet_candidates window1) as [d|];
      csimpl in *;
      try pose proof (Hc _ eq_refl); try pose proof (Hwc _ eq_refl);
      try pose proof (Hsc _ eq_refl); try pose proof (Htc _ eq_refl);
      rewrite ?NoDup_cons, ?not_elem_of_cons in Hnd1;
      repeat split; lia. }
  assert (∀ r, r ∈ refs window2 →
            (r < n)%nat ∧ r ≠ t1 ∧ r ≠ t2 ∧ r ≠ t3 ∧ r ≠ t4) as Hsecond.
  { intros r Hr. split; [by apply Hv2|].
    apply NoDup_app in Hnd as (_ & Hdisj & _).
    assert (∀ (f : Sample → option loc) x,
              f = candidates ∨ f = windows_candidates
              ∨ f = span_candidates ∨ f = triplet_candidates →
              (n ≤ x)%nat → r ≠ default x (f window1)) as Hne.
    { intros f x Hwhich Hx. destruct (f window1) as [a|] eqn:Hf; simpl.
      - intros ->. apply (Hdisj a); [|done]. by eapply Hrefs.
      - specialize (Hv2 _ Hr). lia. }
    repeat split; apply Hne; (tauto || lia). }
  assert (∀ (f : Sample → option loc) r,
            f = candidates ∨ f = windows_candidates
            ∨ f = span_candidates ∨ f = triplet_candidates →
            f window2 = Some r →
            (r < n)%nat ∧ r ≠ t1 ∧ r ≠ t2 ∧ r ≠ t3 ∧ r ≠ t4) as Hf2.
  { intros f r Hwhich Hf. apply Hsecond. by eapply Hrefs. }
  clear Hsecond Hrefs Hnd Hvalid Hv1 Hv2.
  unfold _merge_candidates.
  erewrite bindM_run; [|reflexivity].
  erewrite bindM_run; [|reflexivity].
  replace (length (st ++ [[]])) with (S n) by (rewrite length_app; simpl; lia).
  fold n t1 t2.
  set (s2 := (st ++ [[]]) ++ [[]]).
  assert (length s2 = S (S n)) as Hs2
    by (subst s2; rewrite !length_app; simpl; lia).
  erewrite bindM_run.
  2:{ apply merge_candidate_field_run; unfold loc; fold t1; [lia|].
      intros r Hr. destruct (Hf2 candidates r) as [? _]; [tauto | done | lia]. }
  unfold loc. fold t1. set (s3 := extended n _ _ s2).
  assert (length s3 = S (S n)) as Hs3 by (subst s3; by rewrite length_extended).
  erewrite bindM_run.
  2:{ apply merge_candidate_field_run; unfold loc; fold t2; [lia|].
      intros r Hr. destruct (Hf2 windows_candidates r) as [? _]; [tauto | done | lia]. }
  unfold loc. fold t2. set (s4 := extended (S n) _ _ s3).
  assert (length s4 = S (S n)) as Hs4 by (subst s4; by rewrite length_extended).
  erewrite bindM_run; [|reflexivity]. rewrite Hs4. fold t3.
  set (s5 := s4 ++ [[]]).
  assert (length s5 = S (S (S n))) as Hs5
    by (subst s5; rewrite length_app; simpl; lia).
  erewrite bindM_run.
  2:{ apply merge_candidate_field_run; unfold loc; fold t3; [lia|].
      intros r Hr. destruct (Hf2 span_candidates r) as [? _]; [tauto | done | lia]. }
  unfold loc. fold t3. set (s6 := extended (S (S n)) _ _ s5).
  assert (length s6 = S (S (S n))) as Hs6 by (subst s6; by rewrite length_extended).
  erewrite bindM_run; [|reflexivity]. rewrite Hs6. fold t4.
  set (s7 := s6 ++ [[]]).
  assert (length s7 = S (S (S (S n)))) as Hs7
    by (subst s7; rewrite length_app; simpl; lia).
  erewrite bindM_run.
  2:{ apply merge_candidate_field_run; unfold loc; fold t4; [lia|].
      intros r Hr. destruct (Hf2 triplet_candidates r) as [? _]; [tauto | done | lia]. }
  unfold loc. fold t4. set (s8 := extended (S (S (S n))) _ _ s7).
  assert (length s8 = S (S (S (S n)))) as Hs8 by (subst s8; by rewrite length_extended).
  assert (t1 < length s2 ∧ t2 < length s3 ∧ t3 < length s5 ∧ t4 < length s7)%nat
    as (L1 & L2 & L3 & L4) by lia.
  assert (∀ (f : Sample → option loc),
            f = candidates ∨ f = windows_candidates
            ∨ f = span_candidates ∨ f = triplet_candidates →
            f window2 ≠ Some t1 ∧ f window2 ≠ Some t2
            ∧ f window2 ≠ Some t3 ∧ f window2 ≠ Some t4) as NE.
  { intros f Hwhich. destruct (f window2) as [r|] eqn:Hf; [|done].
    destruct (Hf2 f r Hwhich Hf) as (_ & ? & ? & ? & ?).
    repeat split; congruence. }
  assert (∀ F, contents s2 F = contents st F) as K2.
  { intros F. unfold s2. by rewrite !contents_app_nil. }
  (* what each step does to a list that is not its target *)
  assert (∀ F, F ≠ Some t1 → contents s3 F = contents st F) as K3.
  { intros F HF. unfold s3. by rewrite (contents_extended_ne _ _ _ _ _ L1 HF). }
  assert (∀ F, F ≠ Some t2 → contents s5 F = contents s3 F) as K5.
  { intros F HF. unfold s5, s4.
    by rewrite contents_app_nil, (contents_extended_ne _ _ _ _ _ L2 HF). }
  assert (∀ F, F ≠ Some t3 → contents s7 F = contents s5 F) as K7.
  { intros F HF. unfold s7, s6.
    by rewrite contents_app_nil, (contents_extended_ne _ _ _ _ _ L3 HF). }
  assert (∀ F, F ≠ Some t4 → contents s8 F = contents s7 F) as K8.
  { intros F HF. unfold s8. by rewrite (contents_extended_ne _ _ _ _ _ L4 HF). }
  assert (∀ f, f = candidates ∨ f = windows_candidates
               ∨ f = span_candidates ∨ f = triplet_candidates →
               contents s8 (f window2) = contents st (f window2)
               ∧ contents s7 (f window2) = contents st (f window2)
               ∧ contents s5 (f window2) = contents st (f window2)
               ∧ contents s3 (f window2) = contents st (f window2)) as Ksecond.
  { intros f Hwhich. destruct (NE f Hwhich) as (? & ? & ? & ?).
    by rewrite K8, K7, K5, K3. }
  assert (contents s8 (Some t1)
          = contents st (candidates window1) ++ contents st (candidates window2))
    as T1.
  { rewrite K8, K7, K5 by congruence. unfold s3.
    rewrite (contents_extended_eq _ _ _ _ L1), !K2.
    by rewrite (contents_target st n) by done. }
  assert (contents s8 (Some t2)
          = contents st (windows_candidates window1)
            ++ contents st (windows_candidates window2)) as T2.
  { rewrite K8, K7 by congruence. unfold s5, s4.
    rewrite contents_app_nil, (contents_extended_eq _ _ _ _ L2).
    unfold loc. fold t2. rewrite (K3 (Some t2)) by congruence. unfold t2.
    destruct (Ksecond windows_candidates) as (_ & _ & _ & ->); [tauto|].
    by rewrite (contents_target st (S n)) by (fold n; lia). }
  assert (contents s8 (Some t3)
          = contents st (span_candidates window1)
            ++ contents st (span_candidates window2)) as T3.
  { rewrite K8 by congruence. unfold s7, s6.
    rewrite contents_app_nil, (contents_extended_eq _ _ _ _ L3).
    unfold loc. fold t3. rewrite (K5 (Some t3)), (K3 (Some t3)) by congruence.
    unfold t3.
    destruct (Ksecond span_candidates) as (_ & _ & -> & _); [tauto|].
    by rewrite (contents_target st (S (S n))) by (fold n; lia). }
  assert (contents s8 (Some t4)
          = contents st (triplet_candidates window1)
            ++ contents st (triplet_candidates window2)) as T4.
  { unfold s8. rewrite (contents_extended_eq _ _ _ _ L4).
    unfold loc. fold t4.
    rewrite (K7 (Some t4)), (K5 (Some t4)), (K3 (Some t4)) by congruence.
    unfold t4.
    destruct (Ksecond triplet_candidates) as (_ & -> & _ & _); [tauto|].
    by rewrite (contents_target st (S (S (S n)))) by (fold n; lia). }
  erewrite bindM_run; [|by apply make_unique_run; lia].
  erewrite bindM_run; [|by apply make_unique_run; rewrite length_app; lia].
  erewrite bindM_run; [|by apply make_unique_run; rewrite !length_app; lia].
  erewrite bindM_run; [|by apply make_unique_run; rewrite !length_app; lia].
  rewrite !length_app, Hs8. simpl length. rewrite !Nat.add_1_r.
  rewrite !contents_app_valid by (intros ? [= <-]; rewrite ?length_app; lia).
  eexists _, _, _, _, _. split; [reflexivity|].
  assert (∀ (f1 f2 : Sample → option loc) (x t c : nat),
            f2 = candidates ∨ f2 = windows_candidates
            ∨ f2 = span_candidates ∨ f2 = triplet_candidates →
            t = default x (f1 window1) → (t < length s8)%nat →
            contents s8 (Some t)
            = contents st (f1 window1) ++ contents st (f2 window2) →
            (n ≤ c)%nat →
            ∀ final : Store,
              final !! c = Some (list_of_set (contents s8 (Some t))) →
              (∀ r, (r < length s8)%nat → final !! r = s8 !! r) →
              merged_list st final (f1 window1) (f2 window2) c) as Hfield.
  { intros f1 f2 x t c Hwhich Ht Hlt Hcontents Hc final Hfinal Hsame.
    apply (merged_list_intro st s8 final _ _ t c); try done.
    - intros r1 Hr1. rewrite Ht, Hr1. done.
    - intros r2 Hr2. destruct (Hf2 f2 r2 Hwhich Hr2) as [? _].
      split; [done|]. by destruct (Ksecond f2 Hwhich) as [-> _].
    - fold n. lia. }
  assert (∀ (k : Store) r, (r < length s8)%nat → (s8 ++ k) !! r = s8 !! r) as Hpre.
  { intros k r Hr. unfold Store, loc in *. by rewrite lookup_app_l. }
  split; [|split; [|split]].
  - apply (Hfield candidates candidates n t1 (S (S (S (S n))))); try done;
      [tauto | lia | lia | | intros r Hr; rewrite <- !app_assoc; by apply Hpre].
    rewrite <- !app_assoc. unfold Store, loc in *.
    rewrite lookup_app_r by lia. by rewrite Hs8, Nat.sub_diag.
  - apply (Hfield windows_candidates windows_candidates (S n) t2 (S (S (S (S (S n))))));
      try done;
      [tauto | lia | lia | | intros r Hr; rewrite <- !app_assoc; by apply Hpre].
    rewrite <- !app_assoc. unfold Store, loc in *.
    rewrite lookup_app_r by lia. rewrite Hs8.
    by replace (S (S (S (S (S n)))) - S (S (S (S n))))%nat with 1%nat by lia.
  - apply (Hfield span_candidates span_candidates (S (S n)) t3
             (S (S (S (S (S (S n)))))));
      try done;
      [tauto | lia | lia | | intros r Hr; rewrite <- !app_assoc; by apply Hpre].
    rewrite <- !app_assoc. unfold Store, loc in *.
    rewrite lookup_app_r by lia. rewrite Hs8.
    by replace (S (S (S (S (S (S n))))) - S (S (S (S n))))%nat with 2%nat by lia.
  - apply (Hfield triplet_candidates triplet_candidates (S (S (S n))) t4
             (S (S (S (S (S (S (S n))))))));
      try done;
      [tauto | lia | lia | | intros r Hr; rewrite <- !app_assoc; by apply Hpre].
    rewrite <- !app_assoc. unfold Store, loc in *.
    rewrite lookup_app_r by lia. rewrite Hs8.
    by replace (S (S (S (S (S (S (S n)))))) - S (S (S (S n))))%nat with 3%nat by lia.
Qed.

End Candidates.

(** X17 on the two windows with candidates: the merged list is a new
    object holding "Cat" and "Mat", and the first window's list, object 0,
    now holds both. *)
Lemma merged_candidates_witness :
  ∃ (c wc sc tc : loc) (st' : list (list string)),
    _merge_candidates Ex.the_cat_sat_candidates Ex.cat_sat_down_candidates
                      Ex.store
    = (Ok (c, wc, sc, tc), st')
    ∧ (2 ≤ c)%nat
    ∧ (∃ l, st' !! c = Some l ∧ NoDup l ∧ ∀ x, x ∈ l ↔ x ∈ ["Cat"] ∨ x ∈ ["Mat"])
    ∧ st' !! 0%nat = Some ["Cat"; "Mat"]
    ∧ st' !! 1%nat = Some ["Mat"].
Proof.
  destruct (merged_candidates (Span := Ex.Span) (Score := Z) (Probs := Z)
              Ex.the_cat_sat_candidates Ex.cat_sat_down_candidates Ex.store)
    as (c & wc & sc & tc & st' & Hrun & (Hnew & Hlist & Hfirst & Hsecond) & _).
  - simpl. apply NoDup_cons. split; [|apply NoDup_singleton].
    by intros [=]%list_elem_of_singleton.
  - intros r Hr. simpl in Hr.
    apply elem_of_cons in Hr as [->|Hr]; [simpl; lia|].
    apply list_elem_of_singleton in Hr as ->. simpl. lia.
  - exists c, wc, sc, tc, st'. split; [exact Hrun|]. split; [exact Hnew|].
    split; [exact Hlist|]. split.
    + exact (Hfirst 0%nat eq_refl).
    + exact (Hsecond 1%nat eq_refl).
Defined.

(** ** [_merge_window_pair]: the merged window *)

Section MergePairs.
Context {Span Score Probs Cand : Type}.
Context `{EqDecision Span, PyOrd Span, EqDecision Score, PyOrd Score}.
Context `{EqDecision Cand}.

Abbreviation Sample := (RelikReaderSample Span Score Probs).
Abbreviation Store := (@Store Cand).

(** X18. What a successful pairwise merge tells and returns: the two
    assertions held or were skipped (a first window without [doc_id], or
    without [offset], is not checked); the merged window has the first
    window's [doc_id] and the second window's [offset]; its
    [window_labels] are the merged annotations when the first window has
    labels, and [None] when it has none, whatever the second holds. *)
Theorem merged_pair_metadata (window1 window2 merged : Sample) (st st' : Store) :
  _merge_window_pair window1 window2 st = (Ok merged, st') →
  (doc_id window1 = None ∨ doc_id window2 = doc_id window1)
  ∧ (offset window1 = None ∨ offset_lt window1 window2)
  ∧ doc_id merged = doc_id window1
  ∧ offset merged = offset window2
  ∧ match window_labels window1 with
    | None => window_labels merged = None
    | Some labels1 =>
        ∃ labels2 res,
          window_labels window2 = Some labels2
          ∧ _merge_span_annotation (Some labels1) (Some labels2) = Ok res
          ∧ window_labels merged = Some res
    end.
Proof.
  unfold _merge_window_pair. intros Hrun.
  apply bindM_Ok in Hrun as ([] & st1 & [Hcheck ->]%lift_Ok & Hrun).
  apply bindM_Ok in Hrun as ([[m_tokens m_s] m_e] & st2 & [Htok ->]%lift_Ok & Hrun).
  apply bindM_Ok in Hrun as ([[m_words mw_s] mw_e] & st3 & [Hwords ->]%lift_Ok & Hrun).
  apply bindM_Ok in Hrun as ([[[c wc] sc] tc] & st4 & _ & Hrun).
  apply bindM_Ok in Hrun as (m_labels & st5 & [Hlabels ->]%lift_Ok & Hrun).
  apply bindM_Ok in Hrun as ([[[p_s p_p] p_t] p_tp] & st6 & [Hpred ->]%lift_Ok & Hrun).
  injection Hrun as <- <-. simpl.
  apply check_pair_Ok in Hcheck as [Hdoc Hoff].
  split; [|split; [|split; [done|split; [done|]]]].
  - destruct (doc_id window1) as [d|]; [right; by apply Hdoc | by left].
  - destruct (offset window1) as [o|] eqn:Ho; [right | by left].
    destruct (Hoff _ eq_refl) as (o' & Ho' & Hlt). by exists o, o'.
  - destruct (window_labels window1) as [labels1|]; [|by injection Hlabels as <-].
    apply bind_Ok in Hlabels as (res & Hres & Hlabels). injection Hlabels as <-.
    destruct (window_labels window2) as [labels2|]; [|done].
    by exists labels2, res.
Qed.

Lemma merge_tokens_is_ok (window1 window2 : Sample) (tokens1 : list string) :
  tokens window1 = Some tokens1 → tokens1 ≠ [] → is_Some (tokens window2) →
  mapping_ok (token2char_start window1) (token2char_start window2) →
  mapping_ok (token2char_end window1) (token2char_end window2) →
  is_ok (_merge_tokens window1 window2) = true.
Proof.
  intros Ht1 Hne [tokens2 Ht2] Hstart Hend.
  unfold _merge_tokens. rewrite Ht1, Ht2. simpl.
  destruct tokens1 as [|cls rest]; [done|]. rewrite index_first. simpl.
  rewrite index_last.
  destruct (last (cls :: rest)) as [sep|] eqn:Hlast; [|by apply last_None in Hlast].
  simpl.
  match goal with
  | |- context [merge_char_mapping ?k ?off (token2char_start _) _] =>
      pose proof (merge_char_mapping_is_ok k off _ _ Hstart) as Hs;
      pose proof (merge_char_mapping_is_ok k off _ _ Hend) as He
  end.
  destruct (merge_char_mapping _ _ (token2char_start _) _); [|done]. simpl.
  by destruct (merge_char_mapping _ _ (token2char_end _) _).
Qed.

(** The candidate merge of two windows without candidate lists. *)
Lemma merge_candidates_None (window1 window2 : Sample) (st : Store) :
  refs window1 = [] → refs window2 = [] →
  ∃ res st', _merge_candidates window1 window2 st = (Ok res, st').
Proof.
  unfold refs. intros H1 H2.
  destruct (candidates window1) eqn:E1; [done|].
  destruct (windows_candidates window1) eqn:E2; [done|].
  destruct (span_candidates window1) eqn:E3; [done|].
  destruct (triplet_candidates window1) eqn:E4; [done|].
  destruct (candidates window2) eqn:E5; [done|].
  destruct (windows_candidates window2) eqn:E6; [done|].
  destruct (span_candidates window2) eqn:E7; [done|].
  destruct (triplet_candidates window2) eqn:E8; [done|].
  unfold _merge_candidates. rewrite E1, E2, E3, E4, E5, E6, E7, E8.
  do 2 (erewrite bindM_run; [|reflexivity]).
  do 2 (erewrite bindM_run; [|reflexivity]).
  do 4 (erewrite bindM_run; [|reflexivity]).
  erewrite bindM_run; [|apply make_unique_run; rewrite !length_app; simpl; lia].
  erewrite bindM_run; [|apply make_unique_run; rewrite !length_app; simpl; lia].
  erewrite bindM_run; [|apply make_unique_run; rewrite !length_app; simpl; lia].
  erewrite bindM_run; [|apply make_unique_run; rewrite !length_app; simpl; lia].
  by eexists _, _.
Qed.

End MergePairs.

Section CreateThenMerge.
Context {Span Score Probs Cand : Type}.
Context `{EqDecision Span, PyOrd Span, EqDecision Score, PyOrd Score}.
Context `{EqDecision Cand}.
Variable tokenizer : list PyDoc → bool → list (list Token).
Variable split : Splitter → list Token → option Z → list (list Token).

Abbreviation Sample := (RelikReaderSample Span Score Probs).
Abbreviation Store := (@Store Cand).

Lemma comprehension_keys_parse {A} (vf : Z * A → Z) (l : list A) :
  Forall (λ tc : string * Z, is_Some (parse_int tc.1))
         (dict_update [] ((λ iw, (str iw.1, vf iw)) <$> enumerate l)).
Proof.
  rewrite dict_update_NoDup.
  2:{ rewrite <- list_fmap_compose. by apply enumerate_from_keys. }
  apply Forall_fmap, Forall_forall. intros iw _. simpl.
  rewrite parse_int_str. by eexists.
Qed.

(** X19. Two windows that [create_windows] returned merge exactly when
    they come from the same document and the first one starts before the
    second: nothing else in them can make the pairwise merge fail. *)
Theorem created_windows_merge (self self' : Splitter) (documents : PyDoc)
    (window_size stride max_length : option Z) (doc_topic : option string)
    (is_split_into_words : bool) (mentions : option (list (list (list Z))))
    (windowed blank : list Sample) (a b : Sample) (st : Store) :
  create_windows tokenizer split self documents window_size stride max_length
                 doc_topic is_split_into_words mentions
  = (Ok (windowed, blank), self') →
  a ∈ windowed ++ blank → b ∈ windowed ++ blank →
  is_ok (_merge_window_pair a b st).1 = true
  ↔ doc_id a = doc_id b ∧ offset_lt a b.
Proof.
  intros Hcall Ha Hb.
  destruct (returned_built tokenizer split _ _ _ _ _ _ _ _ _ _ _ a Hcall Ha)
    as (raw_a & _ & Hbuilt_a).
  destruct (returned_built tokenizer split _ _ _ _ _ _ _ _ _ _ _ b Hcall Hb)
    as (raw_b & _ & Hbuilt_b).
  apply window_sample_Ok in Hbuilt_a as (fa & la & spa & Hfa & _ & _ & Hsa).
  apply window_sample_Ok in Hbuilt_b as (fb & lb & spb & Hfb & _ & _ & Hsb).
  assert (is_ok (_merge_tokens a b) = true) as Htok.
  { apply (merge_tokens_is_ok a b (tok_text <$> raw_a.2)).
    - by rewrite Hsa.
    - by destruct (raw_a.2).
    - rewrite Hsb. by eexists.
    - rewrite Hsa, Hsb. split; [by eexists|]. eexists. split; [done|].
      apply comprehension_keys_parse.
    - rewrite Hsa, Hsb. split; [by eexists|]. eexists. split; [done|].
      apply comprehension_keys_parse. }
  assert (is_ok (_merge_words a b) = true) as Hwords.
  { unfold _merge_words. rewrite Hsa, Hsb. simpl.
    unfold merge_word_mapping. by simpl. }
  destruct (merge_candidates_None a b st) as (cands & st1 & Hcands).
  { by rewrite Hsa. } { by rewrite Hsb. }
  assert (check_pair a b = Ok tt ↔ doc_id a = doc_id b ∧ offset_lt a b) as Hcheck.
  { unfold check_pair, offset_lt. rewrite Hsa, Hsb. simpl. split.
    - intros Hc. apply bind_Ok in Hc as ([] & Hdoc & Hoff).
      unfold py_assert in *. case_bool_decide; [|done].
      destruct (Z.ltb_spec (tok_idx fa) (tok_idx fb)); [|done].
      split; [done|]. by eexists _, _.
    - intros [Hdoc (oa & ob & [= <-] & [= <-] & Hlt)].
      rewrite bool_decide_eq_true_2 by done. simpl.
      by destruct (Z.ltb_spec (tok_idx fa) (tok_idx fb)); [|lia]. }
  rewrite <- Hcheck. unfold _merge_window_pair.
  destruct (check_pair a b) as [[]|e] eqn:Hc.
  2:{ unfold mbind, M_bind, bindM, lift. simpl. split; [done|]. by intros [=]. }
  split; [done|]. intros _.
  erewrite bindM_run; [|reflexivity].
  apply is_ok_true in Htok as [[[m_tokens m_s] m_e] Htok].
  apply is_ok_true in Hwords as [[[m_words mw_s] mw_e] Hwords].
  rewrite Htok, Hwords.
  erewrite bindM_run; [|reflexivity]. cbv beta iota.
  erewrite bindM_run; [|reflexivity]. cbv beta iota.
  erewrite bindM_run; [|exact Hcands].
  destruct cands as [[[c wc] sc] tc]. cbv beta iota.
  assert (window_labels a = None) as -> by (by rewrite Hsa).
  erewrite bindM_run; [|reflexivity]. cbv beta iota.
  assert (_merge_predictions a b = Ok ([], [], [], [])) as ->.
  { unfold _merge_predictions. by rewrite Hsa. }
  done.
Qed.

End CreateThenMerge.

(** X18 on the two windows of "the cat sat down". *)
Lemma merged_pair_metadata_witness :
  ∃ (merged : Ex.Sample) (st' : list (list string)),
    _merge_window_pair Ex.the_cat_sat Ex.cat_sat_down Ex.store = (Ok merged, st')
    ∧ doc_id merged = Some 0 ∧ offset merged = Some 4
    ∧ window_labels merged = None.
Proof.
  eassert (_merge_window_pair Ex.the_cat_sat Ex.cat_sat_down Ex.store
           = (Ok _, _)) as Hrun by (vm_compute; reflexivity).
  destruct (merged_pair_metadata (Span := Ex.Span) (Score := Z) (Probs := Z)
              (Cand := string) _ _ _ _ _ Hrun)
    as (_ & _ & Hdoc & Hoff & Hlabels).
  eexists _, _. split; [exact Hrun|]. by repeat split.
Defined.

(** X19 on the two windows of "A b": they merge in the order of the text
    and not in the other. *)
Lemma created_windows_merge_witness :
  ∃ a b : Ex.Sample,
    Ex.returned Ex.windows_of_A_b = [a; b]
    ∧ is_ok (_merge_window_pair a b Ex.store).1 = true
    ∧ is_ok (_merge_window_pair b a Ex.store).1 = false.
Proof.
  eassert (Ex.windows_of_A_b = (Ok ([_; _], []), _)) as Hcall
    by (vm_compute; reflexivity).
  pose proof (created_windows_merge (Cand := string) _ _ _ _ _ _ _ _ _ _ _ _ _
                _ _ Ex.store Hcall (list_elem_of_here _ _)
                (list_elem_of_further _ _ _ (list_elem_of_here _ _))) as Hab.
  eexists _, _. split; [by vm_compute|]. split.
  - apply Hab. split; [done|]. by eexists 0, 2.
  - by vm_compute.
Defined.

(** ** Predicted spans of a document; errors of [_merge_tokens] *)

Section DocumentSpans.
Context {Span Score Probs Cand : Type}.
Context `{EqDecision Span, PyOrd Span, !PyOrdLaws Span}.
Context `{EqDecision Score, PyOrd Score}.
Context `{EqDecision Cand}.

Abbreviation Sample := (RelikReaderSample Span Score Probs).
Abbreviation Store := (@Store Cand).

Lemma merge_window_pair_spans (window1 window2 merged : Sample) (st st' : Store)
    (spans1 spans2 : list Span) :
  _merge_window_pair window1 window2 st = (Ok merged, st') →
  predicted_spans window1 = Some spans1 →
  predicted_spans window2 = Some spans2 →
  predicted_spans merged = Some (sorted_union spans1 spans2).
Proof.
  intros Hrun Hs1 Hs2.
  apply merge_window_pair_Ok in Hrun
    as (_ & _ & _ & _ & _ & m_spans & m_probs & m_triples & m_tp & Hpred & -> & _).
  unfold _merge_predictions in Hpred. rewrite Hs1, Hs2 in Hpred.
  destruct (predicted_triples window1), (predicted_triples window2);
    try (by injection Hpred as <-).
  apply bind_Ok in Hpred as (tr1 & _ & Hpred).
  apply bind_Ok in Hpred as (tr2 & _ & Hpred). by injection Hpred as <-.
Qed.

Lemma merge_fold_spans (acc : Sample) (rest : list Sample) (st st' : Store)
    (m : Sample) (spans0 : list Span) :
  merge_fold acc rest st = (Ok m, st') →
  predicted_spans acc = Some spans0 →
  Forall (λ w, is_Some (predicted_spans w)) rest →
  ∃ m_spans,
    predicted_spans m = Some m_spans
    ∧ (rest ≠ [] → StronglySorted py_lt m_spans)
    ∧ ∀ x, x ∈ m_spans
           ↔ x ∈ spans0 ∨ ∃ w s, w ∈ rest ∧ predicted_spans w = Some s ∧ x ∈ s.
Proof.
  revert acc st spans0. induction rest as [|n rest IH]; intros acc st spans0; simpl.
  - intros [= <- <-] Hs0 _. exists spans0. split; [done|]. split; [done|].
    intros x. split; [by left|]. intros [?|(w & s & Hw%elem_of_nil & _)]; done.
  - intros Hrun Hs0 [[s1 Hs1] Hrest]%Forall_cons.
    apply bindM_Ok in Hrun as (acc1 & st1 & Hpair & Hrun).
    pose proof (merge_window_pair_spans _ _ _ _ _ _ _ Hpair Hs0 Hs1) as Hacc1.
    destruct (IH _ _ _ Hrun Hacc1 Hrest) as (m_spans & Hm & Hsorted & Helems).
    exists m_spans. split; [done|]. split.
    + intros _. destruct rest as [|n' rest]; [|by apply Hsorted].
      injection Hrun as <- <-. rewrite Hacc1 in Hm. injection Hm as <-.
      apply sorted_set_sorted.
    + intros x. rewrite Helems, elem_of_sorted_union. split.
      * intros [[Hx|Hx]|(w & s & Hw & Hs & Hx)]; [by left| |].
        -- right. exists n, s1. split; [by left | done].
        -- right. exists w, s. split; [by right | done].
      * intros [Hx|(w & s & [->|Hw]%elem_of_cons & Hs & Hx)]; [by left; left| |].
        -- left. right. congruence.
        -- right. by exists w, s.
Qed.

(** X20. When two windows or more of a document, each carrying
    [predicted_spans], merge, the merged window's [predicted_spans] are the
    spans of all the windows, each once, in increasing order. *)
Theorem merged_document_spans (windows : list Sample) (st st' : Store)
    (m : Sample) :
  (2 ≤ length windows)%nat →
  Forall (λ w, is_Some (predicted_spans w)) windows →
  _merge_doc_windows windows st = (Ok m, st') →
  ∃ m_spans,
    predicted_spans m = Some m_spans
    ∧ StronglySorted py_lt m_spans
    ∧ ∀ x, x ∈ m_spans
           ↔ ∃ w s, w ∈ windows ∧ predicted_spans w = Some s ∧ x ∈ s.
Proof.
  intros Hlen Hall Hrun. unfold _merge_doc_windows in Hrun.
  destruct windows as [|w0 [|w1 windows]]; [simpl in Hlen; lia..|].
  apply bindM_Ok in Hrun as (sorted & st1 & [Hsort ->]%lift_Ok & Hrun).
  set (ws := w0 :: w1 :: windows) in *.
  assert (sorted ≡ₚ ws) as Hperm.
  { case_bool_decide; [|by injection Hsort as <-].
    apply sort_by_offset_Ok in Hsort as (keyed & <- & _ & ->).
    by rewrite sorted_by_Permutation. }
  rewrite <- Hperm in Hall.
  destruct sorted as [|s0 [|s1 srest]].
  - by apply Permutation_nil_l in Hperm.
  - apply Permutation_length in Hperm. simpl in Hperm. lia.
  - apply Forall_cons in Hall as [[spans0 Hs0] Hall].
    destruct (merge_fold_spans _ _ _ _ _ _ Hrun Hs0 Hall)
      as (m_spans & Hm & Hsorted & Helems).
    exists m_spans. split; [done|]. split; [by apply Hsorted|].
    intros x. rewrite Helems. split.
    + intros [Hx|(w & s & Hw & Hs & Hx)].
      * exists s0, spans0. split; [rewrite <- Hperm; by left | done].
      * exists w, s. split; [rewrite <- Hperm; by right | done].
    + intros (w & s & Hw & Hs & Hx). rewrite <- Hperm in Hw.
      apply elem_of_cons in Hw as [->|Hw].
      * left. congruence.
      * right. by exists w, s.
Qed.

End DocumentSpans.

Section MergeTokensErrors.
Context {Span Score Probs : Type}.
Abbreviation Sample := (RelikReaderSample Span Score Probs).

Lemma remap_fold_bad_key (k off : Z) (d2 final : dict string Z) (tc : string * Z) :
  tc ∈ d2 → parse_int tc.1 = None →
  foldM (remap_step k off) d2 final = Raise ValueError.
Proof.
  intros Hin Hparse. revert final.
  induction d2 as [|tc' d2 IH]; intros final; [by apply elem_of_nil in Hin|].
  simpl. unfold remap_step at 1, int.
  destruct (parse_int tc'.1) as [t|] eqn:Ht; simpl; [|done].
  apply elem_of_cons in Hin as [->|Hin]; [congruence|].
  destruct (t <? k); simpl; by apply IH.
Qed.

(** X21. What [_merge_tokens] raises, in the order in which it reads its
    arguments: [TypeError] when a window has no [tokens], [IndexError] when
    the first window's [tokens] is empty, [TypeError] when the first window
    lacks a token map, [AttributeError] when the second lacks one, and
    [ValueError] when a key of the second window's map does not read as an
    integer. *)
Theorem merge_tokens_errors (window1 window2 : Sample) :
  (tokens window1 = None ∨ tokens window2 = None →
   _merge_tokens window1 window2 = Raise TypeError)
  ∧ (tokens window1 = Some [] → is_Some (tokens window2) →
     _merge_tokens window1 window2 = Raise IndexError)
  ∧ (∀ tokens1 tokens2,
       tokens window1 = Some tokens1 → tokens1 ≠ [] →
       tokens window2 = Some tokens2 →
       (token2char_start window1 = None →
        _merge_tokens window1 window2 = Raise TypeError)
       ∧ (is_Some (token2char_start window1) →
          token2char_start window2 = None →
          _merge_tokens window1 window2 = Raise AttributeError)
       ∧ (∀ d2 tc,
            is_Some (token2char_start window1) →
            token2char_start window2 = Some d2 →
            tc ∈ d2 → parse_int tc.1 = None →
            _merge_tokens window1 window2 = Raise ValueError)).
Proof.
  split; [|split].
  - unfold _merge_tokens. intros [->| ->]; [done|].
    by destruct (tokens window1).
  - unfold _merge_tokens. by intros -> [tokens2 ->].
  - intros tokens1 tokens2 Ht1 Hne Ht2. unfold _merge_tokens.
    rewrite Ht1, Ht2. simpl.
    destruct tokens1 as [|cls rest]; [done|]. rewrite index_first. simpl.
    rewrite index_last.
    destruct (last (cls :: rest)) as [sep|] eqn:Hlast; [|by apply last_None in Hlast].
    simpl. split; [|split].
    + by intros ->.
    + by intros [d1 ->] ->.
    + intros d2 tc [d1 ->] -> Hin Hparse.
      assert (∀ k off, merge_char_mapping k off (Some d1) (Some d2)
                       = Raise ValueError) as ->; [|done].
      intros k off. unfold merge_char_mapping. simpl.
      by apply (remap_fold_bad_key _ _ _ _ tc).
Qed.

End MergeTokensErrors.

(** X20 on the two windows of "the cat sat down", each with one predicted
    span. *)
Lemma merged_document_spans_witness :
  ∃ (m : Ex.Sample) (st' : list (list string)),
    _merge_doc_windows
      [Ex.predicting Ex.cat_sat_down [(5, 8, "LOC")];
       Ex.predicting Ex.the_cat_sat [(0, 3, "PER")]] Ex.store
    = (Ok m, st')
    ∧ predicted_spans m = Some [(0, 3, "PER"); (5, 8, "LOC")].
Proof.
  eassert (_merge_doc_windows
             [Ex.predicting Ex.cat_sat_down [(5, 8, "LOC")];
              Ex.predicting Ex.the_cat_sat [(0, 3, "PER")]] Ex.store
           = (Ok _, _)) as Hrun by (vm_compute; reflexivity).
  destruct (merged_document_spans (Span := Ex.Span) (Score := Z) (Probs := Z)
              (Cand := string)
              [Ex.predicting Ex.cat_sat_down [(5, 8, "LOC")];
               Ex.predicting Ex.the_cat_sat [(0, 3, "PER")]] Ex.store _ _
              ltac:(simpl; lia) ltac:(repeat constructor; by eexists) Hrun)
    as (m_spans & Hm & _).
  eexists _, _. split; [exact Hrun|]. done.
Defined.

(** X21 on a first window without tokens and on a key that is not a
    number. *)
Lemma merge_tokens_errors_witness :
  _merge_tokens (Ex.window 0 0 [] [] []) Ex.cat_sat_down = Raise IndexError
  ∧ _merge_tokens Ex.the_cat_sat (Ex.window 0 4 ["CLS"; "SEP"] [("one", 4)] [])
    = Raise ValueError.
Proof.
  split.
  - by apply (merge_tokens_errors (Probs := Z) (Ex.window 0 0 [] [] []) Ex.cat_sat_down).
  - destruct (merge_tokens_errors (Probs := Z) Ex.the_cat_sat
                (Ex.window 0 4 ["CLS"; "SEP"] [("one", 4)] []))
      as (_ & _ & Hmaps).
    destruct (Hmaps _ _ eq_refl ltac:(done) eq_refl) as (_ & _ & Hkey).
    apply (Hkey [("one", 4)] ("one", 4)); [by eexists | done | by left | done].
Defined.

(** ** [create_windows], then [merge_windows] *)

Section Pipeline.
Context {Span Score Probs Cand : Type}.
Context `{EqDecision Span, PyOrd Span, EqDecision Score, PyOrd Score}.
Context `{EqDecision Cand}.

Abbreviation Sample := (RelikReaderSample Span Score Probs).
Abbreviation Store := (@Store Cand).

(** The candidate merge returns whenever the lists it is given exist, and
    the lists it returns exist in the store it leaves. *)
Lemma merge_candidates_Ok (window1 window2 : Sample) (st : Store) :
  (∀ r, r ∈ refs window1 ++ refs window2 → (r < length st)%nat) →
  ∃ (c wc sc tc : loc) (st' : Store),
    _merge_candidates window1 window2 st = (Ok (c, wc, sc, tc), st')
    ∧ (c < length st' ∧ wc < length st' ∧ sc < length st' ∧ tc < length st')%nat.
Proof.
  intros Hvalid. set (n := length st).
  assert (∀ (f : Sample → option loc) w r, f w = Some r →
            (f = candidates ∨ f = windows_candidates
             ∨ f = span_candidates ∨ f = triplet_candidates) →
            r ∈ refs w) as Hrefs.
  { intros f w r Hf Hwhich. apply elem_of_refs.
    destruct Hwhich as [-> | [-> | [-> | ->]]]; tauto. }
  assert (∀ (f : Sample → option loc) (x : nat),
            (f = candidates ∨ f = windows_candidates
             ∨ f = span_candidates ∨ f = triplet_candidates) →
            (n ≤ x)%nat →
            (default x (f window1) ≤ x)%nat
            ∧ ∀ r, f window2 = Some r → (r < n)%nat) as Hfields.
  { intros f x Hwhich Hx. split.
    - apply (target_bound n); [|done]. intros r Hr.
      apply Hvalid, elem_of_app. left. by eapply Hrefs.
    - intros r Hr. apply Hvalid, elem_of_app. right. by eapply Hrefs. }
  destruct (Hfields candidates n) as [Hb1 Hc]; [tauto | done|].
  destruct (Hfields windows_candidates (S n)) as [Hb2 Hwc]; [tauto | lia|].
  destruct (Hfields span_candidates (S (S n))) as [Hb3 Hsc]; [tauto | lia|].
  destruct (Hfields triplet_candidates (S (S (S n)))) as [Hb4 Htc]; [tauto | lia|].
  clear Hfields Hrefs Hvalid.
  unfold _merge_candidates.
  erewrite bindM_run; [|reflexivity].
  erewrite bindM_run; [|reflexivity].
  replace (length (st ++ [[]])) with (S n) by (rewrite length_app; simpl; lia).
  fold n.
  set (s2 := (st ++ [[]]) ++ [[]]).
  assert (length s2 = S (S n)) as Hs2
    by (subst s2; rewrite !length_app; simpl; lia).
  erewrite bindM_run.
  2:{ apply merge_candidate_field_run; [unfold loc in *; lia|].
      intros r Hr. specialize (Hc r Hr). lia. }
  set (s3 := extended n _ _ s2).
  assert (length s3 = S (S n)) as Hs3 by (subst s3; by rewrite length_extended).
  erewrite bindM_run.
  2:{ apply merge_candidate_field_run; [unfold loc in *; lia|].
      intros r Hr. specialize (Hwc r Hr). lia. }
  set (s4 := extended (S n) _ _ s3).
  assert (length s4 = S (S n)) as Hs4 by (subst s4; by rewrite length_extended).
  erewrite bindM_run; [|reflexivity]. rewrite Hs4.
  set (s5 := s4 ++ [[]]).
  assert (length s5 = S (S (S n))) as Hs5
    by (subst s5; rewrite length_app; simpl; lia).
  erewrite bindM_run.
  2:{ apply merge_candidate_field_run; [unfold loc in *; lia|].
      intros r Hr. specialize (Hsc r Hr). lia. }
  set (s6 := extended (S (S n)) _ _ s5).
  assert (length s6 = S (S (S n))) as Hs6 by (subst s6; by rewrite length_extended).
  erewrite bindM_run; [|reflexivity]. rewrite Hs6.
  set (s7 := s6 ++ [[]]).
  assert (length s7 = S (S (S (S n)))) as Hs7
    by (subst s7; rewrite length_app; simpl; lia).
  erewrite bindM_run.
  2:{ apply merge_candidate_field_run; [unfold loc in *; lia|].
      intros r Hr. specialize (Htc r Hr). lia. }
  set (s8 := extended (S (S (S n))) _ _ s7).
  assert (length s8 = S (S (S (S n)))) as Hs8 by (subst s8; by rewrite length_extended).
  erewrite bindM_run; [|by apply make_unique_run; unfold loc in *; lia].
  erewrite bindM_run;
    [|by apply make_unique_run; rewrite length_app; unfold loc in *; lia].
  erewrite bindM_run;
    [|by apply make_unique_run; rewrite !length_app; unfold loc in *; lia].
  erewrite bindM_run;
    [|by apply make_unique_run; rewrite !length_app; unfold loc in *; lia].
  eexists _, _, _, _, _. split; [reflexivity|].
  rewrite !length_app, Hs8. simpl. lia.
Qed.

Lemma created_mergeable (st : Store) (b : Sample) : created b → mergeable st b.
Proof.
  intros (topic & raw & Hbuilt).
  apply window_sample_Ok in Hbuilt as (w_first & w_last & sp & Hf & _ & _ & ->).
  unfold mergeable. simpl. split; [|split; [|split; [|split; [|split]]]]; try done.
  - eexists. split; [done|]. by destruct (raw.2).
  - intros r Hr. by apply elem_of_nil in Hr.
Qed.

Lemma merge_tokens_nonempty (window1 window2 : Sample) (final : list string)
    (m_start m_end : dict string Z) :
  _merge_tokens window1 window2 = Ok (final, m_start, m_end) → final ≠ [].
Proof.
  unfold _merge_tokens. intros Hmerge.
  apply bind_Ok in Hmerge as (tokens1 & _ & Hmerge).
  apply bind_Ok in Hmerge as (tokens2 & _ & Hmerge).
  apply bind_Ok in Hmerge as (cls & _ & Hmerge).
  apply bind_Ok in Hmerge as (sep & _ & Hmerge).
  apply bind_Ok in Hmerge as (ms & _ & Hmerge).
  apply bind_Ok in Hmerge as (me & _ & Hmerge).
  by injection Hmerge as <-.
Qed.

(** A sample of [create_windows] merges into any window that can be
    merged and that passes the two assertions, and what comes out can be
    merged again. *)
Lemma merge_pair_passes (acc b : Sample) (st : Store) :
  mergeable st acc → created b → check_pair acc b = Ok tt →
  ∃ (m : Sample) (st' : Store),
    _merge_window_pair acc b st = (Ok m, st')
    ∧ mergeable st' m ∧ doc_id m = doc_id acc ∧ offset m = offset b.
Proof.
  intros ((toks & Htoks & Hne) & Hstart & Hend & [wds Hwds] & Hvalid & Hlabels)
         (topic & raw & Hbuilt) Hcheck.
  apply window_sample_Ok in Hbuilt as (w_first & w_last & sp & Hf & _ & _ & Hb).
  assert (is_ok (_merge_tokens acc b) = true) as Htok.
  { apply (merge_tokens_is_ok acc b toks); [done | done | ..].
    - rewrite Hb. by eexists.
    - rewrite Hb. split; [done|]. eexists. split; [done|].
      apply comprehension_keys_parse.
    - rewrite Hb. split; [done|]. eexists. split; [done|].
      apply comprehension_keys_parse. }
  apply is_ok_true in Htok as [[[m_tokens m_s] m_e] Htok].
  assert (is_ok (_merge_words acc b) = true) as Hwords.
  { unfold _merge_words. rewrite Hwds, Hb. simpl.
    pose proof (merge_word_mapping_is_ok
                  (find_intersection wds (tok_text <$> raw.2))
                  (len wds - find_intersection wds (tok_text <$> raw.2))
                  (token2word_start acc) None (Forall_nil_2 _)) as Hs.
    destruct (merge_word_mapping _ _ (token2word_start acc) None); [|done].
    pose proof (merge_word_mapping_is_ok
                  (find_intersection wds (tok_text <$> raw.2))
                  (len wds - find_intersection wds (tok_text <$> raw.2))
                  (token2word_end acc) None (Forall_nil_2 _)) as He.
    by destruct (merge_word_mapping _ _ (token2word_end acc) None). }
  apply is_ok_true in Hwords as [[[m_words mw_s] mw_e] Hwords].
  destruct (merge_candidates_Ok acc b st)
    as (c & wc & sc & tc & st' & Hcands & Hc & Hwc & Hsc & Htc).
  { intros r Hr. apply Hvalid. rewrite Hb in Hr. simpl in Hr.
    by rewrite app_nil_r in Hr. }
  assert (_merge_predictions acc b = Ok ([], [], [], [])) as Hpred.
  { unfold _merge_predictions. rewrite Hb. simpl.
    by destruct (predicted_spans acc). }
  unfold _merge_window_pair. rewrite Hcheck, Htok, Hwords, Hlabels, Hpred.
  erewrite bindM_run; [|reflexivity]. cbv beta iota.
  erewrite bindM_run; [|reflexivity]. cbv beta iota.
  erewrite bindM_run; [|reflexivity]. cbv beta iota.
  erewrite bindM_run; [|exact Hcands]. cbv beta iota.
  erewrite bindM_run; [|reflexivity]. cbv beta iota.
  erewrite bindM_run; [|reflexivity]. cbv beta iota.
  eexists _, _. split; [reflexivity|]. split; [|done].
  unfold mergeable. simpl. split; [|split; [|split; [|split; [|split]]]];
    try done; try (by eexists).
  - exists m_tokens. split; [done|]. by eapply merge_tokens_nonempty.
  - intros r Hr. unfold refs in Hr. simpl in Hr.
    rewrite !elem_of_cons, elem_of_nil in Hr.
    destruct Hr as [->|[->|[->|[->|[]]]]]; done.
Qed.

Lemma merge_fold_passes (acc : Sample) (rest : list Sample) (st : Store)
    (o : Z) (os : list Z) :
  mergeable st acc → Forall created rest →
  Forall (λ n, doc_id n = doc_id acc) rest →
  offset acc = Some o → offset <$> rest = Some <$> os →
  StronglySorted Z.lt (o :: os) →
  ∃ (m : Sample) (st' : Store), merge_fold acc rest st = (Ok m, st').
Proof.
  revert acc st o os.
  induction rest as [|n rest IH]; intros acc st o os Hacc Hrest Hdocs Ho Hos Hsorted.
  - by eexists _, _.
  - apply Forall_cons in Hrest as [Hn Hrest].
    apply Forall_cons in Hdocs as [Hdoc Hdocs].
    destruct os as [|o' os]; [done|]. injection Hos as Ho' Hos.
    apply StronglySorted_inv in Hsorted as [Hsorted Hlt].
    apply Forall_cons in Hlt as [Hlt _].
    destruct (merge_pair_passes acc n st Hacc Hn) as (m1 & st1 & Hrun & Hm1 & Hd1 & Ho1).
    { unfold check_pair. rewrite Hdoc, Ho, Ho'.
      destruct (doc_id acc) as [d|]; simpl.
      - rewrite bool_decide_eq_true_2 by done. simpl.
        by destruct (Z.ltb_spec o o'); [|lia].
      - by destruct (Z.ltb_spec o o'); [|lia]. }
    simpl. erewrite bindM_run; [|exact Hrun].
    apply (IH m1 st1 o' os); try done.
    + eapply Forall_impl; [exact Hdocs|]. simpl. congruence.
    + congruence.
Qed.

Lemma merge_doc_windows_passes (g : list Sample) (d : option Z) (st : Store) :
  g ≠ [] → Forall created g → Forall (λ w, doc_id w = d) g →
  NoDup (offset <$> g) →
  ∃ (m : Sample) (st' : Store), _merge_doc_windows g st = (Ok m, st').
Proof.
  intros Hne Hcreated Hdocs Hnd.
  assert (Forall (λ w : Sample, is_Some (offset w)) g) as Hoffsets.
  { eapply Forall_impl; [exact Hcreated|]. intros w (topic & raw & Hbuilt).
    by apply window_sample_Ok in Hbuilt as (? & ? & ? & _ & _ & _ & ->). }
  destruct g as [|w0 [|w1 g]]; [done | by eexists _, _ |].
  unfold _merge_doc_windows. cbv beta iota.
  rewrite bool_decide_eq_true_2 by (by apply Forall_cons in Hoffsets as [? _]).
  set (ws := w0 :: w1 :: g) in *.
  rewrite sort_by_offset_Some by done.
  erewrite bindM_run; [|reflexivity].
  set (key := λ w : Sample, (default 0 (offset w), w)).
  set (keyed := sorted_by fst (key <$> ws)).
  assert (keyed ≡ₚ key <$> ws) as Hperm by apply sorted_by_Permutation.
  assert (Forall (λ ow : Z * Sample, offset ow.2 = Some ow.1) keyed) as Hkeys.
  { rewrite Hperm. apply Forall_fmap, Forall_forall. intros w Hw.
    rewrite Forall_forall in Hoffsets. destruct (Hoffsets _ Hw) as [o Ho].
    simpl. by rewrite Ho. }
  assert (StronglySorted Z.lt keyed.*1) as Hsorted.
  { apply (StronglySorted_fmap_impl (λ _, True) (λ x y : Z * Sample, py_lt x.1 y.1));
      [done | by apply Forall_forall|].
    apply (sorted_by_strict (A := Z)).
    rewrite <- list_fmap_compose.
    assert ((fst ∘ key) <$> ws = default 0 <$> (offset <$> ws)) as ->.
    { by rewrite <- list_fmap_compose. }
    apply NoDup_fmap_2_strong; [|done].
    intros o1 o2 Ho1 Ho2 Heq.
    apply list_elem_of_fmap in Ho1 as (x1 & -> & Hx1).
    apply list_elem_of_fmap in Ho2 as (x2 & -> & Hx2).
    rewrite Forall_forall in Hoffsets.
    destruct (Hoffsets _ Hx1) as [a Ha], (Hoffsets _ Hx2) as [b Hb].
    rewrite Ha, Hb in *. simpl in Heq. by subst. }
  assert (offset <$> keyed.*2 = Some <$> keyed.*1) as Hoffs.
  { clear -Hkeys. induction Hkeys as [|[o w] keyed Ho _ IH]; [done|].
    csimpl. simpl in Ho. by rewrite Ho, IH. }
  assert (Forall created keyed.*2 ∧ Forall (λ w : Sample, doc_id w = d) keyed.*2)
    as [Hcreated' Hdocs'].
  { assert (keyed.*2 ≡ₚ ws) as Hperm2.
    { rewrite Hperm, <- list_fmap_compose. by rewrite list_fmap_id. }
    by rewrite Hperm2. }
  destruct keyed as [|[o0 s0] keyed].
  { apply Permutation_nil_l in Hperm. done. }
  csimpl in *.
  apply Forall_cons in Hcreated' as [Hs0 Hcreated'].
  apply Forall_cons in Hdocs' as [Hd0 Hdocs'].
  apply Forall_cons in Hkeys as [Ho0 _]. simpl in Ho0.
  injection Hoffs as _ Hoffs.
  apply (merge_fold_passes s0 _ st o0 keyed.*1); try done.
  - by apply created_mergeable.
  - eapply Forall_impl; [exact Hdocs'|]. simpl. congruence.
Qed.

Lemma merge_groups_passes (groups : list (option Z * list Sample)) (st : Store) :
  Forall (λ dg, ∀ st1 : Store, ∃ m st2, _merge_doc_windows dg.2 st1 = (Ok m, st2))
         groups →
  ∃ res st', merge_groups groups st = (Ok res, st').
Proof.
  intros Hgroups. revert st.
  induction Hgroups as [|[d g] groups Hg _ IH]; intros st; [by eexists _, _|].
  simpl. destruct (Hg st) as (m & st1 & Hm). erewrite bindM_run; [|exact Hm].
  destruct (IH st1) as (res & st2 & Hres). erewrite bindM_run; [|exact Hres].
  by eexists _, _.
Qed.

Lemma merge_doc_windows_distinct_offsets (windows : list Sample) (st st' : Store)
    (m : Sample) :
  Forall (λ w, is_Some (offset w)) windows →
  _merge_doc_windows windows st = (Ok m, st') →
  NoDup (offset <$> windows).
Proof.
  intros Hoffsets Hrun. unfold _merge_doc_windows in Hrun.
  destruct windows as [|w0 [|w1 rest]].
  - constructor.
  - apply NoDup_singleton.
  - rewrite bool_decide_eq_true_2 in Hrun
      by (by apply Forall_cons in Hoffsets as [? _]).
    apply bindM_Ok in Hrun as (sorted & st1 & [Hsort ->]%lift_Ok & Hrun).
    apply sort_by_offset_Ok in Hsort as (keyed & Hsnd & Hkeys & ->).
    set (windows := w0 :: w1 :: rest) in *.
    assert ((sorted_by fst keyed).*2 ≡ₚ windows) as Hperm.
    { by rewrite sorted_by_Permutation, Hsnd. }
    destruct ((sorted_by fst keyed).*2) as [|s0 srest] eqn:Hsorted; [done|].
    assert (∃ o0, offset s0 = Some o0) as [o0 Ho0].
    { rewrite Forall_forall in Hoffsets. apply Hoffsets. rewrite <- Hperm. by left. }
    apply merge_fold_Ok in Hrun as (_ & _ & Hos).
    destruct (Hos _ Ho0) as (os & Heq & Hlt & _).
    assert (offset <$> windows ≡ₚ Some <$> (o0 :: os)) as ->.
    { rewrite <- Hperm. csimpl. by rewrite Ho0, Heq. }
    apply (NoDup_fmap_2 _). apply (sorted_NoDup (A := Z)), Hlt.
Qed.

End Pipeline.

Section CreateThenMergeWindows.
Context {Span Score Probs Cand : Type}.
Context `{EqDecision Span, PyOrd Span, EqDecision Score, PyOrd Score}.
Context `{EqDecision Cand}.
Variable tokenizer : list PyDoc → bool → list (list Token).
Variable split : Splitter → list Token → option Z → list (list Token).

Abbreviation Sample := (RelikReaderSample Span Score Probs).
Abbreviation Store := (@Store Cand).

(** X22. Windows that [create_windows] returned go through
    [merge_windows] exactly when, within each document, no two of them have
    the same offset: the windows of a document are sorted on their offsets
    and merged one after the other, and nothing but two equal offsets can
    stop that. *)
Theorem created_windows_merge_by_document (self self' : Splitter)
    (documents : PyDoc) (window_size stride max_length : option Z)
    (doc_topic : option string) (is_split_into_words : bool)
    (mentions : option (list (list (list Z))))
    (windowed blank windows : list Sample) (st : Store) :
  create_windows tokenizer split self documents window_size stride max_length
                 doc_topic is_split_into_words mentions
  = (Ok (windowed, blank), self') →
  Forall (λ w, w ∈ windowed ++ blank) windows →
  is_ok (merge_windows windows st).1 = true
  ↔ ∀ d, NoDup (offset <$> filter (λ w, doc_id w = d) windows).
Proof.
  intros Hcall Hwindows.
  assert (Forall (created (Span := Span) (Score := Score) (Probs := Probs))
                 windows) as Hcreated.
  { eapply Forall_impl; [exact Hwindows|]. intros w Hw.
    destruct (returned_built tokenizer split _ _ _ _ _ _ _ _ _ _ _ w Hcall Hw)
      as (raw & _ & Hbuilt).
    by eexists _, raw. }
  assert (∀ d, Forall (created (Span := Span) (Score := Score) (Probs := Probs))
                      (filter (λ w, doc_id w = d) windows)) as Hfiltered.
  { intros d. apply Forall_forall. intros w [_ Hw]%list_elem_of_filter.
    rewrite Forall_forall in Hcreated. by apply Hcreated. }
  split.
  - intros Hok d. unfold merge_windows in Hok.
    destruct (merge_groups _ st) as [[res|e] st'] eqn:Hrun; [|done].
    apply merge_groups_Ok in Hrun.
    destruct (decide (d ∈ doc_id <$> windows)) as [Hd|Hd].
    2:{ rewrite filter_none; [constructor|].
        intros w Hw Heq. apply Hd, list_elem_of_fmap. by exists w. }
    assert ((d, filter (λ w, doc_id w = d) windows) ∈ group_by_doc_id windows)
      as Hin by (by apply group_by_doc_id_group).
    apply list_elem_of_lookup in Hin as [i Hi].
    destruct (Forall2_lookup_l _ _ _ _ _ Hrun Hi) as (m & _ & st1 & st2 & Hm).
    eapply merge_doc_windows_distinct_offsets; [|exact Hm].
    eapply Forall_impl; [apply Hfiltered|]. intros w (topic & raw & Hbuilt).
    by apply window_sample_Ok in Hbuilt as (? & ? & ? & _ & _ & _ & ->).
  - intros Hnd. unfold merge_windows.
    destruct (merge_groups_passes (group_by_doc_id windows) st)
      as (res & st' & ->); [|done].
    apply Forall_forall. intros [d g] Hin st1.
    apply group_by_doc_id_group in Hin as [Hd ->]. cbn [snd].
    apply (merge_doc_windows_passes _ d).
    + apply list_elem_of_fmap in Hd as (w & -> & Hw). intros Hnil.
      assert (w ∈ filter (λ w', doc_id w' = doc_id w) windows) as Hwin
        by (by apply list_elem_of_filter).
      rewrite Hnil in Hwin. by apply elem_of_nil in Hwin.
    + apply Hfiltered.
    + apply Forall_forall. by intros w [? _]%list_elem_of_filter.
    + apply Hnd.
Qed.

End CreateThenMergeWindows.

(** X22 on the four windows of "A b" and "C d": they merge, and the two
    windows of "C d" start at different offsets. *)
Lemma created_windows_merge_by_document_witness :
  is_ok (merge_windows (Ex.returned (Ex.windows_of_A_b_C_d None None)) Ex.store).1
  = true
  ∧ NoDup (offset <$> filter (λ w, doc_id w = Some 1)
                        (Ex.returned (Ex.windows_of_A_b_C_d None None))).
Proof.
  eassert (Ex.windows_of_A_b_C_d None None = (Ok (_, _), _)) as Hcall
    by (vm_compute; reflexivity).
  assert (is_ok (merge_windows (Ex.returned (Ex.windows_of_A_b_C_d None None))
                               Ex.store).1 = true) as Hok by (by vm_compute).
  split; [exact Hok|].
  apply (proj1 (created_windows_merge_by_document (Cand := string)
                  _ _ _ _ _ _ _ _ _ _ _ _ _
                  (Ex.returned (Ex.windows_of_A_b_C_d None None)) Ex.store Hcall
                  ltac:(by apply Forall_forall))).
  exact Hok.
Defined.

(** ** [_merge_doc_windows]: the probabilities of the merged spans *)

Section DocumentProbabilities.
Context {Span Score Probs Cand : Type}.
Context `{EqDecision Span, PyOrd Span, EqDecision Score, PyOrd Score}.
Context `{EqDecision Cand}.

Abbreviation Sample := (RelikReaderSample Span Score Probs).
Abbreviation Store := (@Store Cand).

(** A merged window has [predicted_spans] (an empty list when one of the
    two windows had none) and no [probs_window_labels_chars]. *)
Lemma merge_window_pair_predictions (window1 window2 merged : Sample)
    (st st' : Store) :
  _merge_window_pair window1 window2 st = (Ok merged, st') →
  is_Some (predicted_spans merged) ∧ probs_window_labels_chars merged = None.
Proof.
  unfold _merge_window_pair. intros Hrun.
  apply bindM_Ok in Hrun as ([] & st1 & _ & Hrun).
  apply bindM_Ok in Hrun as ([[m_tokens m_s] m_e] & st2 & _ & Hrun).
  apply bindM_Ok in Hrun as ([[m_words mw_s] mw_e] & st3 & _ & Hrun).
  apply bindM_Ok in Hrun as ([[[c wc] sc] tc] & st4 & _ & Hrun).
  apply bindM_Ok in Hrun as (m_labels & st5 & _ & Hrun).
  apply bindM_Ok in Hrun as ([[[p_s p_p] p_t] p_tp] & st6 & _ & Hrun).
  injection Hrun as <- <-. simpl. by split; [eexists|].
Qed.

(** The last round of the loop. *)
Lemma merge_fold_snoc (acc : Sample) (rest : list Sample) (last m : Sample)
    (st st' : Store) :
  merge_fold acc (rest ++ [last]) st = (Ok m, st') →
  ∃ acc' st1,
    merge_fold acc rest st = (Ok acc', st1)
    ∧ _merge_window_pair acc' last st1 = (Ok m, st').
Proof.
  revert acc st. induction rest as [|n rest IH]; intros acc st; simpl.
  - intros Hrun. apply bindM_Ok in Hrun as (acc1 & st1 & Hpair & [= <- <-]).
    by exists acc, st.
  - intros Hrun. apply bindM_Ok in Hrun as (acc1 & st1 & Hpair & Hrun).
    destruct (IH _ _ Hrun) as (acc' & st2 & Hfold & Hlast).
    exists acc', st2. split; [|done].
    unfold mbind, M_bind, bindM. by rewrite Hpair.
Qed.

(** The accumulator after one round or more is a merged window. *)
Lemma merge_fold_merged (acc : Sample) (rest : list Sample) (acc' : Sample)
    (st st' : Store) :
  rest ≠ [] →
  merge_fold acc rest st = (Ok acc', st') →
  is_Some (predicted_spans acc') ∧ probs_window_labels_chars acc' = None.
Proof.
  destruct rest as [|n rest _] using rev_ind; [done|]. intros _ Hrun.
  apply merge_fold_snoc in Hrun as (acc1 & st1 & _ & Hpair).
  by eapply merge_window_pair_predictions.
Qed.

(** X24. When [_merge_doc_windows] folds three windows or more (an
    accumulator, one window or more, and a last one), the probability map
    of the result, its [predicted_spans_probs], holds the entries of the
    last window's [probs_window_labels_chars] and nothing else (and is empty
    when the last window has no [predicted_spans]): the probabilities merged
    in the rounds before are in the accumulator's [predicted_spans_probs],
    which the last round does not read. *)
Theorem merge_fold_probabilities (acc : Sample) (rest : list Sample)
    (last m : Sample) (st st' : Store) :
  rest ≠ [] →
  merge_fold acc (rest ++ [last]) st = (Ok m, st') →
  ∃ m_probs,
    predicted_spans_probs m = Some m_probs
    ∧ ∀ key, dict_get key m_probs
             = match predicted_spans last with
               | Some _ => dict_get key (default [] (probs_window_labels_chars last))
               | None => None
               end.
Proof.
  intros Hrest Hrun.
  apply merge_fold_snoc in Hrun as (acc' & st1 & Hfold & Hpair).
  apply merge_fold_merged in Hfold as [[spans Hspans] Hprobs]; [|done].
  apply merge_window_pair_Ok in Hpair
    as (_ & _ & _ & _ & _ & m_spans & m_probs & m_triples & m_tp & Hpred & _ & Hm & _).
  exists m_probs. split; [done|]. intros key.
  unfold _merge_predictions in Hpred. rewrite Hspans, Hprobs in Hpred.
  destruct (predicted_spans last) as [spans2|]; [|by injection Hpred as <- <-].
  assert (m_probs = fold_left prob_step
                      (default [] (probs_window_labels_chars last)) []) as ->.
  { destruct (predicted_triples acc'), (predicted_triples last);
      try (by injection Hpred as _ <-).
    apply bind_Ok in Hpred as (tr1 & _ & Hpred).
    apply bind_Ok in Hpred as (tr2 & _ & Hpred). by injection Hpred as _ <-. }
  by rewrite prob_fold_get.
Qed.

End DocumentProbabilities.

(** X24 on the three windows of "the cat sat down now": the merged window
    has the probability of the third window's span and not that of the
    first window's. *)
Lemma merge_fold_probabilities_witness :
  ∃ (m : Ex.Sample) (st' : list (list string)) (m_probs : dict Ex.Span Z),
    merge_fold Ex.scored_the_cat_sat
               ([Ex.scored_cat_sat_down] ++ [Ex.scored_sat_down_now]) Ex.store
    = (Ok m, st')
    ∧ predicted_spans_probs m = Some m_probs
    ∧ dict_get (0, 3, "PER") m_probs = None
    ∧ dict_get (12, 16, "ORG") m_probs = Some 5.
Proof.
  eassert (merge_fold Ex.scored_the_cat_sat
             ([Ex.scored_cat_sat_down] ++ [Ex.scored_sat_down_now]) Ex.store
           = (Ok _, _)) as Hrun by (vm_compute; reflexivity).
  destruct (merge_fold_probabilities Ex.scored_the_cat_sat
              [Ex.scored_cat_sat_down] Ex.scored_sat_down_now _ Ex.store _
              ltac:(done) Hrun) as (m_probs & Hm & Hget).
  eexists _, _, m_probs. split; [exact Hrun|]. split; [exact Hm|].
  split; (etrans; [apply Hget | by vm_compute]).
Defined.
